(** * MiniSigGen: the waveform synthesis engine

    A shallow embedding of the DDS engine of the signal generator
    (the [WaveGen] translation unit with its [Settings] interface, and the
    stand-alone sketch [main_v1.ino] with discrete globals), and the
    properties its specification states about it; then the code around the
    engine (the buttons and the loop of the sketch, the debounced buttons
    and the poll of the [Settings] front end [UI.cpp]) with further
    properties of both.

    Integers of the C++ code are [Z] with the conversions written out,
    [float] is IEEE-754 binary32 (the [spec_float] operations at precision 24),
    the module statics and the peripherals the code drives (DAC channel,
    LEDC/PWM channel, esp_timer) are the fields of an explicit state record. *)

From Stdlib Require Import ZArith List Bool Lia QArith Qround.
From Stdlib Require Import Floats.SpecFloat.
From Stdlib Require Reals Lra.
Import ListNotations.

Local Open Scope Z_scope.

(** ** Binary32 arithmetic *)

Module F32.

Definition prec : Z := 24.
Definition emax : Z := 128.

Definition float : Type := spec_float.

Definition add : float -> float -> float := SFadd prec emax.
Definition mul : float -> float -> float := SFmul prec emax.
Definition sub : float -> float -> float := SFsub prec emax.
Definition div : float -> float -> float := SFdiv prec emax.

(** [x < y] and [x > y] of C++: false as soon as one side is a NaN. *)
Definition ltb (x y : float) : bool := SFltb x y.
Definition gtb (x y : float) : bool := SFltb y x.
Definition leb (x y : float) : bool := SFleb x y.

(** The float nearest to [m * 2^e]: literals and integer-to-float
    conversions. *)
Definition lit (m e : Z) : float := binary_normalize prec emax m e false.
Definition of_Z (n : Z) : float := lit n 0.

(** A float that a binary32 register can hold. *)
Definition valid (x : float) : bool := valid_binary prec emax x.

(** Truncation toward zero, the integral part a float-to-integer cast
    keeps; infinities and NaN have none. *)
Definition trunc (x : float) : option Z :=
  match x with
  | S754_zero _ => Some 0
  | S754_finite s m e =>
      let a := match e with
               | Zneg p => Zpos m / 2 ^ Zpos p
               | _ => Zpos m * 2 ^ e
               end in
      Some (if s then - a else a)
  | S754_infinity _ | S754_nan => None
  end.

(** [(uintW_t)x]: defined only when the truncated value fits the target
    type; otherwise the conversion is undefined in C++ and the model has
    no result. *)
Definition to_unsigned (w : Z) (x : float) : option Z :=
  match trunc x with
  | Some z => if (0 <=? z) && (z <? 2 ^ w) then Some z else None
  | None => None
  end.

(** [lroundf]: nearest integer, halves away from zero. *)
Definition lround (x : float) : option Z :=
  match x with
  | S754_zero _ => Some 0
  | S754_finite s m e =>
      let a := match e with
               | Zneg p => (2 * Zpos m + 2 ^ Zpos p) / (2 * 2 ^ Zpos p)
               | _ => Zpos m * 2 ^ e
               end in
      Some (if s then - a else a)
  | S754_infinity _ | S754_nan => None
  end.

(** The rational a finite float stands for (0 for the others). *)
Definition to_Q (x : float) : Q :=
  match x with
  | S754_finite s m e =>
      let n := if s then Zneg m else Zpos m in
      match e with
      | Zneg p => Qmake n (2 ^ p)
      | _ => inject_Z (n * 2 ^ e)
      end
  | _ => 0%Q
  end.

Definition zero : float := S754_zero false.
Definition half : float := lit 1 (-1).
Definition one : float := of_Z 1.
Definition two : float := of_Z 2.

End F32.

(** ** Types shared by the translation units ([Types.h]) *)

Inductive Waveform : Type := Sine | Tri | Saw | Square.

Definition Waveform_eqb (a b : Waveform) : bool :=
  match a, b with
  | Sine, Sine | Tri, Tri | Saw, Saw | Square, Square => true
  | _, _ => false
  end.

(** [Settings]: what the control loop hands to the engine and reads back. *)
Record Settings : Type := mkSettings {
  wave : Waveform;
  targetHz : F32.float;
  actualHz : F32.float;
  amp : Z
}.

(** A small error monad for the casts that have no defined result. *)
Definition bind {A B : Type} (o : option A) (k : A -> option B) : option B :=
  match o with
  | Some a => k a
  | None => None
  end.

Notation "x <- c ;; k" := (bind c (fun x => k))
  (at level 61, c at next level, right associativity).

(** ** The engine with the [Settings] interface ([WaveGen]) *)

Module WaveGen.

Definition LUT_N : Z := 256.
Definition PWM_RES_BITS : Z := 8.
Definition PWM_MAX_HZ : Z := 10000000.
Definition DAC_MAX_HZ : F32.float := F32.of_Z 20000.

(** [(float)M_PI]: the binary32 value nearest to pi. *)
Definition M_PI_f : F32.float := F32.lit 13176795 (-22).

(** The module statics, followed by the peripherals the module drives:
    the DAC channel with the codes written to it (newest first), the LEDC
    channel and its pin, and the esp_timer behind the handle [tmr]
    ([Some p]: created and running with period [p]; [None]: [nullptr]). *)
Record state : Type := mkState {
  g : Settings;
  lut_sin : list Z;
  lut_tri : list Z;
  lut_saw : list Z;
  phase : Z;
  phaseStep : Z;
  ampScale : Z;
  wf : Waveform;
  tmr : option Z;
  periodUs : Z;
  dac_enabled : bool;
  dac_out : list Z;
  pwm_attached : bool;
  pwm_hz : Z;
  pwm_bits : Z;
  pwm_duty : Z;
  pin_output : bool
}.

Definition set_g (v : Settings) (s : state) : state :=
  mkState v (lut_sin s) (lut_tri s) (lut_saw s) (phase s) (phaseStep s)
    (ampScale s) (wf s) (tmr s) (periodUs s) (dac_enabled s) (dac_out s)
    (pwm_attached s) (pwm_hz s) (pwm_bits s) (pwm_duty s) (pin_output s).

Definition set_luts (a b c : list Z) (s : state) : state :=
  mkState (g s) a b c (phase s) (phaseStep s)
    (ampScale s) (wf s) (tmr s) (periodUs s) (dac_enabled s) (dac_out s)
    (pwm_attached s) (pwm_hz s) (pwm_bits s) (pwm_duty s) (pin_output s).

Definition set_phase (v : Z) (s : state) : state :=
  mkState (g s) (lut_sin s) (lut_tri s) (lut_saw s) v (phaseStep s)
    (ampScale s) (wf s) (tmr s) (periodUs s) (dac_enabled s) (dac_out s)
    (pwm_attached s) (pwm_hz s) (pwm_bits s) (pwm_duty s) (pin_output s).

Definition set_phaseStep (v : Z) (s : state) : state :=
  mkState (g s) (lut_sin s) (lut_tri s) (lut_saw s) (phase s) v
    (ampScale s) (wf s) (tmr s) (periodUs s) (dac_enabled s) (dac_out s)
    (pwm_attached s) (pwm_hz s) (pwm_bits s) (pwm_duty s) (pin_output s).

Definition set_ampScale (v : Z) (s : state) : state :=
  mkState (g s) (lut_sin s) (lut_tri s) (lut_saw s) (phase s) (phaseStep s)
    v (wf s) (tmr s) (periodUs s) (dac_enabled s) (dac_out s)
    (pwm_attached s) (pwm_hz s) (pwm_bits s) (pwm_duty s) (pin_output s).

Definition set_wf (v : Waveform) (s : state) : state :=
  mkState (g s) (lut_sin s) (lut_tri s) (lut_saw s) (phase s) (phaseStep s)
    (ampScale s) v (tmr s) (periodUs s) (dac_enabled s) (dac_out s)
    (pwm_attached s) (pwm_hz s) (pwm_bits s) (pwm_duty s) (pin_output s).

Definition set_tmr (v : option Z) (s : state) : state :=
  mkState (g s) (lut_sin s) (lut_tri s) (lut_saw s) (phase s) (phaseStep s)
    (ampScale s) (wf s) v (periodUs s) (dac_enabled s) (dac_out s)
    (pwm_attached s) (pwm_hz s) (pwm_bits s) (pwm_duty s) (pin_output s).

Definition set_periodUs (v : Z) (s : state) : state :=
  mkState (g s) (lut_sin s) (lut_tri s) (lut_saw s) (phase s) (phaseStep s)
    (ampScale s) (wf s) (tmr s) v (dac_enabled s) (dac_out s)
    (pwm_attached s) (pwm_hz s) (pwm_bits s) (pwm_duty s) (pin_output s).

Definition set_dac_enabled (v : bool) (s : state) : state :=
  mkState (g s) (lut_sin s) (lut_tri s) (lut_saw s) (phase s) (phaseStep s)
    (ampScale s) (wf s) (tmr s) (periodUs s) v (dac_out s)
    (pwm_attached s) (pwm_hz s) (pwm_bits s) (pwm_duty s) (pin_output s).

Definition set_dac_out (v : list Z) (s : state) : state :=
  mkState (g s) (lut_sin s) (lut_tri s) (lut_saw s) (phase s) (phaseStep s)
    (ampScale s) (wf s) (tmr s) (periodUs s) (dac_enabled s) v
    (pwm_attached s) (pwm_hz s) (pwm_bits s) (pwm_duty s) (pin_output s).

Definition set_pwm_attached (v : bool) (s : state) : state :=
  mkState (g s) (lut_sin s) (lut_tri s) (lut_saw s) (phase s) (phaseStep s)
    (ampScale s) (wf s) (tmr s) (periodUs s) (dac_enabled s) (dac_out s)
    v (pwm_hz s) (pwm_bits s) (pwm_duty s) (pin_output s).

Definition set_pwm_cfg (hz bits : Z) (s : state) : state :=
  mkState (g s) (lut_sin s) (lut_tri s) (lut_saw s) (phase s) (phaseStep s)
    (ampScale s) (wf s) (tmr s) (periodUs s) (dac_enabled s) (dac_out s)
    (pwm_attached s) hz bits (pwm_duty s) (pin_output s).

Definition set_pwm_duty (v : Z) (s : state) : state :=
  mkState (g s) (lut_sin s) (lut_tri s) (lut_saw s) (phase s) (phaseStep s)
    (ampScale s) (wf s) (tmr s) (periodUs s) (dac_enabled s) (dac_out s)
    (pwm_attached s) (pwm_hz s) (pwm_bits s) v (pin_output s).

Definition set_pin_output (v : bool) (s : state) : state :=
  mkState (g s) (lut_sin s) (lut_tri s) (lut_saw s) (phase s) (phaseStep s)
    (ampScale s) (wf s) (tmr s) (periodUs s) (dac_enabled s) (dac_out s)
    (pwm_attached s) (pwm_hz s) (pwm_bits s) (pwm_duty s) v.

(** The peripheral calls. *)
Definition dac_output_enable : state -> state := set_dac_enabled true.
Definition dac_output_disable : state -> state := set_dac_enabled false.
Definition dac_output_voltage (v : Z) (s : state) : state :=
  set_dac_out (v :: dac_out s) s.
Definition ledcDetachPin : state -> state := set_pwm_attached false.
Definition ledcAttachPin : state -> state := set_pwm_attached true.
Definition ledcSetup (hz bits : Z) : state -> state := set_pwm_cfg hz bits.
Definition ledcWrite (duty : Z) : state -> state := set_pwm_duty duty.
Definition pinMode_output : state -> state := set_pin_output true.

(** [lut_get_sample]: the table of the waveform at [idx]; 0 for a square. *)
Definition lut_get_sample (s : state) (w : Waveform) (idx : Z) : Z :=
  match w with
  | Sine => nth (Z.to_nat idx) (lut_sin s) 0
  | Tri => nth (Z.to_nat idx) (lut_tri s) 0
  | Saw => nth (Z.to_nat idx) (lut_saw s) 0
  | Square => 0
  end.

(** [(uint16_t(raw) * ampScale) >> 8] stored into a [uint8_t]. *)
Definition scale_sample (raw amp : Z) : Z :=
  Z.shiftr (raw * amp) 8 mod 256.

(** [on_timer]: the periodic callback of the sample clock. *)
Definition on_timer (s : state) : state :=
  if Waveform_eqb (wf s) Square then s
  else
    let raw := lut_get_sample s (wf s) (Z.land (phase s) (LUT_N - 1)) in
    let out := scale_sample raw (ampScale s) in
    let s1 := dac_output_voltage out s in
    set_phase (Z.land (phase s1 + phaseStep s1) (LUT_N - 1)) s1.

(** The table entries computed by one turn of the loop of [build_luts_once].
    [sinf] is the single-precision sine of the C library. *)
Section Tables.
Variable sinf : F32.float -> F32.float.

Definition lut_angle (i : Z) : F32.float :=
  let t := F32.div (F32.of_Z i) (F32.of_Z LUT_N) in
  F32.mul (F32.mul F32.two M_PI_f) t.

(** [(uint8_t)(127.5f + 127.5f * s + 0.5f)] for the sine value [s]. *)
Definition sine_code (s : F32.float) : option Z :=
  let f127_5 := F32.lit 255 (-1) in
  F32.to_unsigned 8 (F32.add (F32.add f127_5 (F32.mul f127_5 s)) F32.half).

Definition sin_entry (i : Z) : option Z := sine_code (sinf (lut_angle i)).

Definition tri_entry (i : Z) : Z :=
  if i <? 128 then (i * 2) mod 256 else ((255 - i) * 2) mod 256.

Definition saw_entry (i : Z) : Z := i mod 256.

(** The loop [for (i = 0; i < LUT_N; i++)], entered at [i] with [n] turns
    left; the three arrays are returned from index [i] on. *)
Fixpoint build_from (n : nat) (i : Z) : option (list Z * list Z * list Z) :=
  match n with
  | O => Some ([], [], [])
  | S n' =>
      a <- sin_entry i ;;
      r <- build_from n' (i + 1) ;;
      let '(sn, tr, sw) := r in
      Some (a :: sn, tri_entry i :: tr, saw_entry i :: sw)
  end.

Definition build_luts_once (s : state) : option state :=
  r <- build_from (Z.to_nat LUT_N) 0 ;;
  let '(sn, tr, sw) := r in
  Some (set_luts sn tr sw s).
End Tables.

(** The triangle table does not depend on [sinf]. *)
Definition tri_table : list Z := map tri_entry (map Z.of_nat (seq 0 256)).

Definition dac_timer_start (perUs : Z) (s : state) : state :=
  let s := match tmr s with
           | Some _ => set_tmr None s
           | None => s
           end in
  set_tmr (Some perUs) s.

Definition dac_timer_stop (s : state) : state :=
  match tmr s with
  | Some _ => set_tmr None s
  | None => s
  end.

(** [configure_dac_wave]: returns the achieved frequency. *)
Definition configure_dac_wave (targetHz : F32.float) (s : state)
  : option (F32.float * state) :=
  let targetHz := if F32.ltb targetHz F32.one then F32.one else targetHz in
  let targetHz := if F32.gtb targetHz DAC_MAX_HZ then DAC_MAX_HZ else targetHz in
  let s := set_periodUs 50 s in
  let fs := F32.div (F32.of_Z 1000000) (F32.of_Z (periodUs s)) in
  let idealStep := F32.div (F32.mul targetHz (F32.of_Z LUT_N)) fs in
  st <- F32.to_unsigned 16 (F32.add idealStep F32.half) ;;
  let st := if st <? 1 then 1 else st in
  let st := if st >? 64 then 64 else st in
  let s := set_phaseStep st s in
  let actual :=
    F32.mul fs (F32.div (F32.of_Z (phaseStep s)) (F32.of_Z LUT_N)) in
  let s := dac_output_enable s in
  let s := dac_timer_start (periodUs s) s in
  Some (actual, s).

Definition configure_square (targetHz : F32.float) (s : state) : option state :=
  let targetHz := if F32.ltb targetHz F32.one then F32.one else targetHz in
  let targetHz :=
    if F32.gtb targetHz (F32.of_Z PWM_MAX_HZ) then F32.of_Z PWM_MAX_HZ
    else targetHz in
  let s := dac_timer_stop s in
  let s := dac_output_disable s in
  let s := ledcDetachPin s in
  hz <- F32.to_unsigned 32 targetHz ;;
  let s := ledcSetup hz PWM_RES_BITS s in
  let s := ledcAttachPin s in
  Some (ledcWrite 128 s).

Definition with_amp (v : Z) (x : Settings) : Settings :=
  mkSettings (wave x) (targetHz x) (actualHz x) v.
Definition with_actualHz (v : F32.float) (x : Settings) : Settings :=
  mkSettings (wave x) (targetHz x) v (amp x).

(** [wavegen_apply]. The store into the [uint8_t] [ampScale] keeps the low
    eight bits. *)
Definition wavegen_apply (x : Settings) (s : state) : option state :=
  let s := set_g x s in
  let s := if amp (g s) >? 255 then set_g (with_amp 255 (g s)) s else s in
  let s := set_ampScale (amp (g s) mod 256) s in
  let s := set_wf (wave (g s)) s in
  if Waveform_eqb (wave (g s)) Square then
    s <- configure_square (targetHz (g s)) s ;;
    Some (set_g (with_actualHz (targetHz (g s)) (g s)) s)
  else
    r <- configure_dac_wave (targetHz (g s)) s ;;
    let '(actual, s) := r in
    Some (set_g (with_actualHz actual (g s)) s).

Definition wavegen_get (s : state) : Settings := g s.

(** The module before [wavegen_init]: statics at their initialisers, arrays
    zeroed, peripherals idle. [g0] is the default-constructed [Settings]. *)
Definition boot (g0 : Settings) : state :=
  mkState g0 (repeat 0 256) (repeat 0 256) (repeat 0 256)
    0 1 255 Sine None 50 false [] false 0 0 0 false.

Definition wavegen_init (sinf : F32.float -> F32.float) (s : state)
  : option state :=
  s <- build_luts_once sinf s ;;
  let s := pinMode_output s in
  let s := dac_output_enable s in
  wavegen_apply (g s) s.

End WaveGen.


(** ** The stand-alone sketch with discrete globals ([main_v1.ino]) *)

Module MainV1.

Definition LEDC_RES_BITS : Z := 10.
Definition LEDC_DUTY_50 : Z := 2 ^ LEDC_RES_BITS / 2.
Definition LUT_SIZE : Z := 256.

Inductive WaveMode : Type := MODE_SINE | MODE_TRI | MODE_SAW | MODE_SQUARE.

(** The globals of the sketch, then the peripherals: the esp_timer behind
    [waveTimer] ([Some p]: running with period [p]), the DAC channel with
    the codes written to it (newest first), the LEDC channel and the square
    pin. *)
Record state : Type := mkState {
  mode : WaveMode;
  frequencyHz : F32.float;
  amplitude : Z;
  lutSine : list Z;
  lutTri : list Z;
  lutSaw : list Z;
  waveTimer : bool;
  phaseIdx : Z;
  timerPeriodUs : Z;
  timerActive : bool;
  timer_running : option Z;
  dac_enabled : bool;
  dac_out : list Z;
  pwm_attached : bool;
  pwm_hz : Z;
  pwm_bits : Z;
  pwm_duty : Z;
  pin_output : bool;
  pin_high : bool
}.

Definition set_phaseIdx (v : Z) (s : state) : state :=
  mkState (mode s) (frequencyHz s) (amplitude s) (lutSine s) (lutTri s)
    (lutSaw s) (waveTimer s) v (timerPeriodUs s) (timerActive s)
    (timer_running s) (dac_enabled s) (dac_out s) (pwm_attached s) (pwm_hz s)
    (pwm_bits s) (pwm_duty s) (pin_output s) (pin_high s).

Definition set_timerPeriodUs (v : Z) (s : state) : state :=
  mkState (mode s) (frequencyHz s) (amplitude s) (lutSine s) (lutTri s)
    (lutSaw s) (waveTimer s) (phaseIdx s) v (timerActive s)
    (timer_running s) (dac_enabled s) (dac_out s) (pwm_attached s) (pwm_hz s)
    (pwm_bits s) (pwm_duty s) (pin_output s) (pin_high s).

Definition set_timerActive (v : bool) (s : state) : state :=
  mkState (mode s) (frequencyHz s) (amplitude s) (lutSine s) (lutTri s)
    (lutSaw s) (waveTimer s) (phaseIdx s) (timerPeriodUs s) v
    (timer_running s) (dac_enabled s) (dac_out s) (pwm_attached s) (pwm_hz s)
    (pwm_bits s) (pwm_duty s) (pin_output s) (pin_high s).

Definition set_timer_running (v : option Z) (s : state) : state :=
  mkState (mode s) (frequencyHz s) (amplitude s) (lutSine s) (lutTri s)
    (lutSaw s) (waveTimer s) (phaseIdx s) (timerPeriodUs s) (timerActive s)
    v (dac_enabled s) (dac_out s) (pwm_attached s) (pwm_hz s)
    (pwm_bits s) (pwm_duty s) (pin_output s) (pin_high s).

Definition set_dac_enabled (v : bool) (s : state) : state :=
  mkState (mode s) (frequencyHz s) (amplitude s) (lutSine s) (lutTri s)
    (lutSaw s) (waveTimer s) (phaseIdx s) (timerPeriodUs s) (timerActive s)
    (timer_running s) v (dac_out s) (pwm_attached s) (pwm_hz s)
    (pwm_bits s) (pwm_duty s) (pin_output s) (pin_high s).

Definition set_dac_out (v : list Z) (s : state) : state :=
  mkState (mode s) (frequencyHz s) (amplitude s) (lutSine s) (lutTri s)
    (lutSaw s) (waveTimer s) (phaseIdx s) (timerPeriodUs s) (timerActive s)
    (timer_running s) (dac_enabled s) v (pwm_attached s) (pwm_hz s)
    (pwm_bits s) (pwm_duty s) (pin_output s) (pin_high s).

Definition set_pwm_attached (v : bool) (s : state) : state :=
  mkState (mode s) (frequencyHz s) (amplitude s) (lutSine s) (lutTri s)
    (lutSaw s) (waveTimer s) (phaseIdx s) (timerPeriodUs s) (timerActive s)
    (timer_running s) (dac_enabled s) (dac_out s) v (pwm_hz s)
    (pwm_bits s) (pwm_duty s) (pin_output s) (pin_high s).

Definition set_pwm_cfg (hz bits : Z) (s : state) : state :=
  mkState (mode s) (frequencyHz s) (amplitude s) (lutSine s) (lutTri s)
    (lutSaw s) (waveTimer s) (phaseIdx s) (timerPeriodUs s) (timerActive s)
    (timer_running s) (dac_enabled s) (dac_out s) (pwm_attached s) hz
    bits (pwm_duty s) (pin_output s) (pin_high s).

Definition set_pwm_duty (v : Z) (s : state) : state :=
  mkState (mode s) (frequencyHz s) (amplitude s) (lutSine s) (lutTri s)
    (lutSaw s) (waveTimer s) (phaseIdx s) (timerPeriodUs s) (timerActive s)
    (timer_running s) (dac_enabled s) (dac_out s) (pwm_attached s) (pwm_hz s)
    (pwm_bits s) v (pin_output s) (pin_high s).

Definition set_pin (output high : bool) (s : state) : state :=
  mkState (mode s) (frequencyHz s) (amplitude s) (lutSine s) (lutTri s)
    (lutSaw s) (waveTimer s) (phaseIdx s) (timerPeriodUs s) (timerActive s)
    (timer_running s) (dac_enabled s) (dac_out s) (pwm_attached s) (pwm_hz s)
    (pwm_bits s) (pwm_duty s) output high.

Definition clampi (x lo hi : Z) : Z :=
  if x <? lo then lo else if x >? hi then hi else x.

Definition clampf (x lo hi : F32.float) : F32.float :=
  if F32.ltb x lo then lo else if F32.gtb x hi then hi else x.

(** [applyAmplitude]: the table sample scaled around mid-scale; the [int]
    division truncates toward zero. *)
Definition applyAmplitude (s : state) (base : Z) : Z :=
  let centered := base - 128 in
  let scaled := Z.quot (centered * amplitude s) 255 in
  let out := 128 + scaled in
  clampi out 0 255 mod 256.

(** [calcTimerPeriodUs]; [lroundf] has no specified result on a NaN. *)
Definition calcTimerPeriodUs (fHz : F32.float) : option Z :=
  let sampleRate := F32.mul fHz (F32.of_Z LUT_SIZE) in
  let sampleRate := if F32.ltb sampleRate F32.one then F32.one else sampleRate in
  let periodUs := F32.div (F32.of_Z 1000000) sampleRate in
  let periodUs := if F32.ltb periodUs (F32.of_Z 20) then F32.of_Z 20 else periodUs in
  let periodUs :=
    if F32.gtb periodUs (F32.of_Z 50000) then F32.of_Z 50000 else periodUs in
  r <- F32.lround periodUs ;;
  Some (r mod 2 ^ 32).

Definition stopTimerWave (s : state) : state :=
  if waveTimer s && timerActive s then
    set_timerActive false (set_timer_running None s)
  else s.

Definition startTimerWave (s : state) : state :=
  if negb (waveTimer s) then s
  else
    let s := set_phaseIdx 0 s in
    let s := set_timer_running (Some (timerPeriodUs s)) s in
    set_timerActive true s.

Definition setSquareWave (fHz : F32.float) (s : state) : option state :=
  hz <- F32.lround fHz ;;
  let s := set_pwm_cfg (hz mod 2 ^ 32) LEDC_RES_BITS s in
  let s := set_pwm_attached true s in
  Some (set_pwm_duty LEDC_DUTY_50 s).

Definition stopSquareWave (s : state) : state :=
  let s := set_pwm_attached false s in
  set_pin true false s.

(** [applyMode]; the closing [Serial.printf] leaves the state alone. *)
Definition applyMode (s : state) : option state :=
  let s := stopTimerWave s in
  let s := stopSquareWave s in
  let s := set_dac_enabled false s in
  match mode s with
  | MODE_SQUARE => setSquareWave (frequencyHz s) s
  | _ =>
      let s := set_dac_enabled true s in
      p <- calcTimerPeriodUs (frequencyHz s) ;;
      let s := set_timerPeriodUs p s in
      Some (startTimerWave s)
  end.

(** [waveTimerCb]: one sample per tick. *)
Definition waveTimerCb (s : state) : state :=
  let idx := Z.to_nat (Z.land (phaseIdx s) 255) in
  let base :=
    match mode s with
    | MODE_SINE => nth idx (lutSine s) 0
    | MODE_TRI => nth idx (lutTri s) 0
    | MODE_SAW => nth idx (lutSaw s) 0
    | MODE_SQUARE => 128
    end in
  let out := applyAmplitude s base in
  let s := set_dac_out (out :: dac_out s) s in
  set_phaseIdx (Z.land (phaseIdx s + 1) 255) s.

(** The triangle and sawtooth loops of [buildLUTs]. *)
Definition tri_entry (i : Z) : option Z :=
  let p := F32.div (F32.of_Z i) (F32.of_Z (LUT_SIZE - 1)) in
  let tri :=
    if F32.ltb p F32.half then F32.mul F32.two p
    else F32.mul F32.two (F32.sub F32.one p) in
  r <- F32.lround (F32.mul tri (F32.of_Z 255)) ;;
  Some (r mod 256).

Definition saw_entry (i : Z) : Z := (i * 255 / (LUT_SIZE - 1)) mod 256.

End MainV1.

(** ** Vocabulary of the specification *)

(** The largest code of a table. *)
Definition lut_max (l : list Z) : Z := fold_right Z.max 0 l.

(** [clamp lo hi x]: [x] brought into [[lo, hi]]. *)
Definition clamp (lo hi x : Z) : Z := Z.max lo (Z.min hi x).

(** The states the [WaveGen] module can be in: it boots, and from then on
    the control loop calls [wavegen_init] and [wavegen_apply] and the timer
    task calls [on_timer], in any order. *)
Inductive reachable (sinf : F32.float -> F32.float) (g0 : Settings)
  : WaveGen.state -> Prop :=
| reach_boot : reachable sinf g0 (WaveGen.boot g0)
| reach_init s s' :
    reachable sinf g0 s -> WaveGen.wavegen_init sinf s = Some s' ->
    reachable sinf g0 s'
| reach_apply s x s' :
    reachable sinf g0 s -> WaveGen.wavegen_apply x s = Some s' ->
    reachable sinf g0 s'
| reach_tick s :
    reachable sinf g0 s -> reachable sinf g0 (WaveGen.on_timer s).

(** Settings and states used as concrete inputs below. *)
Definition sine_1k : Settings := mkSettings Sine (F32.of_Z 1000) F32.zero 255.
Definition square_2k : Settings := mkSettings Square (F32.of_Z 2000) F32.zero 128.
Definition square_20M : Settings :=
  mkSettings Square (F32.of_Z 20000000) F32.zero 128.

(** The sketch in square mode with the phase index at 7, as a mode change
    from a running sawtooth leaves it. *)
Definition v1_square_7 : MainV1.state :=
  MainV1.mkState MainV1.MODE_SQUARE (F32.of_Z 500) 160
    (repeat 0 256) (repeat 0 256) (repeat 0 256)
    true 7 20 true (Some 20) true [] false 0 0 0 true false.

(** The intermediate values of [configure_dac_wave], named: the sample rate
    for the fixed 50 us period, the clamped target, the ideal step as the
    code computes it, and the clamp of the converted step. *)
Definition fs50 : F32.float := F32.div (F32.of_Z 1000000) (F32.of_Z 50).

Definition dac_target (t : F32.float) : F32.float :=
  let t := if F32.ltb t F32.one then F32.one else t in
  if F32.gtb t WaveGen.DAC_MAX_HZ then WaveGen.DAC_MAX_HZ else t.

Definition ideal_step (t : F32.float) : F32.float :=
  F32.div (F32.mul (dac_target t) (F32.of_Z WaveGen.LUT_N)) fs50.

(** The ideal step [target * N / fs] in exact arithmetic. *)
Definition exact_step (t : F32.float) : Q :=
  F32.to_Q (dac_target t) * inject_Z WaveGen.LUT_N / F32.to_Q fs50.

Definition step_of (st : Z) : Z :=
  let st := if st <? 1 then 1 else st in
  if st >? 64 then 64 else st.

(** The clamped target of [configure_square]. *)
Definition pwm_target (t : F32.float) : F32.float :=
  let t := if F32.ltb t F32.one then F32.one else t in
  if F32.gtb t (F32.of_Z WaveGen.PWM_MAX_HZ) then F32.of_Z WaveGen.PWM_MAX_HZ
  else t.

(** The statics [wavegen_apply] has written when it branches on the
    waveform. *)
Definition applied_amp (x : Settings) : Settings :=
  if amp x >? 255 then WaveGen.with_amp 255 x else x.

Definition pre_apply (x : Settings) (s : WaveGen.state) : WaveGen.state :=
  WaveGen.set_wf (wave x)
    (WaveGen.set_ampScale (amp (applied_amp x) mod 256)
       (WaveGen.set_g (applied_amp x) s)).

(** The indices [i, i+1, ...] visited by [n] turns of a loop entered at [i]. *)
Fixpoint indices (i : Z) (n : nat) : list Z :=
  match n with
  | O => []
  | S n' => i :: indices (i + 1) n'
  end.

(** Rounding to the nearest integer, halves upward. *)
Definition round_half_up (q : Q) : Z := Qfloor (q + (1 # 2)).

(** The value [configure_dac_wave] returns for the step [k]. *)
Definition actual_of (k : Z) : F32.float :=
  F32.mul fs50 (F32.div (F32.of_Z k) (F32.of_Z WaveGen.LUT_N)).

(** Something was shifted out of a mantissa: round or sticky bit set. *)
Definition inexact (r : shr_record) : bool := shr_r r || shr_s r.

(** A positive normal binary32 number whose value [v] satisfies
    [lo <= v * 2^200 <= hi]. *)
Definition pos_normal (x : F32.float) (lo hi : Z) : Prop :=
  exists m e,
    x = S754_finite false m e
    /\ Zpos (digits2_pos m) = 24
    /\ -149 <= e <= 104
    /\ lo <= Zpos m * 2 ^ (e + 200) <= hi.

(** The triangle table of the sketch, entry by entry. *)
Definition v1_tri_table : list (option Z) := map MainV1.tri_entry (indices 0 256).


(** The sine entry as the specification words it, over the real numbers:
    [round (127.5 + 127.5 * sin (2 pi i / N))] clamped to [[0, 255]], for a
    rounding [round] of the reader's choice. *)
Module Spec.
Import Reals.
Local Open Scope R_scope.



End Spec.

(** ** Vocabulary of the further properties *)

(** [n] ticks of the sample clock. *)
Definition ticks (n : nat) (s : WaveGen.state) : WaveGen.state :=
  Nat.iter n WaveGen.on_timer s.

(** The table index the accumulator has after [k] ticks. *)
Definition phase_after (s : WaveGen.state) (k : Z) : Z :=
  (WaveGen.phase s + k * WaveGen.phaseStep s) mod WaveGen.LUT_N.


(** A table of [LUT_N] bytes. *)
Definition byte_table (l : list Z) : Prop :=
  Z.of_nat (List.length l) = WaveGen.LUT_N /\ Forall (fun v => 0 <= v <= 255) l.
(** The invariant of the module, all of it. *)
Definition engine_inv (s : WaveGen.state) : Prop :=
  WaveGen.periodUs s = 50
  /\ (WaveGen.tmr s = None \/ WaveGen.tmr s = Some 50)
  /\ 1 <= WaveGen.phaseStep s <= 64
  /\ 0 <= WaveGen.ampScale s <= 255
  /\ (WaveGen.wf s = Square -> WaveGen.tmr s = None)
  /\ (WaveGen.tmr s <> None -> WaveGen.dac_enabled s = true)
  /\ (WaveGen.pwm_attached s = true ->
      WaveGen.pwm_duty s = 128 /\ WaveGen.pwm_bits s = 8).

(** *** The buttons and the Arduino loop of the sketch ([main_v1.ino]) *)

Module MainV1Loop.
Import MainV1.

Definition DEBOUNCE_MS : Z := 35.
Definition FREQ_MIN : F32.float := F32.of_Z 1.
Definition FREQ_MAX : F32.float := F32.of_Z 5000.
Definition AMP_STEP : Z := 16.
Definition AMP_MIN : Z := 0.
Definition AMP_MAX : Z := 255.
Definition FREQ_STEP : F32.float := F32.of_Z 25.

Definition set_mode (v : WaveMode) (s : state) : state :=
  mkState v (frequencyHz s) (amplitude s) (lutSine s) (lutTri s)
    (lutSaw s) (waveTimer s) (phaseIdx s) (timerPeriodUs s) (timerActive s)
    (timer_running s) (dac_enabled s) (dac_out s) (pwm_attached s) (pwm_hz s)
    (pwm_bits s) (pwm_duty s) (pin_output s) (pin_high s).

Definition set_frequencyHz (v : F32.float) (s : state) : state :=
  mkState (mode s) v (amplitude s) (lutSine s) (lutTri s)
    (lutSaw s) (waveTimer s) (phaseIdx s) (timerPeriodUs s) (timerActive s)
    (timer_running s) (dac_enabled s) (dac_out s) (pwm_attached s) (pwm_hz s)
    (pwm_bits s) (pwm_duty s) (pin_output s) (pin_high s).

Definition set_amplitude (v : Z) (s : state) : state :=
  mkState (mode s) (frequencyHz s) v (lutSine s) (lutTri s)
    (lutSaw s) (waveTimer s) (phaseIdx s) (timerPeriodUs s) (timerActive s)
    (timer_running s) (dac_enabled s) (dac_out s) (pwm_attached s) (pwm_hz s)
    (pwm_bits s) (pwm_duty s) (pin_output s) (pin_high s).

(** The enumerators of [WaveMode] as the [uint8_t] they are. *)
Definition mode_code (m : WaveMode) : Z :=
  match m with
  | MODE_SINE => 0
  | MODE_TRI => 1
  | MODE_SAW => 2
  | MODE_SQUARE => 3
  end.

Definition mode_of_code (c : Z) : WaveMode :=
  if c =? 0 then MODE_SINE
  else if c =? 1 then MODE_TRI
  else if c =? 2 then MODE_SAW
  else MODE_SQUARE.

(** [(WaveMode)((mode + 1) % 4)]. *)
Definition next_mode (m : WaveMode) : WaveMode :=
  mode_of_code ((mode_code m + 1) mod 4).

Inductive Button : Type := BTN_MODE | BTN_FUP | BTN_FDN | BTN_AUP | BTN_ADN.

(** What [loop] does for a button that [readPressed] reports, once the
    button is released. *)
Definition on_press (b : Button) (s : state) : option state :=
  match b with
  | BTN_MODE => applyMode (set_mode (next_mode (mode s)) s)
  | BTN_FUP =>
      applyMode
        (set_frequencyHz
           (clampf (F32.add (frequencyHz s) FREQ_STEP) FREQ_MIN FREQ_MAX) s)
  | BTN_FDN =>
      applyMode
        (set_frequencyHz
           (clampf (F32.sub (frequencyHz s) FREQ_STEP) FREQ_MIN FREQ_MAX) s)
  | BTN_AUP =>
      applyMode
        (set_amplitude (clampi (amplitude s + AMP_STEP) AMP_MIN AMP_MAX) s)
  | BTN_ADN =>
      applyMode
        (set_amplitude (clampi (amplitude s - AMP_STEP) AMP_MIN AMP_MAX) s)
  end.



(** The buttons of [l] pressed one after the other, each in a turn of
    [loop] of its own. *)
Definition presses (l : list Button) (s : state) : option state :=
  fold_left (fun o b => s <- o ;; on_press b s) l (Some s).

(** [struct Btn]; [last] is the level read last, [true] for [HIGH]. *)
Record Btn : Type := mkBtn {
  pin : Z;
  last : bool;
  lastChangeMs : Z
}.

(** [readPressed] for the level [now] that [digitalRead] returns and the
    time [t] that [millis] returns; the difference of the two [uint32_t] times
    wraps. *)
Definition readPressed (b : Btn) (now : bool) (t : Z) : bool * Btn :=
  let b := if negb (Bool.eqb now (last b)) then mkBtn (pin b) now t else b in
  if ((t - lastChangeMs b) mod 2 ^ 32 >=? DEBOUNCE_MS) && Bool.eqb now false
  then (true, b)
  else (false, b).

End MainV1Loop.

(** [n] ticks of the sketch's sample timer. *)
Definition v1_ticks (n : nat) (s : MainV1.state) : MainV1.state :=
  Nat.iter n MainV1.waveTimerCb s.

(** The table entry the sketch's callback reads at index [i]; mid-scale in
    square mode. *)
Definition v1_base (s : MainV1.state) (i : Z) : Z :=
  match MainV1.mode s with
  | MainV1.MODE_SINE => nth (Z.to_nat i) (MainV1.lutSine s) 0
  | MainV1.MODE_TRI => nth (Z.to_nat i) (MainV1.lutTri s) 0
  | MainV1.MODE_SAW => nth (Z.to_nat i) (MainV1.lutSaw s) 0
  | MainV1.MODE_SQUARE => 128
  end.

(** The period the sketch should use for the frequency [n] Hz: a table of
    256 samples per cycle, in whole microseconds, within [[20, 50000]]. *)
Definition exact_period (n : Z) : Z :=
  clamp 20 50000 (round_half_up (1000000 / (256 * inject_Z n))%Q).

(** What the sketch keeps true of its controls: the frequency is a whole
    number of hertz in [[1, 5000]], the amplitude is in [[0, 255]], and the
    sample timer only runs when the handle exists and [timerActive] is set. *)
Definition v1_inv (s : MainV1.state) : Prop :=
  (exists n, 1 <= n <= 5000 /\ MainV1.frequencyHz s = F32.of_Z n)
  /\ 0 <= MainV1.amplitude s <= 255
  /\ (MainV1.timer_running s <> None ->
      MainV1.waveTimer s = true /\ MainV1.timerActive s = true).

(** The sketch with its globals at their initialisers, as [setup] finds
    them, for a timer handle [t] (created or not). *)
Definition v1_initial (t : bool) : MainV1.state :=
  MainV1.mkState MainV1.MODE_SINE (F32.of_Z 500) 160
    (repeat 0 256) (repeat 0 256) (repeat 0 256)
    t 0 20 false None false [] false 0 0 0 false false.

(** Equality of two finite floats, field by field. *)
Definition float_eqb (a b : F32.float) : bool :=
  match a, b with
  | S754_finite s m e, S754_finite s' m' e' =>
      Bool.eqb s s' && Pos.eqb m m' && (e =? e')
  | _, _ => false
  end.

(** *** The buttons of the [Settings] front end ([UI.cpp]) *)

Module UI.

Definition DEBOUNCE_MS : Z := 25.

(** The levels of [digitalRead]. *)
Definition HIGH : Z := 1.
Definition LOW : Z := 0.

(** [struct DebBtn]. *)
Record DebBtn : Type := mkDebBtn {
  pin : Z;
  stable : Z;
  lastRead : Z;
  lastChangeMs : Z
}.

(** [deb_pressed_edge] for the level [r] that [digitalRead] returns and the
    time [now] that [millis] returns; the difference of the two [uint32_t]
    times wraps. *)
Definition deb_pressed_edge (b : DebBtn) (r now : Z) : bool * DebBtn :=
  let b :=
    if negb (r =? lastRead b) then mkDebBtn (pin b) (stable b) r now else b in
  if ((now - lastChangeMs b) mod 2 ^ 32 >=? DEBOUNCE_MS)
     && negb (stable b =? lastRead b)
  then
    let prev := stable b in
    let b := mkDebBtn (pin b) (lastRead b) (lastRead b) (lastChangeMs b) in
    ((prev =? HIGH) && (stable b =? LOW), b)
  else (false, b).

(** The literals [1.10f] and [0.90f]. *)
Definition f1_10 : F32.float := F32.lit 9227469 (-23).
Definition f0_90 : F32.float := F32.lit 15099494 (-24).

Definition with_targetHz (v : F32.float) (x : Settings) : Settings :=
  mkSettings (wave x) v (actualHz x) (amp x).
Definition with_wave (v : Waveform) (x : Settings) : Settings :=
  mkSettings v (targetHz x) (actualHz x) (amp x).

(** The five buttons and what the hardware returns for each of the five
    calls of one [ui_poll]. *)
Inductive Key : Type := FREQ_UP | FREQ_DOWN | AMP_UP | AMP_DOWN | WAVE_NEXT.

Section Poll.

(** The numbering of the enumerators of [Waveform], which [Types.h]
    declares: the value of an enumerator, and the enumerator of a value. *)
Variable wave_code : Waveform -> Z.
Variable wave_of_code : Z -> Waveform.

(** The body of [ui_poll], for the five results of [deb_pressed_edge]. *)
Definition ui_update (edge : Key -> bool) (s : Settings) : bool * Settings :=
  let changed := false in
  let '(s, changed) :=
    if edge FREQ_UP then (with_targetHz (F32.mul (targetHz s) f1_10) s, true)
    else (s, changed) in
  let '(s, changed) :=
    if edge FREQ_DOWN then (with_targetHz (F32.mul (targetHz s) f0_90) s, true)
    else (s, changed) in
  let '(s, changed) :=
    if edge AMP_UP then
      (if amp s <=? 223 then WaveGen.with_amp (amp s + 32) s
       else WaveGen.with_amp 255 s, true)
    else (s, changed) in
  let '(s, changed) :=
    if edge AMP_DOWN then
      (if amp s >=? 32 then WaveGen.with_amp (amp s - 32) s
       else WaveGen.with_amp 0 s, true)
    else (s, changed) in
  let '(s, changed) :=
    if edge WAVE_NEXT then
      let w := wave_code (wave s) mod 256 in
      let w := Z.land (w + 1) 3 mod 256 in
      (with_wave (wave_of_code w) s, true)
    else (s, changed) in
  let s :=
    if F32.ltb (targetHz s) (F32.of_Z 1) then with_targetHz (F32.of_Z 1) s
    else s in
  let s :=
    if F32.gtb (targetHz s) (F32.of_Z 10000000)
    then with_targetHz (F32.of_Z 10000000) s
    else s in
  (changed, s).

(** [ui_poll]: the five buttons are read in the order of the source, each
    with its level and time, and the settings updated for the edges found. *)
Definition ui_poll (btn : Key -> DebBtn) (level time : Key -> Z) (s : Settings)
  : bool * (Key -> DebBtn) * Settings :=
  let edge k := fst (deb_pressed_edge (btn k) (level k) (time k)) in
  let btn' k := snd (deb_pressed_edge (btn k) (level k) (time k)) in
  let '(changed, s) := ui_update edge s in
  (changed, btn', s).

End Poll.

(** The numbering that follows the order of the enumerators in the
    [switch] of [wavegen_name], used as an example. *)
Definition code_in_order (w : Waveform) : Z :=
  match w with
  | Sine => 0
  | Tri => 1
  | Saw => 2
  | Square => 3
  end.

Definition of_code_in_order (c : Z) : Waveform :=
  if c =? 0 then Sine else if c =? 1 then Tri else if c =? 2 then Saw
  else Square.

(** The results of [deb_pressed_edge] when only the button [k] has an edge. *)
Definition only (k : Key) (k' : Key) : bool :=
  match k, k' with
  | FREQ_UP, FREQ_UP | FREQ_DOWN, FREQ_DOWN | AMP_UP, AMP_UP
  | AMP_DOWN, AMP_DOWN | WAVE_NEXT, WAVE_NEXT => true
  | _, _ => false
  end.

End UI.

(** * Properties *)

Lemma Waveform_eqb_eq (a b : Waveform) : Waveform_eqb a b = true <-> a = b.
Proof. destruct a, b; simpl; split; congruence. Qed.

Lemma land_255 (x : Z) : Z.land x 255 = x mod 256.
Proof. change 255 with (Z.ones 8). now rewrite Z.land_ones by lia. Qed.

(** *** Amplitude scaling *)

Lemma scale_sample_div (raw amp : Z) :
  0 <= raw <= 255 -> 0 <= amp <= 255 ->
  WaveGen.scale_sample raw amp = raw * amp / 256.
Proof.
  intros Hr Ha. unfold WaveGen.scale_sample.
  rewrite Z.shiftr_div_pow2 by lia. change (2 ^ 8) with 256.
  assert (0 <= raw * amp <= 255 * 255) by nia.
  apply Z.mod_small. split.
  - apply Z.div_pos; lia.
  - apply Z.div_lt_upper_bound; lia.
Qed.

Lemma scale_sample_full (raw : Z) :
  1 <= raw <= 255 -> WaveGen.scale_sample raw 255 = raw - 1.
Proof.
  intros Hr. rewrite scale_sample_div by lia.
  symmetry. apply (Z.div_unique _ _ _ (256 - raw)); lia.
Qed.




(** C10: at full amplitude the scaling loses one code: [(raw * 255) >> 8]
    is [raw - 1] for every [raw] in [1,255] and 0 for [raw = 0], so the
    output is below every nonzero sample and never reaches 255. *)
Theorem C10_full_scale_loses_one (raw : Z) :
  0 <= raw <= 255 ->
  WaveGen.scale_sample raw 255 = (if raw =? 0 then 0 else raw - 1)
  /\ (raw <> 0 -> WaveGen.scale_sample raw 255 < raw)
  /\ WaveGen.scale_sample raw 255 <= 254.
Proof.
  intros Hr. destruct (Z.eqb_spec raw 0) as [->|Hn].
  - repeat split; [lia | cbn; lia].
  - rewrite scale_sample_full by lia. repeat split; lia.
Qed.

Lemma C10_full_scale_loses_one_witness :
  WaveGen.scale_sample 255 255 = 254
  /\ (255 <> 0 -> WaveGen.scale_sample 255 255 < 255)
  /\ WaveGen.scale_sample 255 255 <= 254.
Proof. apply (C10_full_scale_loses_one 255). lia. Defined.

(** The sketch scales around mid-scale instead: its output is a byte as
    well, but at amplitude 0 it is the constant 128, not 0. *)
Lemma applyAmplitude_range (s : MainV1.state) (base : Z) :
  0 <= MainV1.applyAmplitude s base <= 255
  /\ (MainV1.amplitude s = 0 -> MainV1.applyAmplitude s base = 128).
Proof.
  unfold MainV1.applyAmplitude. cbv zeta. split.
  - pose proof (Z.mod_pos_bound
                  (MainV1.clampi (128 + Z.quot ((base - 128) * MainV1.amplitude s) 255)
                     0 255) 256 eq_refl). lia.
  - intros ->. rewrite Z.mul_0_r. reflexivity.
Qed.

(** *** The functions, unfolded once *)

Lemma configure_dac_wave_eq (t : F32.float) (s : WaveGen.state) :
  WaveGen.configure_dac_wave t s =
    (st <- F32.to_unsigned 16 (F32.add (ideal_step t) F32.half) ;;
     Some (F32.mul fs50
             (F32.div (F32.of_Z (step_of st)) (F32.of_Z WaveGen.LUT_N)),
           WaveGen.dac_timer_start 50
             (WaveGen.dac_output_enable
                (WaveGen.set_phaseStep (step_of st)
                   (WaveGen.set_periodUs 50 s))))).
Proof. reflexivity. Qed.

Lemma configure_square_eq (t : F32.float) (s : WaveGen.state) :
  WaveGen.configure_square t s =
    (hz <- F32.to_unsigned 32 (pwm_target t) ;;
     Some (WaveGen.ledcWrite 128
             (WaveGen.ledcAttachPin
                (WaveGen.ledcSetup hz WaveGen.PWM_RES_BITS
                   (WaveGen.ledcDetachPin
                      (WaveGen.dac_output_disable
                         (WaveGen.dac_timer_stop s))))))).
Proof. reflexivity. Qed.

Lemma wavegen_apply_eq (x : Settings) (s : WaveGen.state) :
  WaveGen.wavegen_apply x s =
    if Waveform_eqb (wave x) Square then
      s1 <- WaveGen.configure_square (targetHz x) (pre_apply x s) ;;
      Some (WaveGen.set_g
              (WaveGen.with_actualHz (targetHz (WaveGen.g s1)) (WaveGen.g s1))
              s1)
    else
      r <- WaveGen.configure_dac_wave (targetHz x) (pre_apply x s) ;;
      Some (WaveGen.set_g
              (WaveGen.with_actualHz (fst r) (WaveGen.g (snd r))) (snd r)).
Proof.
  unfold WaveGen.wavegen_apply, pre_apply, applied_amp.
  cbn [WaveGen.g WaveGen.set_g amp].
  destruct (amp x >? 255);
    cbn [WaveGen.g WaveGen.set_g WaveGen.set_ampScale WaveGen.set_wf
         WaveGen.with_amp wave targetHz amp];
    destruct (Waveform_eqb (wave x) Square); try reflexivity;
    destruct (WaveGen.configure_dac_wave _ _) as [[a s1]|]; reflexivity.
Qed.

Lemma timer_start_frame (p : Z) (s : WaveGen.state) :
  WaveGen.dac_timer_start p s = WaveGen.set_tmr (Some p) s.
Proof. unfold WaveGen.dac_timer_start. now destruct (WaveGen.tmr s), s. Qed.

Lemma timer_stop_frame (s : WaveGen.state) :
  WaveGen.dac_timer_stop s = WaveGen.set_tmr None s.
Proof. unfold WaveGen.dac_timer_stop. now destruct (WaveGen.tmr s) eqn:E, s; cbn in *; subst. Qed.

(** The state after a successful [wavegen_apply], field by field. *)
Lemma wavegen_apply_square (x : Settings) (s s' : WaveGen.state) :
  wave x = Square -> WaveGen.wavegen_apply x s = Some s' ->
  exists hz,
    F32.to_unsigned 32 (pwm_target (targetHz x)) = Some hz
    /\ s' = WaveGen.set_g (WaveGen.with_actualHz (targetHz x) (applied_amp x))
              (WaveGen.ledcWrite 128
                 (WaveGen.ledcAttachPin
                    (WaveGen.ledcSetup hz WaveGen.PWM_RES_BITS
                       (WaveGen.ledcDetachPin
                          (WaveGen.dac_output_disable
                             (WaveGen.set_tmr None (pre_apply x s))))))).
Proof.
  intros Hw H. rewrite wavegen_apply_eq, Hw in H. cbn [Waveform_eqb] in H.
  rewrite configure_square_eq, timer_stop_frame in H. unfold bind in H.
  destruct (F32.to_unsigned 32 _) as [hz|]; [|discriminate].
  exists hz. split; [reflexivity|]. injection H as <-.
  unfold applied_amp. destruct (amp x >? 255); reflexivity.
Qed.

Lemma wavegen_apply_dac (x : Settings) (s s' : WaveGen.state) :
  wave x <> Square -> WaveGen.wavegen_apply x s = Some s' ->
  exists st,
    F32.to_unsigned 16 (F32.add (ideal_step (targetHz x)) F32.half) = Some st
    /\ s' = WaveGen.set_g
              (WaveGen.with_actualHz
                 (F32.mul fs50
                    (F32.div (F32.of_Z (step_of st)) (F32.of_Z WaveGen.LUT_N)))
                 (applied_amp x))
              (WaveGen.set_tmr (Some 50)
                 (WaveGen.dac_output_enable
                    (WaveGen.set_phaseStep (step_of st)
                       (WaveGen.set_periodUs 50 (pre_apply x s))))).
Proof.
  intros Hw H. rewrite wavegen_apply_eq in H.
  destruct (Waveform_eqb (wave x) Square) eqn:E.
  { apply Waveform_eqb_eq in E. contradiction. }
  rewrite configure_dac_wave_eq in H. unfold bind in H.
  destruct (F32.to_unsigned 16 _) as [st|]; [|discriminate].
  rewrite timer_start_frame in H.
  exists st. split; [reflexivity|]. injection H as <-.
  unfold applied_amp. destruct (amp x >? 255); reflexivity.
Qed.

Lemma wavegen_apply_cases (x : Settings) (s s' : WaveGen.state) :
  WaveGen.wavegen_apply x s = Some s' ->
  wave x = Square \/ wave x <> Square.
Proof. intros _. destruct (wave x); auto; right; discriminate. Qed.

(** *** What [wavegen_apply] and [applyMode] change *)

Lemma wavegen_apply_phase (x : Settings) (s s' : WaveGen.state) :
  WaveGen.wavegen_apply x s = Some s' -> WaveGen.phase s' = WaveGen.phase s.
Proof.
  intros H. destruct (wavegen_apply_cases _ _ _ H) as [Hw|Hw].
  - destruct (wavegen_apply_square _ _ _ Hw H) as (hz & _ & ->). reflexivity.
  - destruct (wavegen_apply_dac _ _ _ Hw H) as (st & _ & ->). reflexivity.
Qed.

Lemma wavegen_apply_wf (x : Settings) (s s' : WaveGen.state) :
  WaveGen.wavegen_apply x s = Some s' -> WaveGen.wf s' = wave x.
Proof.
  intros H. destruct (wavegen_apply_cases _ _ _ H) as [Hw|Hw].
  - destruct (wavegen_apply_square _ _ _ Hw H) as (hz & _ & ->). reflexivity.
  - destruct (wavegen_apply_dac _ _ _ Hw H) as (st & _ & ->). reflexivity.
Qed.

Ltac v1_fields :=
  cbn [MainV1.mode MainV1.frequencyHz MainV1.amplitude MainV1.waveTimer
       MainV1.phaseIdx MainV1.timerPeriodUs MainV1.timerActive
       MainV1.timer_running MainV1.dac_enabled MainV1.dac_out
       MainV1.pwm_attached MainV1.pwm_hz MainV1.pwm_bits MainV1.pwm_duty
       MainV1.set_phaseIdx MainV1.set_timerPeriodUs MainV1.set_timerActive
       MainV1.set_timer_running MainV1.set_dac_enabled MainV1.set_dac_out
       MainV1.set_pwm_attached MainV1.set_pwm_cfg MainV1.set_pwm_duty
       MainV1.set_pin MainV1.stopSquareWave].

Lemma stopTimerWave_fields (s : MainV1.state) :
  MainV1.mode (MainV1.stopTimerWave s) = MainV1.mode s
  /\ MainV1.frequencyHz (MainV1.stopTimerWave s) = MainV1.frequencyHz s
  /\ MainV1.waveTimer (MainV1.stopTimerWave s) = MainV1.waveTimer s
  /\ MainV1.phaseIdx (MainV1.stopTimerWave s) = MainV1.phaseIdx s.
Proof.
  unfold MainV1.stopTimerWave.
  destruct (MainV1.waveTimer s && MainV1.timerActive s); repeat split.
Qed.

(** The state after a successful [applyMode], by mode. *)
Lemma applyMode_inv (s s' : MainV1.state) :
  MainV1.applyMode s = Some s' ->
  let s0 := MainV1.set_dac_enabled false
              (MainV1.stopSquareWave (MainV1.stopTimerWave s)) in
  match MainV1.mode s with
  | MainV1.MODE_SQUARE =>
      exists hz,
        s' = MainV1.set_pwm_duty MainV1.LEDC_DUTY_50
               (MainV1.set_pwm_attached true
                  (MainV1.set_pwm_cfg hz MainV1.LEDC_RES_BITS s0))
  | _ =>
      exists p,
        s' = MainV1.startTimerWave
               (MainV1.set_timerPeriodUs p (MainV1.set_dac_enabled true s0))
  end.
Proof.
  intros H. unfold MainV1.applyMode in H. cbv zeta in H. cbv zeta.
  set (s0 := MainV1.set_dac_enabled false
               (MainV1.stopSquareWave (MainV1.stopTimerWave s))) in *.
  assert (Hm : MainV1.mode s0 = MainV1.mode s).
  { unfold s0. v1_fields. apply stopTimerWave_fields. }
  rewrite Hm in H. unfold MainV1.setSquareWave, bind in H. cbv zeta in H.
  destruct (MainV1.mode s); cbv beta iota in H; cbv beta iota;
    match type of H with
    | context [match ?o with Some _ => _ | None => _ end] =>
        destruct o as [v|]; [|discriminate H]
    end;
    injection H as <-; eexists; reflexivity.
Qed.

Lemma startTimerWave_fields (s : MainV1.state) :
  MainV1.phaseIdx (MainV1.startTimerWave s) =
    (if MainV1.waveTimer s then 0 else MainV1.phaseIdx s)
  /\ MainV1.pwm_attached (MainV1.startTimerWave s) = MainV1.pwm_attached s
  /\ MainV1.dac_enabled (MainV1.startTimerWave s) = MainV1.dac_enabled s.
Proof.
  unfold MainV1.startTimerWave. destruct (MainV1.waveTimer s); repeat split.
Qed.

Lemma applyMode_phaseIdx (s s' : MainV1.state) :
  MainV1.applyMode s = Some s' ->
  MainV1.phaseIdx s' =
    match MainV1.mode s with
    | MainV1.MODE_SQUARE => MainV1.phaseIdx s
    | _ => if MainV1.waveTimer s then 0 else MainV1.phaseIdx s
    end.
Proof.
  intros H. apply applyMode_inv in H. cbv zeta in H.
  destruct (stopTimerWave_fields s) as (_ & _ & Hw & Hp).
  destruct (MainV1.mode s); destruct H as (v & ->);
    rewrite ?(proj1 (startTimerWave_fields _)); v1_fields;
    rewrite ?Hw, ?Hp; reflexivity.
Qed.

(** [applyMode] stops both paths first and then starts one. *)
Lemma applyMode_exclusive (s s' : MainV1.state) :
  MainV1.applyMode s = Some s' ->
  match MainV1.mode s with
  | MainV1.MODE_SQUARE =>
      MainV1.pwm_attached s' = true /\ MainV1.dac_enabled s' = false
  | _ => MainV1.pwm_attached s' = false /\ MainV1.dac_enabled s' = true
  end.
Proof.
  intros H. apply applyMode_inv in H. cbv zeta in H.
  destruct (MainV1.mode s); destruct H as (v & ->);
    rewrite ?(proj1 (proj2 (startTimerWave_fields _))),
      ?(proj2 (proj2 (startTimerWave_fields _)));
    v1_fields; split; reflexivity.
Qed.

(** C1 (as the code has it): [wavegen_apply] never writes the phase
    accumulator, so the phase after [apply] is the phase before it; the
    sketch's [applyMode] zeroes [phaseIdx] exactly when it restarts the sample
    timer, that is in a non-square mode with the timer created, and leaves it
    alone in square mode. *)
Theorem C1_apply_phase :
  (forall x s s',
      WaveGen.wavegen_apply x s = Some s' ->
      WaveGen.phase s' = WaveGen.phase s)
  /\ (forall s s',
      MainV1.applyMode s = Some s' ->
      MainV1.phaseIdx s' =
        match MainV1.mode s with
        | MainV1.MODE_SQUARE => MainV1.phaseIdx s
        | _ => if MainV1.waveTimer s then 0 else MainV1.phaseIdx s
        end).
Proof. split; [exact wavegen_apply_phase | exact applyMode_phaseIdx]. Qed.

Lemma C1_apply_phase_witness :
  exists s2,
    WaveGen.wavegen_apply sine_1k
      (WaveGen.set_phase 13 (WaveGen.boot sine_1k)) = Some s2
    /\ WaveGen.phase s2 = 13.
Proof.
  destruct (WaveGen.wavegen_apply sine_1k
              (WaveGen.set_phase 13 (WaveGen.boot sine_1k))) as [s2|] eqn:E.
  - exists s2. split; [reflexivity|].
    exact (proj1 C1_apply_phase _ _ _ E).
  - vm_compute in E. discriminate.
Defined.

(** C1, as stated, fails: re-applying the 1 kHz sine settings after one tick
    leaves the phase at 13, and entering square mode in the sketch leaves the
    phase index at 7. *)
Lemma C1_apply_phase_counterexample :
  (exists s1 s2,
      WaveGen.wavegen_apply sine_1k (WaveGen.boot sine_1k) = Some s1
      /\ WaveGen.wavegen_apply sine_1k (WaveGen.on_timer s1) = Some s2
      /\ WaveGen.phase s2 = 13 /\ WaveGen.phase s2 <> 0)
  /\ (exists s', MainV1.applyMode v1_square_7 = Some s'
      /\ MainV1.phaseIdx s' = 7 /\ MainV1.phaseIdx s' <> 0).
Proof.
  split.
  - destruct (WaveGen.wavegen_apply sine_1k (WaveGen.boot sine_1k))
      as [s1|] eqn:E1; [|vm_compute in E1; discriminate].
    destruct (WaveGen.wavegen_apply sine_1k (WaveGen.on_timer s1))
      as [s2|] eqn:E2.
    + exists s1, s2. vm_compute in E1. injection E1 as <-.
      vm_compute in E2. injection E2 as <-.
      repeat split; try reflexivity; discriminate.
    + vm_compute in E1. injection E1 as <-. vm_compute in E2. discriminate.
  - destruct (MainV1.applyMode v1_square_7) as [s'|] eqn:E;
      [|vm_compute in E; discriminate].
    exists s'. vm_compute in E. injection E as <-.
    repeat split; try reflexivity; discriminate.
Qed.

(** *** Output paths *)

Lemma wavegen_apply_paths (x : Settings) (s s' : WaveGen.state) :
  WaveGen.wavegen_apply x s = Some s' ->
  if Waveform_eqb (wave x) Square then
    WaveGen.dac_enabled s' = false /\ WaveGen.pwm_attached s' = true
  else
    WaveGen.dac_enabled s' = true
    /\ WaveGen.pwm_attached s' = WaveGen.pwm_attached s.
Proof.
  intros H. destruct (wavegen_apply_cases _ _ _ H) as [Hw|Hw].
  - destruct (wavegen_apply_square _ _ _ Hw H) as (hz & _ & ->).
    rewrite Hw. split; reflexivity.
  - destruct (wavegen_apply_dac _ _ _ Hw H) as (st & _ & ->).
    destruct (Waveform_eqb (wave x) Square) eqn:E.
    + apply Waveform_eqb_eq in E. contradiction.
    + split; reflexivity.
Qed.

(** C2 (the code at the failing input): switching from the 2 kHz square to
    the 1 kHz sine leaves the DAC enabled and the PWM channel still attached;
    [configure_dac_wave] has no [ledcDetachPin]. *)
Theorem C2_both_paths_after_square :
  exists s1 s2,
    WaveGen.wavegen_apply square_2k (WaveGen.boot sine_1k) = Some s1
    /\ WaveGen.wavegen_apply sine_1k s1 = Some s2
    /\ WaveGen.dac_enabled s2 = true
    /\ WaveGen.pwm_attached s2 = true.
Proof.
  destruct (WaveGen.wavegen_apply square_2k (WaveGen.boot sine_1k))
    as [s1|] eqn:E1; [|vm_compute in E1; discriminate].
  destruct (WaveGen.wavegen_apply sine_1k s1) as [s2|] eqn:E2.
  - exists s1, s2. vm_compute in E1. injection E1 as <-.
    vm_compute in E2. injection E2 as <-. repeat split; reflexivity.
  - vm_compute in E1. injection E1 as <-. vm_compute in E2. discriminate.
Qed.

(** *** The frequency reported for a square *)

Lemma wavegen_apply_square_actual (x : Settings) (s s' : WaveGen.state) :
  wave x = Square -> WaveGen.wavegen_apply x s = Some s' ->
  actualHz (WaveGen.g s') = targetHz x
  /\ F32.to_unsigned 32 (pwm_target (targetHz x)) = Some (WaveGen.pwm_hz s').
Proof.
  intros Hw H. destruct (wavegen_apply_square _ _ _ Hw H) as (hz & Hz & ->).
  split; [reflexivity | exact Hz].
Qed.

(** C3 (the code at the failing input): for a 20 MHz square request the PWM
    channel is set up at the clamped 10 MHz, and [actualHz] is the 20 MHz of
    the request. *)
Theorem C3_square_actual_is_request :
  exists s',
    WaveGen.wavegen_apply square_20M (WaveGen.boot sine_1k) = Some s'
    /\ pwm_target (targetHz square_20M) = F32.of_Z 10000000
    /\ WaveGen.pwm_hz s' = 10000000
    /\ actualHz (WaveGen.g s') = F32.of_Z 20000000
    /\ actualHz (WaveGen.g s') <> F32.of_Z 10000000.
Proof.
  destruct (WaveGen.wavegen_apply square_20M (WaveGen.boot sine_1k))
    as [s'|] eqn:E; [|vm_compute in E; discriminate].
  exists s'. vm_compute in E. injection E as <-.
  repeat split; try reflexivity. vm_compute. discriminate.
Qed.

(** *** The sample clock *)

Lemma on_timer_square (s : WaveGen.state) :
  WaveGen.wf s = Square -> WaveGen.on_timer s = s.
Proof. intros H. unfold WaveGen.on_timer. now rewrite H. Qed.

Lemma on_timer_phase (s : WaveGen.state) :
  WaveGen.wf s <> Square ->
  WaveGen.phase (WaveGen.on_timer s) =
    (WaveGen.phase s + WaveGen.phaseStep s) mod WaveGen.LUT_N.
Proof.
  intros Hw. unfold WaveGen.on_timer.
  destruct (Waveform_eqb (WaveGen.wf s) Square) eqn:E.
  - apply Waveform_eqb_eq in E. contradiction.
  - cbn. unfold WaveGen.LUT_N. change (256 - 1) with 255. apply land_255.
Qed.



(** The callback of the sketch has no such guard: called in square mode it
    writes the scaled mid-scale code and advances the phase index (there the
    timer is stopped by [applyMode] instead). *)
Lemma waveTimerCb_square (s : MainV1.state) :
  MainV1.mode s = MainV1.MODE_SQUARE ->
  MainV1.dac_out (MainV1.waveTimerCb s) =
    MainV1.applyAmplitude s 128 :: MainV1.dac_out s
  /\ MainV1.phaseIdx (MainV1.waveTimerCb s) = (MainV1.phaseIdx s + 1) mod 256.
Proof.
  intros H. unfold MainV1.waveTimerCb. rewrite H. cbn. split; [reflexivity|].
  apply land_255.
Qed.

Lemma wavegen_init_phase sinf (s s' : WaveGen.state) :
  WaveGen.wavegen_init sinf s = Some s' -> WaveGen.phase s' = WaveGen.phase s.
Proof.
  unfold WaveGen.wavegen_init, WaveGen.build_luts_once, bind. intros H.
  destruct (WaveGen.build_from sinf _ _) as [[[sn tr] sw]|]; [|discriminate].
  apply wavegen_apply_phase in H. exact H.
Qed.

Lemma on_timer_phase_range (s : WaveGen.state) :
  0 <= WaveGen.phase s < WaveGen.LUT_N ->
  0 <= WaveGen.phase (WaveGen.on_timer s) < WaveGen.LUT_N.
Proof.
  intros Hs. destruct (Waveform_eqb (WaveGen.wf s) Square) eqn:E.
  - apply Waveform_eqb_eq in E. now rewrite on_timer_square.
  - rewrite on_timer_phase.
    + apply Z.mod_pos_bound. reflexivity.
    + intros Hw. rewrite Hw in E. discriminate.
Qed.

(** C6: the phase accumulator is 0 at boot and stays in [[0, N)], N = 256,
    in every state the module can reach through [wavegen_init],
    [wavegen_apply] and [on_timer]; a tick outside square mode sets it to
    [(phase + phaseStep) mod N]. *)
Theorem C6_phase_in_range sinf (g0 : Settings) (s : WaveGen.state) :
  reachable sinf g0 s ->
  WaveGen.phase (WaveGen.boot g0) = 0
  /\ 0 <= WaveGen.phase s < WaveGen.LUT_N
  /\ (WaveGen.wf s <> Square ->
      WaveGen.phase (WaveGen.on_timer s) =
        (WaveGen.phase s + WaveGen.phaseStep s) mod WaveGen.LUT_N)
  /\ 0 <= WaveGen.phase (WaveGen.on_timer s) < WaveGen.LUT_N.
Proof.
  intros Hr. split; [reflexivity|].
  assert (Hs : 0 <= WaveGen.phase s < WaveGen.LUT_N).
  { induction Hr as [|s s' _ IH Hi|s x s' _ IH Ha|s _ IH].
    - cbn. unfold WaveGen.LUT_N. lia.
    - now rewrite (wavegen_init_phase _ _ _ Hi).
    - now rewrite (wavegen_apply_phase _ _ _ Ha).
    - now apply on_timer_phase_range. }
  split; [exact Hs|]. split; [apply on_timer_phase|].
  now apply on_timer_phase_range.
Qed.

Lemma C6_phase_in_range_witness :
  let s := WaveGen.on_timer (WaveGen.on_timer (WaveGen.boot sine_1k)) in
  0 <= WaveGen.phase s < WaveGen.LUT_N
  /\ WaveGen.phase (WaveGen.on_timer s) =
       (WaveGen.phase s + WaveGen.phaseStep s) mod WaveGen.LUT_N.
Proof.
  intros s.
  destruct (C6_phase_in_range (fun x => x) sine_1k s) as (_ & H1 & H2 & _).
  - unfold s. apply reach_tick, reach_tick, reach_boot.
  - split; [exact H1|]. apply H2. vm_compute. discriminate.
Defined.

(** The sketch keeps its phase index in range in the same way. *)
Lemma waveTimerCb_phase_range (s : MainV1.state) :
  0 <= MainV1.phaseIdx (MainV1.waveTimerCb s) < 256.
Proof.
  unfold MainV1.waveTimerCb. cbn. rewrite land_255.
  apply Z.mod_pos_bound. reflexivity.
Qed.

(** *** The tables *)

Lemma to_unsigned_range (w : Z) (x : F32.float) (z : Z) :
  F32.to_unsigned w x = Some z -> 0 <= z < 2 ^ w.
Proof.
  unfold F32.to_unsigned. destruct (F32.trunc x) as [t|]; [|discriminate].
  destruct (0 <=? t) eqn:E1; [|discriminate].
  destruct (t <? 2 ^ w) eqn:E2; [|discriminate].
  cbn. intros [= <-]. split; [now apply Z.leb_le | now apply Z.ltb_lt].
Qed.

Lemma lut_max_ge (l : list Z) (a : Z) : In a l -> a <= lut_max l.
Proof.
  induction l as [|b l IH]; [intros []|].
  change (lut_max (b :: l)) with (Z.max b (lut_max l)).
  intros [->|H]; [lia|]. specialize (IH H). lia.
Qed.

Lemma lut_max_le (l : list Z) (b : Z) :
  0 <= b -> (forall a, In a l -> a <= b) -> lut_max l <= b.
Proof.
  intros Hb. induction l as [|c l IH]; intros H; [exact Hb|].
  change (lut_max (c :: l)) with (Z.max c (lut_max l)).
  apply Z.max_lub; [apply H; now left | apply IH; intros a Ha; apply H; now right].
Qed.

Lemma build_from_tables sinf (n : nat) :
  forall i sn tr sw,
    WaveGen.build_from sinf n i = Some (sn, tr, sw) ->
    tr = map WaveGen.tri_entry (indices i n)
    /\ sw = map WaveGen.saw_entry (indices i n)
    /\ Forall2 (fun k a => WaveGen.sin_entry sinf k = Some a) (indices i n) sn.
Proof.
  induction n as [|n IH]; intros i sn tr sw H; cbn in H.
  - injection H as <- <- <-. repeat split. constructor.
  - unfold bind in H.
    destruct (WaveGen.sin_entry sinf i) as [a|] eqn:Ea; [|discriminate].
    destruct (WaveGen.build_from sinf n (i + 1)) as [[[sn' tr'] sw']|] eqn:Eb;
      [|discriminate].
    injection H as <- <- <-.
    destruct (IH _ _ _ _ Eb) as (-> & -> & Hs).
    repeat split. now constructor.
Qed.

Lemma Forall2_In_l {A B} (R : A -> B -> Prop) (l : list A) (l' : list B) a :
  Forall2 R l l' -> In a l -> exists b, In b l' /\ R a b.
Proof.
  induction 1 as [|x y l l' Hxy _ IH]; cbn; [tauto|].
  intros [->|Ha].
  - exists y. auto.
  - destruct (IH Ha) as (b & Hb & Hr). exists b. auto.
Qed.

Lemma Forall2_In_r {A B} (R : A -> B -> Prop) (l : list A) (l' : list B) b :
  Forall2 R l l' -> In b l' -> exists a, In a l /\ R a b.
Proof.
  induction 1 as [|x y l l' Hxy _ IH]; cbn; [tauto|].
  intros [->|Hb].
  - exists x. auto.
  - destruct (IH Hb) as (a & Ha & Hr). exists a. auto.
Qed.

Lemma build_luts_once_tables sinf (s s' : WaveGen.state) :
  WaveGen.build_luts_once sinf s = Some s' ->
  WaveGen.lut_tri s' = WaveGen.tri_table
  /\ Forall2 (fun k a => WaveGen.sin_entry sinf k = Some a)
       (indices 0 256) (WaveGen.lut_sin s').
Proof.
  unfold WaveGen.build_luts_once, bind. intros H.
  destruct (WaveGen.build_from sinf _ 0) as [[[sn tr] sw]|] eqn:E;
    [|discriminate].
  injection H as <-. change (Z.to_nat WaveGen.LUT_N) with 256%nat in E.
  destruct (build_from_tables _ _ _ _ _ _ E) as (-> & _ & Hs).
  split; [reflexivity | exact Hs].
Qed.

Lemma tri_table_nth (i : Z) :
  0 <= i < 256 ->
  nth (Z.to_nat i) WaveGen.tri_table 0 = WaveGen.tri_entry i.
Proof.
  intros Hi. unfold WaveGen.tri_table.
  rewrite (nth_indep _ 0 (WaveGen.tri_entry 0)) by (rewrite !length_map, length_seq; lia).
  rewrite map_nth.
  rewrite (nth_indep _ 0 (Z.of_nat 0)) by (rewrite length_map, length_seq; lia).
  rewrite map_nth, seq_nth by lia. f_equal. lia.
Qed.

Lemma tri_entry_ramp (i : Z) :
  0 <= i < 256 ->
  WaveGen.tri_entry i = if i <? 128 then 2 * i else 2 * (255 - i).
Proof.
  intros Hi. unfold WaveGen.tri_entry.
  destruct (i <? 128) eqn:E.
  - apply Z.ltb_lt in E. rewrite Z.mod_small; lia.
  - apply Z.ltb_ge in E. rewrite Z.mod_small; lia.
Qed.

Lemma sine_peak sinf (s s' : WaveGen.state) :
  WaveGen.build_luts_once sinf s = Some s' ->
  sinf (WaveGen.lut_angle 64) = F32.one ->
  lut_max (WaveGen.lut_sin s') = 255.
Proof.
  intros H H1. destruct (build_luts_once_tables _ _ _ H) as (_ & Hs).
  apply Z.le_antisymm.
  - apply lut_max_le; [lia|]. intros a Ha.
    destruct (Forall2_In_r _ _ _ _ Hs Ha) as (k & _ & Hk).
    unfold WaveGen.sin_entry, WaveGen.sine_code in Hk.
    apply to_unsigned_range in Hk. change (2 ^ 8) with 256 in Hk. lia.
  - apply lut_max_ge.
    assert (Hin : In 64 (indices 0 256)).
    { vm_compute. do 64 right. now left. }
    destruct (Forall2_In_l _ _ _ _ Hs Hin) as (b & Hb & Hk).
    unfold WaveGen.sin_entry in Hk. rewrite H1 in Hk.
    vm_compute in Hk. injection Hk as <-. exact Hb.
Qed.

(** C9 (as the code has it): the triangle table climbs 0, 2, ..., 254 over
    the indices 0..127 and falls 254, 252, ..., 0 over 128..255; its peak, at
    the two middle indices, is 254, one code below the peak 255 that the sine
    table has as soon as [sinf] returns 1 at the quarter-cycle argument. *)
Theorem C9_triangle_peak sinf (s s' : WaveGen.state) :
  WaveGen.build_luts_once sinf s = Some s' ->
  sinf (WaveGen.lut_angle 64) = F32.one ->
  (forall i, 0 <= i < 256 ->
     nth (Z.to_nat i) (WaveGen.lut_tri s') 0 =
       if i <? 128 then 2 * i else 2 * (255 - i))
  /\ nth 127 (WaveGen.lut_tri s') 0 = 254
  /\ nth 128 (WaveGen.lut_tri s') 0 = 254
  /\ lut_max (WaveGen.lut_tri s') = 254
  /\ lut_max (WaveGen.lut_sin s') = 255.
Proof.
  intros H H1. destruct (build_luts_once_tables _ _ _ H) as (Ht & _).
  rewrite Ht. repeat split; try reflexivity.
  - intros i Hi. now rewrite tri_table_nth, tri_entry_ramp.
  - now apply (sine_peak sinf s).
Qed.

Lemma C9_triangle_peak_witness :
  exists s',
    WaveGen.build_luts_once (fun _ => F32.one) (WaveGen.boot sine_1k) = Some s'
    /\ lut_max (WaveGen.lut_tri s') = 254
    /\ lut_max (WaveGen.lut_sin s') = 255.
Proof.
  destruct (WaveGen.build_luts_once (fun _ => F32.one) (WaveGen.boot sine_1k))
    as [s'|] eqn:E.
  - exists s'. split; [reflexivity|].
    destruct (C9_triangle_peak (fun _ => F32.one) _ _ E eq_refl)
      as (_ & _ & _ & H1 & H2).
    exact (conj H1 H2).
  - vm_compute in E. discriminate.
Defined.

(** C9, as stated, fails: with a sine that is 1 at the quarter cycle the
    two tables do not share their maximum. *)
Lemma C9_triangle_peak_counterexample :
  ~ (forall sinf s s',
       sinf (WaveGen.lut_angle 64) = F32.one ->
       WaveGen.build_luts_once sinf s = Some s' ->
       lut_max (WaveGen.lut_tri s') = lut_max (WaveGen.lut_sin s')).
Proof.
  intros H.
  destruct (WaveGen.build_luts_once (fun _ => F32.one) (WaveGen.boot sine_1k))
    as [s'|] eqn:E; [|vm_compute in E; discriminate].
  specialize (H (fun _ => F32.one) _ _ eq_refl E).
  vm_compute in E. injection E as <-. vm_compute in H. discriminate.
Qed.

(** The sketch's triangle table has the same shape and the same peak: its
    ramp is [lroundf (tri * 255)] with [p = i / 255], which never reaches
    [p = 0.5]. *)
Lemma v1_tri_table_peak :
  nth 0 v1_tri_table None = Some 0
  /\ nth 127 v1_tri_table None = Some 254
  /\ nth 128 v1_tri_table None = Some 254
  /\ nth 255 v1_tri_table None = Some 0
  /\ forallb (fun o => match o with Some v => v <=? 254 | None => false end)
       v1_tri_table = true.
Proof. vm_compute. repeat split. Qed.


(** *** The sine table, entry by entry *)


Lemma indices_len (n : nat) (i : Z) : List.length (indices i n) = n.
Proof.
  revert i. induction n as [|n IH]; intros i; cbn; [|rewrite IH]; reflexivity.
Qed.

Lemma indices_at (n : nat) (i : Z) (k : nat) :
  (k < n)%nat -> nth k (indices i n) 0 = i + Z.of_nat k.
Proof.
  revert i k. induction n as [|n IH]; intros i k Hk; [lia|].
  destruct k as [|k]; cbn [indices nth].
  - now rewrite Z.add_0_r.
  - rewrite IH by lia. lia.
Qed.




Module SpecFacts.
Import Reals Lra.
Local Open Scope R_scope.


End SpecFacts.


(** *** Binary32 rounding: digits and shifts *)

Lemma digits_bounds (p : positive) :
  2 ^ (Zpos (digits2_pos p) - 1) <= Zpos p < 2 ^ Zpos (digits2_pos p).
Proof.
  induction p as [p IH|p IH|]; cbn [digits2_pos].
  - rewrite Pos2Z.inj_succ. change (Zpos p~1) with (2 * Zpos p + 1).
    replace (Z.succ (Zpos (digits2_pos p)) - 1) with (Z.succ (Zpos (digits2_pos p) - 1)) by lia.
    rewrite !Z.pow_succ_r by lia. lia.
  - rewrite Pos2Z.inj_succ. change (Zpos p~0) with (2 * Zpos p).
    replace (Z.succ (Zpos (digits2_pos p)) - 1) with (Z.succ (Zpos (digits2_pos p) - 1)) by lia.
    rewrite !Z.pow_succ_r by lia. lia.
  - cbn. lia.
Qed.

Lemma digits_unique (p : positive) (d : Z) :
  2 ^ (d - 1) <= Zpos p < 2 ^ d -> Zpos (digits2_pos p) = d.
Proof.
  intros [H1 H2]. pose proof (digits_bounds p) as [H3 H4].
  set (d' := Zpos (digits2_pos p)) in *.
  assert (0 < d') by (unfold d'; lia).
  assert (0 < d).
  { destruct (Z.ltb_spec 0 d); [assumption|].
    assert (2 ^ d <= 2 ^ 0) by (apply Z.pow_le_mono_r; lia).
    change (2 ^ 0) with 1 in *. lia. }
  assert (d' - 1 < d).
  { apply (Z.pow_lt_mono_r_iff 2); lia. }
  assert (d - 1 < d').
  { apply (Z.pow_lt_mono_r_iff 2); lia. }
  lia.
Qed.

Lemma iter_pos_nat {A : Type} (f : A -> A) (p : positive) (x : A) :
  iter_pos f p x = Nat.iter (Pos.to_nat p) f x.
Proof.
  revert x. induction p as [p IH|p IH|]; intros x; cbn [iter_pos].
  - rewrite !IH, Pos2Nat.inj_xI.
    replace (S (2 * Pos.to_nat p)) with (Pos.to_nat p + Pos.to_nat p + 1)%nat by lia.
    rewrite !Nat.iter_add. reflexivity.
  - rewrite !IH, Pos2Nat.inj_xO.
    replace (2 * Pos.to_nat p)%nat with (Pos.to_nat p + Pos.to_nat p)%nat by lia.
    rewrite Nat.iter_add. reflexivity.
  - reflexivity.
Qed.

Lemma shr_1_spec (mrs : shr_record) :
  0 <= shr_m mrs ->
  shr_m (shr_1 mrs) = shr_m mrs / 2
  /\ inexact (shr_1 mrs) = inexact mrs || Z.odd (shr_m mrs).
Proof.
  destruct mrs as [m r s]. unfold inexact. cbn [shr_m shr_r shr_s].
  intros Hm. destruct m as [|p|p]; [| |lia].
  - cbn. rewrite orb_false_r. split; [reflexivity|]. now destruct r, s.
  - destruct p as [p|p|]; cbn [shr_1 shr_m shr_r shr_s].
    + split.
      * change (Zpos p~1) with (2 * Zpos p + 1). apply (Z.div_unique _ _ _ 1); lia.
      * cbn. now rewrite orb_true_r.
    + split.
      * change (Zpos p~0) with (2 * Zpos p). apply (Z.div_unique _ _ _ 0); lia.
      * cbn. rewrite orb_false_r. now destruct r, s.
    + split; [reflexivity|]. cbn. now rewrite orb_true_r.
Qed.

Lemma shr_iter_spec (n : nat) (mrs : shr_record) :
  0 <= shr_m mrs ->
  shr_m (Nat.iter n shr_1 mrs) = shr_m mrs / 2 ^ Z.of_nat n
  /\ (inexact (Nat.iter n shr_1 mrs) = false <->
      inexact mrs = false /\ shr_m mrs mod 2 ^ Z.of_nat n = 0).
Proof.
  intros Hm. induction n as [|n [IH1 IH2]].
  - cbn [Nat.iter]. change (2 ^ Z.of_nat 0) with 1.
    rewrite Z.div_1_r, Z.mod_1_r. tauto.
  - rewrite Nat.iter_succ.
    assert (Hp : 0 < 2 ^ Z.of_nat n) by (apply Z.pow_pos_nonneg; lia).
    assert (H0 : 0 <= shr_m (Nat.iter n shr_1 mrs)).
    { rewrite IH1. apply Z.div_pos; lia. }
    destruct (shr_1_spec _ H0) as [E1 E2].
    rewrite Nat2Z.inj_succ, Z.pow_succ_r by lia.
    rewrite (Z.mul_comm 2). split.
    + rewrite E1, IH1, Z.div_div by lia. reflexivity.
    + rewrite E2, orb_false_iff, IH2, IH1.
      rewrite Z.rem_mul_r by lia.
      pose proof (Z.mod_pos_bound (shr_m mrs) (2 ^ Z.of_nat n) Hp).
      pose proof (Zmod_odd (shr_m mrs / 2 ^ Z.of_nat n)) as Ho.
      destruct (Z.odd (shr_m mrs / 2 ^ Z.of_nat n)); rewrite Ho.
      * split; [intros [_ Hf]; discriminate | intros [_ Hf]; lia].
      * split; [intros [[Hi Hz] _]; split; [exact Hi | lia]
               | intros [Hi Hz]; repeat split; [exact Hi | lia]].
Qed.

Lemma loc_exact_iff (mrs : shr_record) :
  loc_of_shr_record mrs = loc_Exact <-> inexact mrs = false.
Proof. destruct mrs as [m [|] [|]]; cbn; split; congruence. Qed.

Lemma round_nearest_even_bounds (m : Z) (l : location) :
  m <= round_nearest_even m l <= m + 1
  /\ (l = loc_Exact -> round_nearest_even m l = m).
Proof.
  destruct l as [|[| |]]; cbn; try (split; [lia|congruence]).
  destruct (Z.even m); split; try lia; congruence.
Qed.

(** *** One rounding of a normal positive number *)

Lemma shr_record_of_loc_m (m : Z) (l : location) :
  shr_m (shr_record_of_loc m l) = m.
Proof. now destruct l as [|[| |]]. Qed.

Lemma shr_record_of_loc_exact (m : Z) (l : location) :
  inexact (shr_record_of_loc m l) = false <-> l = loc_Exact.
Proof. destruct l as [|[| |]]; cbn; split; congruence. Qed.

Lemma shr_fexp_normal (M : positive) (e : Z) (l : location) :
  24 <= Zpos (digits2_pos M) ->
  -149 <= e + Zpos (digits2_pos M) - 24 ->
  shr_fexp 24 128 (Zpos M) e l =
    (Nat.iter (Z.to_nat (Zpos (digits2_pos M) - 24)) shr_1
       (shr_record_of_loc (Zpos M) l),
     e + (Zpos (digits2_pos M) - 24)).
Proof.
  intros Hd He. unfold shr_fexp, fexp, emin. cbn [Zdigits2].
  set (d := Zpos (digits2_pos M)) in *.
  replace (Z.max (d + e - 24) (3 - 128 - 24) - e) with (d - 24) by lia.
  unfold shr. destruct (d - 24) as [|p|p] eqn:E; [| |lia].
  - cbn [Z.to_nat Nat.iter]. now rewrite Z.add_0_r.
  - now rewrite iter_pos_nat.
Qed.

Lemma div_pow2_bounds (M d : Z) :
  24 <= d -> 2 ^ (d - 1) <= M < 2 ^ d ->
  2 ^ 23 <= M / 2 ^ (d - 24) < 2 ^ 24.
Proof.
  intros Hd [H1 H2].
  assert (Hp : 0 < 2 ^ (d - 24)) by (apply Z.pow_pos_nonneg; lia).
  assert (E1 : 2 ^ (d - 1) = 2 ^ 23 * 2 ^ (d - 24)).
  { rewrite <- Z.pow_add_r by lia. f_equal. lia. }
  assert (E2 : 2 ^ d = 2 ^ 24 * 2 ^ (d - 24)).
  { rewrite <- Z.pow_add_r by lia. f_equal. lia. }
  split.
  - apply Z.div_le_lower_bound; lia.
  - apply Z.div_lt_upper_bound; lia.
Qed.

Lemma shr_1_r (mrs : shr_record) :
  0 <= shr_m mrs -> shr_r (shr_1 mrs) = Z.odd (shr_m mrs).
Proof.
  destruct mrs as [m r s]. cbn [shr_m]. intros Hm.
  destruct m as [|[p|p|]|p]; try reflexivity. lia.
Qed.

(** A round bit set by a shift puts the value at or above the midpoint. *)
Lemma shr_iter_r (n : nat) (mrs : shr_record) :
  0 <= shr_m mrs ->
  shr_r (Nat.iter (S n) shr_1 mrs) = true ->
  (2 * (shr_m mrs / 2 ^ Z.of_nat (S n)) + 1) * 2 ^ Z.of_nat (S n)
  <= 2 * shr_m mrs.
Proof.
  intros Hm. rewrite Nat.iter_succ.
  destruct (shr_iter_spec n mrs Hm) as [Em _].
  assert (Hp : 0 < 2 ^ Z.of_nat n) by (apply Z.pow_pos_nonneg; lia).
  rewrite shr_1_r by (rewrite Em; apply Z.div_pos; lia).
  rewrite Em. intros Ho.
  rewrite Nat2Z.inj_succ, Z.pow_succ_r by lia.
  rewrite (Z.mul_comm 2 (2 ^ Z.of_nat n)), <- Z.div_div by lia.
  pose proof (Zmod_odd (shr_m mrs / 2 ^ Z.of_nat n)) as Hmod.
  rewrite Ho in Hmod.
  pose proof (Z.div_mod (shr_m mrs / 2 ^ Z.of_nat n) 2 ltac:(lia)) as Hdm.
  rewrite Hmod in Hdm.
  pose proof (Z.mul_div_le (shr_m mrs) (2 ^ Z.of_nat n) Hp) as Hle.
  rewrite <- Hdm. lia.
Qed.

Lemma round_up_r (mrs : shr_record) :
  round_nearest_even (shr_m mrs) (loc_of_shr_record mrs) <> shr_m mrs ->
  shr_r mrs = true.
Proof. destruct mrs as [m [|] [|]]; cbn; congruence. Qed.

Lemma shr_record_of_loc_r (m : Z) (l : location) :
  shr_r (shr_record_of_loc m l) = true ->
  l = loc_Inexact Eq \/ l = loc_Inexact Gt.
Proof. destruct l as [|[| |]]; cbn; intros H; auto; discriminate. Qed.

Lemma round_aux_normal (M : positive) (e : Z) (l : location) :
  24 <= Zpos (digits2_pos M) ->
  -149 <= e + Zpos (digits2_pos M) - 24 < 104 ->
  exists m' e' m2,
    binary_round_aux 24 128 false (Zpos M) e l = S754_finite false m' e'
    /\ Zpos (digits2_pos m') = 24
    /\ e + Zpos (digits2_pos M) - 24 <= e'
    /\ Zpos m' * 2 ^ (e' - (e + Zpos (digits2_pos M) - 24)) = m2
    /\ Zpos M / 2 ^ (Zpos (digits2_pos M) - 24) <= m2
       <= Zpos M / 2 ^ (Zpos (digits2_pos M) - 24) + 1
    /\ (l = loc_Exact -> Zpos M mod 2 ^ (Zpos (digits2_pos M) - 24) = 0 ->
        m2 = Zpos M / 2 ^ (Zpos (digits2_pos M) - 24))
    /\ (m2 <> Zpos M / 2 ^ (Zpos (digits2_pos M) - 24) ->
        (24 < Zpos (digits2_pos M)
         /\ (2 * (Zpos M / 2 ^ (Zpos (digits2_pos M) - 24)) + 1)
            * 2 ^ (Zpos (digits2_pos M) - 24) <= 2 * Zpos M)
        \/ (Zpos (digits2_pos M) = 24
            /\ (l = loc_Inexact Eq \/ l = loc_Inexact Gt))).
Proof.
  intros Hd He. unfold binary_round_aux.
  rewrite shr_fexp_normal by lia.
  pose proof (digits_bounds M) as HM.
  set (d := Zpos (digits2_pos M)) in *.
  set (r1 := Nat.iter (Z.to_nat (d - 24)) shr_1 (shr_record_of_loc (Zpos M) l)).
  destruct (shr_iter_spec (Z.to_nat (d - 24)) (shr_record_of_loc (Zpos M) l))
    as [Em Ei].
  { rewrite shr_record_of_loc_m. lia. }
  fold r1 in Em, Ei.
  rewrite shr_record_of_loc_m, Z2Nat.id in Em by lia.
  rewrite shr_record_of_loc_m, shr_record_of_loc_exact, Z2Nat.id in Ei by lia.
  pose proof (div_pow2_bounds (Zpos M) d Hd HM) as Hm1.
  rewrite <- Em in Hm1.
  destruct (round_nearest_even_bounds (shr_m r1) (loc_of_shr_record r1))
    as [Hr He'].
  set (m2 := round_nearest_even (shr_m r1) (loc_of_shr_record r1)) in *.
  change (2 ^ 23) with 8388608 in Hm1. change (2 ^ 24) with 16777216 in Hm1.
  assert (Hex : l = loc_Exact -> Zpos M mod 2 ^ (d - 24) = 0 ->
                m2 = Zpos M / 2 ^ (d - 24)).
  { intros Hl Hz. rewrite <- Em. apply He', loc_exact_iff, Ei.
    split; assumption. }
  assert (Hup : m2 <> Zpos M / 2 ^ (d - 24) ->
                (24 < d /\ (2 * (Zpos M / 2 ^ (d - 24)) + 1) * 2 ^ (d - 24)
                           <= 2 * Zpos M)
                \/ (d = 24 /\ (l = loc_Inexact Eq \/ l = loc_Inexact Gt))).
  { rewrite <- Em. intros Hne. apply round_up_r in Hne. unfold r1 in Hne.
    destruct (Z.to_nat (d - 24)) as [|k] eqn:Ek.
    - right. split; [lia|]. now apply shr_record_of_loc_r in Hne.
    - left. split; [lia|].
      apply shr_iter_r in Hne; [|rewrite shr_record_of_loc_m; lia].
      rewrite shr_record_of_loc_m, <- Ek, Z2Nat.id in Hne by lia.
      rewrite Em. exact Hne. }
  pose proof (conj Hex Hup) as Hboth. clear Hex Hup.
  destruct m2 as [|m2p|m2p] eqn:E2; [lia| |lia].
  destruct (Z.eq_dec (Zpos m2p) 16777216) as [Hc|Hc].
  - (* the rounding carried into the next binade *)
    injection Hc as ->.
    exists 8388608%positive, (e + (d - 24) + 1), 16777216.
    split; [|split; [reflexivity|split; [lia|split; [|split; [|exact Hboth]]]]].
    + rewrite shr_fexp_normal
        by (change (Zpos (digits2_pos 16777216)) with 25; lia).
      change (Zpos (digits2_pos 16777216) - 24) with 1.
      cbn -[Z.add Z.sub Z.leb].
      destruct (Z.leb_spec (e + (d - 24) + 1) (128 - 24)); [reflexivity|lia].
    + replace (e + (d - 24) + 1 - (e + d - 24)) with 1 by lia. reflexivity.
    + rewrite <- Em. lia.
  - assert (Hd2 : Zpos (digits2_pos m2p) = 24).
    { apply digits_unique. change (2 ^ (24 - 1)) with 8388608.
      change (2 ^ 24) with 16777216. lia. }
    exists m2p, (e + (d - 24)), (Zpos m2p).
    split; [|split; [exact Hd2|split; [lia|split; [|split; [|exact Hboth]]]]].
    + rewrite shr_fexp_normal by lia. rewrite Hd2.
      cbn -[Z.add Z.sub Z.leb].
      replace (e + (d - 24) + (24 - 24)) with (e + (d - 24)) by lia.
      change (Z.to_nat (24 - 24)) with 0%nat. cbn [Nat.iter shr_record_of_loc shr_m].
      destruct (Z.leb_spec (e + (d - 24)) (128 - 24)); [reflexivity|lia].
    + replace (e + (d - 24) - (e + d - 24)) with 0 by lia.
      now rewrite Z.mul_1_r.
    + rewrite <- Em. lia.
Qed.

(** *** A rounding stays between the machine numbers around it *)

Lemma pow2_split (a b : Z) :
  0 <= b -> b <= a -> 2 ^ a = 2 ^ (a - b) * 2 ^ b.
Proof. intros. rewrite <- Z.pow_add_r by lia. f_equal. lia. Qed.

Lemma pow2_pos (a : Z) : 0 <= a -> 0 < 2 ^ a.
Proof. intros. apply Z.pow_pos_nonneg; lia. Qed.

Lemma pow2_ge_2 (a : Z) : 1 <= a -> 2 <= 2 ^ a.
Proof.
  intros. change 2 with (2 ^ 1) at 1. apply Z.pow_le_mono_r; lia.
Qed.

(** Arithmetic core of the two bounds: [m1] is the truncated mantissa on the
    grid [G], [v] the value being rounded, [B = b * X] a machine number. *)
Lemma grid_upper (m1 m2 v G b X Q : Z) :
  0 < G -> 0 < X -> 8388608 <= m1 -> 0 < b <= 16777216 ->
  m1 * G <= v -> m1 <= m2 <= m1 + 1 ->
  (m2 <> m1 -> m1 * G < b * X) ->
  v <= b * X ->
  (X = Q * G /\ 1 <= Q) \/ (G = Q * X /\ 2 <= Q) ->
  m2 * G <= b * X.
Proof.
  intros HG HX Hm1 Hb Hv Hm2 Hs HB Hc.
  destruct (Z.eq_dec m2 m1) as [->|Hn]; [lia|].
  specialize (Hs Hn). assert (m2 = m1 + 1) as -> by lia.
  destruct Hc as [[-> HQ]|[-> HQ]].
  - assert (m1 < b * Q) by nia. nia.
  - exfalso. nia.
Qed.

Lemma grid_lower (m1 m2 v G b X Q : Z) :
  0 < G -> 0 < X -> 8388608 <= m1 -> 0 < b <= 16777216 ->
  v < (m1 + 1) * G -> m1 <= m2 ->
  b * X <= v ->
  (X = Q * G /\ 1 <= Q) \/ (G = Q * X /\ 2 <= Q) ->
  b * X <= m2 * G.
Proof.
  intros HG HX Hm1 Hb Hv Hm2 HB Hc.
  destruct Hc as [[-> HQ]|[-> HQ]].
  - assert (b * Q < m1 + 1) by nia. nia.
  - nia.
Qed.

Lemma round_aux_bounds (M : positive) (e : Z) (l : location) :
  24 <= Zpos (digits2_pos M) ->
  -149 <= e + Zpos (digits2_pos M) - 24 < 104 ->
  -200 <= e ->
  exists m' e',
    binary_round_aux 24 128 false (Zpos M) e l = S754_finite false m' e'
    /\ Zpos (digits2_pos m') = 24
    /\ -149 <= e' <= 104
    /\ (forall b eb, 0 < b <= 16777216 -> -200 <= eb ->
          Zpos M * 2 ^ (e + 200) <= b * 2 ^ (eb + 200) ->
          (l <> loc_Exact -> Zpos M * 2 ^ (e + 200) < b * 2 ^ (eb + 200)) ->
          Zpos m' * 2 ^ (e' + 200) <= b * 2 ^ (eb + 200))
    /\ (forall b eb, 0 < b <= 16777216 -> -200 <= eb ->
          b * 2 ^ (eb + 200) <= Zpos M * 2 ^ (e + 200) ->
          b * 2 ^ (eb + 200) <= Zpos m' * 2 ^ (e' + 200)).
Proof.
  intros Hd He Hlo.
  destruct (round_aux_normal M e l Hd He)
    as (m' & e' & m2 & Hr & Hd' & He1 & Hm' & Hm2 & Hex & _).
  pose proof (digits_bounds M) as HM.
  pose proof (digits_bounds m') as HM'. rewrite Hd' in HM'.
  change (2 ^ (24 - 1)) with 8388608 in HM'.
  change (2 ^ 24) with 16777216 in HM'.
  set (d := Zpos (digits2_pos M)) in *.
  pose proof (div_pow2_bounds (Zpos M) d Hd HM) as Hm1.
  change (2 ^ 23) with 8388608 in Hm1. change (2 ^ 24) with 16777216 in Hm1.
  set (n1 := d - 24) in *. set (m1 := Zpos M / 2 ^ n1) in *.
  assert (HP : 0 < 2 ^ n1) by (apply pow2_pos; lia).
  pose proof (Z.div_mod (Zpos M) (2 ^ n1) ltac:(lia)) as Hdm.
  pose proof (Z.mod_pos_bound (Zpos M) (2 ^ n1) HP) as Hmod.
  fold m1 in Hdm.
  set (G := 2 ^ (e + n1 + 200)).
  assert (HG : 0 < G) by (apply pow2_pos; lia).
  assert (EG : G = 2 ^ n1 * 2 ^ (e + 200)).
  { unfold G. rewrite <- Z.pow_add_r by lia. f_equal. lia. }
  assert (Hg0 : 0 < 2 ^ (e + 200)) by (apply pow2_pos; lia).
  (* the exponent of the result: on the grid, or one above after a carry *)
  assert (He' : e' = e + n1 \/ e' = e + n1 + 1).
  { destruct (Z.eq_dec e' (e + n1)); [now left|right].
    assert (2 <= 2 ^ (e' - (e + d - 24))) by (apply pow2_ge_2; lia).
    assert (Hq : 2 ^ (e' - (e + d - 24)) = 2 * 2 ^ (e' - (e + d - 24) - 1)).
    { rewrite <- Z.pow_succ_r by lia. f_equal. lia. }
    destruct (Z.eq_dec (e' - (e + d - 24)) 1); [lia|].
    assert (2 <= 2 ^ (e' - (e + d - 24) - 1)) by (apply pow2_ge_2; lia).
    nia. }
  assert (EV : Zpos m' * 2 ^ (e' + 200) = m2 * G).
  { rewrite <- Hm'. unfold G.
    rewrite (pow2_split (e' + 200) (e + n1 + 200)) by lia.
    replace (e' + 200 - (e + n1 + 200)) with (e' - (e + d - 24)) by lia.
    ring. }
  exists m', e'. split; [exact Hr|]. split; [exact Hd'|]. split; [lia|].
  assert (Hcase : forall eb, -200 <= eb ->
            (2 ^ (eb + 200) = 2 ^ (eb - (e + n1)) * G /\ 1 <= 2 ^ (eb - (e + n1)))
            \/ (G = 2 ^ (e + n1 - eb) * 2 ^ (eb + 200) /\ 2 <= 2 ^ (e + n1 - eb))).
  { intros eb Heb. destruct (Z.le_gt_cases (e + n1) eb).
    - left. split.
      + unfold G. rewrite <- Z.pow_add_r by lia. f_equal. lia.
      + assert (0 < 2 ^ (eb - (e + n1))) by (apply pow2_pos; lia). lia.
    - right. split.
      + unfold G. rewrite <- Z.pow_add_r by lia. f_equal. lia.
      + apply pow2_ge_2. lia. }
  assert (A2 : m1 * G <= Zpos M * 2 ^ (e + 200)) by (rewrite EG; nia).
  assert (A2' : Zpos M * 2 ^ (e + 200) < (m1 + 1) * G) by (rewrite EG; nia).
  split.
  - intros b eb Hb Heb HB Hstrict. rewrite EV.
    assert (A1 : 0 < 2 ^ (eb + 200)) by (apply pow2_pos; lia).
    assert (A3 : m2 <> m1 -> m1 * G < b * 2 ^ (eb + 200)).
    { intros Hn.
      destruct (Z.eq_dec (Zpos M mod 2 ^ n1) 0) as [Hz|Hz].
      - assert (Hl : l <> loc_Exact).
        { intros Hl. apply Hn. now apply Hex. }
        specialize (Hstrict Hl). lia.
      - assert (m1 * G < Zpos M * 2 ^ (e + 200)) by (rewrite EG; nia). lia. }
    destruct (Hcase eb Heb) as [H|H].
    + exact (grid_upper m1 m2 _ G b _ _ HG A1 (proj1 Hm1) Hb A2 Hm2 A3 HB
               (or_introl H)).
    + exact (grid_upper m1 m2 _ G b _ _ HG A1 (proj1 Hm1) Hb A2 Hm2 A3 HB
               (or_intror H)).
  - intros b eb Hb Heb HB. rewrite EV.
    assert (A1 : 0 < 2 ^ (eb + 200)) by (apply pow2_pos; lia).
    destruct (Hcase eb Heb) as [H|H].
    + exact (grid_lower m1 m2 _ G b _ _ HG A1 (proj1 Hm1) Hb A2' (proj1 Hm2) HB
               (or_introl H)).
    + exact (grid_lower m1 m2 _ G b _ _ HG A1 (proj1 Hm1) Hb A2' (proj1 Hm2) HB
               (or_intror H)).
Qed.

(** *** The operations as roundings *)

Lemma nat_iter_xO (n : nat) (m : positive) :
  Zpos (Nat.iter n xO m) = Zpos m * 2 ^ Z.of_nat n.
Proof.
  induction n as [|n IH].
  - cbn. lia.
  - rewrite Nat.iter_succ, Nat2Z.inj_succ, Z.pow_succ_r by lia.
    rewrite Pos2Z.inj_xO, IH. ring.
Qed.

Lemma pos_iter_xO (d m : positive) :
  Zpos (Pos.iter xO m d) = Zpos m * 2 ^ Zpos d.
Proof.
  rewrite Pos2Nat.inj_iter, <- (positive_nat_Z d). apply nat_iter_xO.
Qed.

Lemma shl_align_fst (m : positive) (e e' : Z) :
  e' <= e -> Zpos (fst (shl_align m e e')) = Zpos m * 2 ^ (e - e').
Proof.
  intros H. unfold shl_align. destruct (e' - e) as [|p|p] eqn:E; [|lia|].
  - replace (e - e') with 0 by lia. cbn [fst]. lia.
  - cbn [fst]. rewrite pos_iter_xO. f_equal. f_equal. lia.
Qed.

Lemma shl_align_id (m : positive) (e e' : Z) :
  e <= e' -> shl_align m e e' = (m, e).
Proof.
  intros H. unfold shl_align. destruct (e' - e) as [|p|p] eqn:E; try reflexivity.
  lia.
Qed.

Lemma digits_ge_24 (m : positive) :
  8388608 <= Zpos m -> 24 <= Zpos (digits2_pos m).
Proof.
  intros H. pose proof (digits_bounds m) as [_ H2].
  destruct (Z.le_gt_cases 24 (Zpos (digits2_pos m))); [assumption|].
  assert (2 ^ Zpos (digits2_pos m) <= 2 ^ 23) by (apply Z.pow_le_mono_r; lia).
  change (2 ^ 23) with 8388608 in *. lia.
Qed.

Lemma digits_24 (m : positive) :
  Zpos (digits2_pos m) = 24 <-> 8388608 <= Zpos m < 16777216.
Proof.
  split.
  - intros H. pose proof (digits_bounds m) as HM. rewrite H in HM. exact HM.
  - intros H. now apply digits_unique.
Qed.

(** Every positive integer carried by a normal rounding keeps its exponent
    range: the exponent of a 24-digit mantissa is pinned by its value. *)
Lemma exp_lower (m e lo : Z) :
  0 <= lo -> -200 <= e -> m < 16777216 -> 2 ^ lo <= m * 2 ^ (e + 200) ->
  lo - 223 <= e.
Proof.
  intros Hlo He Hm H.
  assert (0 < 2 ^ (e + 200)) by (apply pow2_pos; lia).
  assert (2 ^ lo < 2 ^ (e + 224)).
  { replace (e + 224) with (24 + (e + 200)) by lia.
    rewrite Z.pow_add_r by lia. change (2 ^ 24) with 16777216. nia. }
  assert (lo < e + 224) by (apply (Z.pow_lt_mono_r_iff 2); lia).
  lia.
Qed.

Lemma exp_upper (m e hi : Z) :
  0 <= hi -> -200 <= e -> 8388608 <= m -> m * 2 ^ (e + 200) < 2 ^ hi ->
  e < hi - 223.
Proof.
  intros Hhi He Hm H.
  assert (0 < 2 ^ (e + 200)) by (apply pow2_pos; lia).
  assert (2 ^ (e + 223) < 2 ^ hi).
  { replace (e + 223) with (23 + (e + 200)) by lia.
    rewrite Z.pow_add_r by lia. change (2 ^ 23) with 8388608. nia. }
  assert (e + 223 < hi) by (apply (Z.pow_lt_mono_r_iff 2); lia).
  lia.
Qed.

(** Multiplication and division of positive normal numbers, and the addition
    of one half, each as one rounding. *)
Lemma mul_is_round (mx my : positive) (ex ey : Z) :
  F32.mul (S754_finite false mx ex) (S754_finite false my ey) =
    binary_round_aux 24 128 false (Zpos (mx * my)) (ex + ey) loc_Exact.
Proof. reflexivity. Qed.

Lemma div_eucl_eq (a b : Z) : Z.div_eucl a b = (a / b, a mod b).
Proof. unfold Z.div, Z.modulo. now destruct (Z.div_eucl a b). Qed.

Lemma div_fs_is_round (mp : positive) (ep : Z) :
  Zpos (digits2_pos mp) = 24 -> -100 <= ep ->
  F32.div (S754_finite false mp ep) fs50 =
    binary_round_aux 24 128 false (Zpos mp * 2 ^ 24 / 10240000) (ep - 15)
      (new_location 10240000 (Zpos mp * 2 ^ 24 mod 10240000)).
Proof.
  intros Hd He.
  change fs50 with (S754_finite false 10240000 (-9)).
  unfold F32.div, SFdiv, SFdiv_core_binary. cbv zeta.
  cbn [Zdigits2]. rewrite Hd.
  change (Zpos (digits2_pos 10240000)) with 24.
  unfold fexp, emin.
  replace (Z.min (Z.max (24 + ep - (24 + -9) - F32.prec) (3 - F32.emax - F32.prec))
             (ep - -9)) with (ep - 15) by (unfold F32.prec, F32.emax; lia).
  replace (ep - -9 - (ep - 15)) with 24 by lia.
  rewrite Z.shiftl_mul_pow2 by lia. rewrite div_eucl_eq. reflexivity.
Qed.

Lemma new_location_exact (r : Z) :
  new_location 10240000 r <> loc_Exact -> r <> 0.
Proof. intros H ->. apply H. reflexivity. Qed.

Lemma add_half_is_round (mi : positive) (ei : Z) :
  8388608 <= Zpos mi -> -100 <= ei ->
  exists Mp,
    F32.add (S754_finite false mi ei) F32.half =
      binary_round_aux 24 128 false (Zpos Mp) (Z.min ei (-24)) loc_Exact
    /\ Zpos Mp = Zpos mi * 2 ^ (ei - Z.min ei (-24))
                 + 8388608 * 2 ^ (-24 - Z.min ei (-24))
    /\ 24 <= Zpos (digits2_pos Mp).
Proof.
  intros Hm He.
  change F32.half with (S754_finite false 8388608 (-24)).
  unfold F32.add, SFadd. cbv zeta. set (ez := Z.min ei (-24)).
  pose proof (shl_align_fst mi ei ez ltac:(lia)) as E1.
  pose proof (shl_align_fst 8388608 (-24) ez ltac:(lia)) as E2.
  unfold cond_Zopp. cbn [Z.add].
  set (Mp := (fst (shl_align mi ei ez) + fst (shl_align 8388608 (-24) ez))%positive).
  assert (EM : Zpos Mp = Zpos mi * 2 ^ (ei - ez) + 8388608 * 2 ^ (-24 - ez)).
  { unfold Mp. rewrite Pos2Z.inj_add, E1, E2. reflexivity. }
  assert (HM : 8388608 <= Zpos Mp).
  { rewrite EM.
    assert (0 < 2 ^ (ei - ez)) by (apply pow2_pos; lia).
    assert (0 < 2 ^ (-24 - ez)) by (apply pow2_pos; lia). nia. }
  pose proof (digits_ge_24 Mp HM) as Hd.
  exists Mp. split; [|split; [exact EM|exact Hd]].
  unfold binary_normalize, binary_round.
  rewrite shl_align_id; [reflexivity|].
  unfold fexp, emin, F32.prec, F32.emax. lia.
Qed.

(** *** The stages of the frequency mapping *)

Lemma digits_le (m : positive) (k : Z) :
  0 <= k -> Zpos m < 2 ^ k -> Zpos (digits2_pos m) <= k.
Proof.
  intros Hk H. pose proof (digits_bounds m) as [H1 _].
  assert (Zpos (digits2_pos m) - 1 < k); [|lia].
  apply (Z.pow_lt_mono_r_iff 2); lia.
Qed.

Ltac pow_const :=
  repeat match goal with
    | |- context [2 ^ Zpos ?p] =>
        let v := eval vm_compute in (2 ^ Zpos p) in
        change (2 ^ Zpos p) with v
    | H : context [2 ^ Zpos ?p] |- _ =>
        let v := eval vm_compute in (2 ^ Zpos p) in
        change (2 ^ Zpos p) with v in H
    end.

Lemma mul_256_normal (x : F32.float) :
  pos_normal x (2 ^ 200) (20000 * 2 ^ 200) ->
  pos_normal (F32.mul x (F32.of_Z WaveGen.LUT_N)) (2 ^ 208) (5120000 * 2 ^ 200).
Proof.
  intros (m & e & -> & Hd & He & Hlo & Hhi).
  pose proof (proj1 (digits_24 m) Hd) as Hm.
  assert (He1 : -23 <= e).
  { apply (exp_lower (Zpos m) e 200); lia. }
  assert (He2 : e < -8).
  { apply (exp_upper (Zpos m) e 215); lia. }
  change (F32.of_Z WaveGen.LUT_N) with (S754_finite false 8388608 (-15)).
  rewrite mul_is_round.
  assert (Hd2 : Zpos (digits2_pos (m * 8388608)) = 47).
  { apply digits_unique. rewrite Pos2Z.inj_mul. pow_const. lia. }
  destruct (round_aux_bounds (m * 8388608) (e + -15) loc_Exact)
    as (m' & e' & Hr & Hd' & He' & Hup & Hdn); rewrite ?Hd2; try lia.
  exists m', e'. split; [exact Hr|]. split; [exact Hd'|]. split; [lia|].
  assert (EX : 2 ^ (e + 200) = 32768 * 2 ^ (e + -15 + 200)).
  { rewrite (pow2_split (e + 200) (e + -15 + 200)) by lia.
    replace (e + 200 - (e + -15 + 200)) with 15 by lia. reflexivity. }
  rewrite EX in Hlo, Hhi. rewrite Pos2Z.inj_mul in Hup, Hdn.
  set (X := 2 ^ (e + -15 + 200)) in *.
  split.
  - specialize (Hdn 256 0 ltac:(lia) ltac:(lia)).
    change (256 * 2 ^ (0 + 200)) with (2 ^ 208) in Hdn.
    apply Hdn. pow_const. lia.
  - specialize (Hup 5120000 0 ltac:(lia) ltac:(lia)).
    change (2 ^ (0 + 200)) with (2 ^ 200) in Hup.
    apply Hup; [|congruence]. pow_const. lia.
Qed.

(** Multiplying by [LUT_N = 2^8] only moves the exponent. *)
Lemma mul_256_exact (mx : positive) (ex : Z) :
  Zpos (digits2_pos mx) = 24 -> -100 <= ex <= 50 ->
  F32.mul (S754_finite false mx ex) (F32.of_Z WaveGen.LUT_N) =
    S754_finite false mx (ex + 8).
Proof.
  intros Hd He.
  pose proof (proj1 (digits_24 mx) Hd) as Hm.
  change (F32.of_Z WaveGen.LUT_N) with (S754_finite false 8388608 (-15)).
  rewrite mul_is_round.
  assert (Hd2 : Zpos (digits2_pos (mx * 8388608)) = 47).
  { apply digits_unique. rewrite Pos2Z.inj_mul. pow_const. lia. }
  destruct (round_aux_normal (mx * 8388608) (ex + -15) loc_Exact)
    as (m' & e' & m2 & Hr & Hd' & He' & Hm' & _ & Hex & _);
    rewrite ?Hd2; try lia.
  rewrite Hd2 in He', Hm', Hex. rewrite Hr.
  pose proof (proj1 (digits_24 m') Hd') as Hm2.
  assert (E2 : m2 = Zpos mx).
  { rewrite Hex; [| reflexivity |].
    - rewrite Pos2Z.inj_mul. change (2 ^ (47 - 24)) with 8388608.
      now rewrite Z.div_mul by lia.
    - rewrite Pos2Z.inj_mul. change (2 ^ (47 - 24)) with 8388608.
      now rewrite Z.mod_mul by lia. }
  rewrite E2 in Hm'.
  destruct (Z.eq_dec e' (ex + -15 + 47 - 24)) as [->|Hne].
  - replace (ex + -15 + 47 - 24 - (ex + -15 + 47 - 24)) with 0 in Hm' by lia.
    rewrite Z.mul_1_r in Hm'. injection Hm' as ->. f_equal. lia.
  - exfalso.
    assert (2 <= 2 ^ (e' - (ex + -15 + 47 - 24))) by (apply pow2_ge_2; lia).
    nia.
Qed.

Lemma div_fs_normal (p : F32.float) :
  pos_normal p (2 ^ 208) (5120000 * 2 ^ 200) ->
  pos_normal (F32.div p fs50) (2 ^ 193) (2 ^ 208).
Proof.
  intros (m & e & -> & Hd & He & Hlo & Hhi).
  pose proof (proj1 (digits_24 m) Hd) as Hm.
  assert (He1 : -15 <= e).
  { apply (exp_lower (Zpos m) e 208); lia. }
  assert (He2 : e < 0).
  { apply (exp_upper (Zpos m) e 223); lia. }
  rewrite div_fs_is_round by lia.
  change (2 ^ 24) with 16777216.
  pose proof (Z.div_mod (Zpos m * 16777216) 10240000 ltac:(lia)) as Hdm.
  pose proof (Z.mod_pos_bound (Zpos m * 16777216) 10240000 ltac:(lia)) as Hr.
  set (q := Zpos m * 16777216 / 10240000) in *.
  set (r := Zpos m * 16777216 mod 10240000) in *.
  assert (Hq : 8388608 <= q < 33554432) by lia.
  destruct q as [|qp|qp] eqn:Eq; [lia| |lia].
  pose proof (digits_ge_24 qp ltac:(lia)) as Hd1.
  pose proof (digits_le qp 25 ltac:(lia) ltac:(change (2 ^ 25) with 33554432; lia))
    as Hd2.
  destruct (round_aux_bounds qp (e - 15) (new_location 10240000 r))
    as (m' & e' & Hrd & Hd' & He' & Hup & Hdn); try lia.
  exists m', e'. split; [exact Hrd|]. split; [exact Hd'|]. split; [lia|].
  assert (EX : 2 ^ (e + 200) = 32768 * 2 ^ (e - 15 + 200)).
  { rewrite (pow2_split (e + 200) (e - 15 + 200)) by lia.
    replace (e + 200 - (e - 15 + 200)) with 15 by lia. reflexivity. }
  rewrite EX in Hlo, Hhi.
  assert (HX : 2 ^ 170 <= 2 ^ (e - 15 + 200)) by (apply Z.pow_le_mono_r; lia).
  set (X := 2 ^ (e - 15 + 200)) in *.
  assert (HqX : (Zpos qp * 10240000 + r) * X = Zpos m * 16777216 * X).
  { f_equal. lia. }
  assert (HrX : 0 <= r * X) by nia.
  split.
  - specialize (Hdn 1 (-7) ltac:(lia) ltac:(lia)).
    change (1 * 2 ^ (-7 + 200)) with (2 ^ 193) in Hdn.
    apply Hdn. pow_const. nia.
  - specialize (Hup 256 0 ltac:(lia) ltac:(lia)).
    change (256 * 2 ^ (0 + 200)) with (2 ^ 208) in Hup.
    apply Hup.
    + pow_const. lia.
    + intros Hl. apply new_location_exact in Hl.
      assert (0 < r * X) by nia. pow_const. lia.
Qed.

Lemma new_location_up (r : Z) :
  new_location 10240000 r = loc_Inexact Eq
  \/ new_location 10240000 r = loc_Inexact Gt ->
  10240000 <= 2 * r.
Proof.
  unfold new_location. change (Z.even 10240000) with true. cbv iota.
  unfold new_location_even.
  destruct (r =? 0); [intros [H|H]; discriminate|].
  destruct (Z.compare_spec (2 * r) 10240000) as [Hc|Hc|Hc]; intros [H|H];
    try discriminate; lia.
Qed.

(** The quotient by [fs] stays on the same side of every half-integer as
    the exact quotient: binary32 numbers below [2^15] are multiples of
    [2^-15], so one that is below [(2n+1) * 10000] is below it by more than the
    rounding can add. *)
Lemma div_fs_half (mp : positive) (ep n : Z) :
  Zpos (digits2_pos mp) = 24 -> -15 <= ep <= -1 -> 0 <= n <= 1000 ->
  (2 * n - 1) * 10000 * 2 ^ 200 <= Zpos mp * 2 ^ (ep + 200)
    < (2 * n + 1) * 10000 * 2 ^ 200 ->
  exists mi ei,
    F32.div (S754_finite false mp ep) fs50 = S754_finite false mi ei
    /\ (2 * n - 1) * 2 ^ 199 <= Zpos mi * 2 ^ (ei + 200)
       < (2 * n + 1) * 2 ^ 199.
Proof.
  intros Hd He Hn [Hlo Hhi].
  pose proof (proj1 (digits_24 mp) Hd) as Hm.
  rewrite div_fs_is_round by lia.
  change (2 ^ 24) with 16777216.
  pose proof (Z.div_mod (Zpos mp * 16777216) 10240000 ltac:(lia)) as Hdm.
  pose proof (Z.mod_pos_bound (Zpos mp * 16777216) 10240000 ltac:(lia)) as Hr.
  set (q := Zpos mp * 16777216 / 10240000) in *.
  set (r := Zpos mp * 16777216 mod 10240000) in *.
  assert (Hq : 8388608 <= q < 33554432) by lia.
  destruct q as [|qp|qp] eqn:Eq; [lia| |lia].
  pose proof (digits_ge_24 qp ltac:(lia)) as Hd1.
  pose proof (digits_le qp 25 ltac:(lia) ltac:(change (2 ^ 25) with 33554432; lia))
    as Hd2.
  destruct (round_aux_bounds qp (ep - 15) (new_location 10240000 r))
    as (m' & e' & Hrd & Hd' & He' & _ & Hdn); try lia.
  destruct (round_aux_normal qp (ep - 15) (new_location 10240000 r))
    as (m'' & e'' & m2 & Hrd' & _ & He'' & Hm'' & Hm2 & _ & Hupi); try lia.
  rewrite Hrd in Hrd'. injection Hrd' as <- <-.
  exists m', e'. split; [exact Hrd|].
  (* scaled quantities *)
  assert (EW : 2 ^ (ep + 200) = 32768 * 2 ^ (ep - 15 + 200)).
  { rewrite (pow2_split (ep + 200) (ep - 15 + 200)) by lia.
    replace (ep + 200 - (ep - 15 + 200)) with 15 by lia. reflexivity. }
  assert (ET : 2 ^ 200 = 2 ^ (- ep) * 2 ^ (ep + 200)).
  { rewrite <- Z.pow_add_r by lia. f_equal. lia. }
  assert (EH : 2 ^ 199 = 2 ^ (- ep - 1) * 2 ^ (ep + 200)).
  { rewrite <- Z.pow_add_r by lia. f_equal. lia. }
  assert (EK : 2 ^ (- ep) = 2 * 2 ^ (- ep - 1)).
  { rewrite <- Z.pow_succ_r by lia. f_equal. lia. }
  assert (HK : 0 < 2 ^ (- ep - 1)) by (apply pow2_pos; lia).
  assert (HX : 0 < 2 ^ (ep - 15 + 200)) by (apply pow2_pos; lia).
  set (K := 2 ^ (- ep - 1)) in *.
  set (X := 2 ^ (ep - 15 + 200)) in *.
  set (d := Zpos (digits2_pos qp)) in *.
  rewrite ET, EW, EK in Hlo, Hhi. rewrite EH, EW.
  (* integer form of the hypotheses *)
  assert (Hlo' : (2 * n - 1) * 10000 * (2 * K) <= Zpos mp).
  { apply (Z.mul_le_mono_pos_r _ _ (32768 * X)); lia. }
  assert (Hhi' : Zpos mp + 1 <= (2 * n + 1) * 10000 * (2 * K)).
  { assert (Zpos mp < (2 * n + 1) * 10000 * (2 * K)); [|lia].
    apply (Z.mul_lt_mono_pos_r (32768 * X)); lia. }
  split.
  - destruct (Z.eq_dec n 0) as [->|Hn0].
    + assert (0 < Zpos m' * 2 ^ (e' + 200)).
      { apply Z.mul_pos_pos; [lia|apply pow2_pos; lia]. }
      lia.
    + specialize (Hdn (2 * n - 1) (-1) ltac:(lia) ltac:(lia)).
      change (2 ^ (-1 + 200)) with (2 ^ 199) in Hdn. rewrite EH, EW in Hdn.
      apply Hdn. fold X.
      assert ((2 * n - 1) * K * 32768 <= Zpos qp) as Hb;
        [|replace ((2 * n - 1) * (K * (32768 * X)))
            with ((2 * n - 1) * K * 32768 * X) by ring;
          apply Z.mul_le_mono_nonneg_r; lia].
      assert ((2 * n - 1) * K * 32768 * 10240000 <= Zpos mp * 16777216) by lia.
      lia.
  - assert (Hb : Zpos mp * 16777216 + 16777216
                  <= (2 * n + 1) * K * 32768 * 10240000) by lia.
    replace ((2 * n + 1) * (K * (32768 * X)))
      with ((2 * n + 1) * K * 32768 * X) by ring.
    set (b := (2 * n + 1) * K * 32768) in *.
    assert (ES : Zpos m' * 2 ^ (e' + 200) = m2 * (2 ^ (d - 24) * X)).
    { rewrite <- Hm'', <- Z.mul_assoc. f_equal. unfold X.
      rewrite <- !Z.pow_add_r by lia. f_equal. lia. }
    rewrite ES.
    assert (Hd3 : d = 24 \/ d = 25) by lia.
    destruct Hd3 as [Ed|Ed]; rewrite Ed in *.
    + change (2 ^ (24 - 24)) with 1 in *. rewrite Z.div_1_r in *.
      rewrite Z.mul_1_l. apply Z.mul_lt_mono_pos_r; [exact HX|].
      destruct (Z.eq_dec m2 (Zpos qp)) as [E|E]; [lia|].
      destruct (Hupi E) as [[Hc _]|[_ Hl]]; [lia|].
      apply new_location_up in Hl. lia.
    + change (2 ^ (25 - 24)) with 2 in *.
      replace (m2 * (2 * X)) with (2 * m2 * X) by ring.
      apply Z.mul_lt_mono_pos_r; [exact HX|].
      pose proof (Z.div_mod (Zpos qp) 2 ltac:(lia)) as Hq2.
      pose proof (Z.mod_pos_bound (Zpos qp) 2 ltac:(lia)) as Hq3.
      destruct (Z.eq_dec m2 (Zpos qp / 2)) as [E|E]; [lia|].
      destruct (Hupi E) as [[_ Hc]|[Hc _]]; [lia|discriminate].
Qed.

Lemma one_normal : pos_normal F32.one (2 ^ 200) (20000 * 2 ^ 200).
Proof.
  exists 8388608%positive, (-23). repeat split; try reflexivity; lia.
Qed.

Lemma dac_max_normal :
  pos_normal WaveGen.DAC_MAX_HZ (2 ^ 200) (20000 * 2 ^ 200).
Proof.
  exists 10240000%positive, (-9). repeat split; try reflexivity; lia.
Qed.

Lemma valid_normal (m : positive) (e : Z) :
  F32.valid (S754_finite false m e) = true -> -149 < e ->
  Zpos (digits2_pos m) = 24 /\ e <= 104.
Proof.
  unfold F32.valid, valid_binary, bounded, canonical_mantissa, fexp, emin.
  unfold F32.prec, F32.emax.
  intros H He. apply andb_true_iff in H as [H1 H2].
  apply Z.eqb_eq in H1. apply Z.leb_le in H2. lia.
Qed.

Lemma ltb_finite (m m' : positive) (e e' : Z) :
  F32.ltb (S754_finite false m e) (S754_finite false m' e') = true <->
  e < e' \/ (e = e' /\ Zpos m < Zpos m').
Proof.
  unfold F32.ltb, SFltb. cbn [SFcompare].
  change (Pos.compare_cont Eq m m') with (Pos.compare m m').
  destruct (Z.compare_spec e e') as [He|He|He].
  - destruct (Pos.compare_spec m m') as [Hm|Hm|Hm];
      (split; [intros H; try discriminate H|intros H]); lia.
  - split; [intros _|reflexivity]. lia.
  - split; [discriminate|lia].
Qed.

Lemma dac_target_normal (t : F32.float) :
  F32.valid t = true -> t <> S754_nan ->
  pos_normal (dac_target t) (2 ^ 200) (20000 * 2 ^ 200).
Proof.
  intros Hv Hn. destruct t as [s|s| |s m e].
  - destruct s; exact one_normal.
  - destruct s; [exact one_normal | exact dac_max_normal].
  - contradiction.
  - destruct s; [exact one_normal|].
    unfold dac_target. cbv zeta.
    change F32.one with (S754_finite false 8388608 (-23)).
    destruct (F32.ltb (S754_finite false m e) _) eqn:E1; [exact one_normal|].
    change WaveGen.DAC_MAX_HZ with (S754_finite false 10240000 (-9)).
    destruct (F32.gtb (S754_finite false m e) _) eqn:E2; [exact dac_max_normal|].
    change (F32.ltb (S754_finite false 10240000 (-9)) (S754_finite false m e)
            = false) in E2.
    assert (H1 : ~ (e < -23 \/ (e = -23 /\ Zpos m < 8388608))).
    { intros H. apply ltb_finite in H. congruence. }
    assert (H2 : ~ (-9 < e \/ (-9 = e /\ 10240000 < Zpos m))).
    { intros H. apply ltb_finite in H. congruence. }
    destruct (valid_normal _ _ Hv ltac:(lia)) as [Hd He'].
    pose proof (proj1 (digits_24 m) Hd) as Hm'.
    exists m, e. split; [reflexivity|]. split; [exact Hd|]. split; [lia|].
    assert (e = -23 \/ e = -9 \/ -22 <= e <= -10) as [->|[->|He]] by lia.
    + change (2 ^ (-23 + 200)) with (2 ^ 177). pow_const. lia.
    + change (2 ^ (-9 + 200)) with (2 ^ 191). pow_const. lia.
    + assert (2 ^ 178 <= 2 ^ (e + 200)) by (apply Z.pow_le_mono_r; lia).
      assert (2 ^ (e + 200) <= 2 ^ 190) by (apply Z.pow_le_mono_r; lia).
      pow_const. nia.
Qed.

Lemma leb_finite (m m' : positive) (e e' : Z) :
  F32.leb (S754_finite false m e) (S754_finite false m' e') = true <->
  e < e' \/ (e = e' /\ Zpos m <= Zpos m').
Proof.
  unfold F32.leb, SFleb. cbn [SFcompare].
  change (Pos.compare_cont Eq m m') with (Pos.compare m m').
  destruct (Z.compare_spec e e') as [He|He|He].
  - destruct (Pos.compare_spec m m') as [Hm|Hm|Hm];
      (split; [intros H; try discriminate H|intros H]); try reflexivity; lia.
  - split; [intros _|reflexivity]. lia.
  - split; [discriminate|lia].
Qed.

Lemma dac_target_in_range (t : F32.float) :
  F32.leb F32.one t = true -> F32.leb t WaveGen.DAC_MAX_HZ = true ->
  dac_target t = t.
Proof.
  change F32.one with (S754_finite false 8388608 (-23)).
  change WaveGen.DAC_MAX_HZ with (S754_finite false 10240000 (-9)).
  intros H1 H2. destruct t as [s|s| |s m e].
  - exfalso. revert H1. unfold F32.leb, SFleb. cbn [SFcompare]. discriminate.
  - exfalso. destruct s.
    + revert H1. unfold F32.leb, SFleb. cbn [SFcompare]. discriminate.
    + revert H2. unfold F32.leb, SFleb. cbn [SFcompare]. discriminate.
  - exfalso. revert H1. unfold F32.leb, SFleb. cbn [SFcompare]. discriminate.
  - destruct s.
    { exfalso. revert H1. unfold F32.leb, SFleb. cbn [SFcompare]. discriminate. }
    apply leb_finite in H1, H2.
    unfold dac_target. cbv zeta.
    change F32.one with (S754_finite false 8388608 (-23)).
    change WaveGen.DAC_MAX_HZ with (S754_finite false 10240000 (-9)).
    destruct (F32.ltb (S754_finite false m e) _) eqn:E1.
    { apply ltb_finite in E1. lia. }
    destruct (F32.gtb (S754_finite false m e) _) eqn:E2; [|reflexivity].
    change (F32.ltb (S754_finite false 10240000 (-9)) (S754_finite false m e)
            = true) in E2.
    apply ltb_finite in E2. lia.
Qed.

(** *** Conversion to an integer *)

Lemma trunc_scaled (m : positive) (e : Z) :
  -200 <= e ->
  F32.trunc (S754_finite false m e) = Some (Zpos m * 2 ^ (e + 200) / 2 ^ 200).
Proof.
  intros He. unfold F32.trunc. f_equal.
  destruct e as [|p|p].
  - change (2 ^ (0 + 200)) with (2 ^ 200). rewrite Z.div_mul by (now vm_compute).
    now rewrite Z.mul_1_r.
  - rewrite Z.pow_add_r, Z.mul_assoc, Z.div_mul by (try lia; now vm_compute).
    reflexivity.
  - assert (Hp : 0 < 2 ^ (Zneg p + 200)) by (apply pow2_pos; lia).
    assert (E : 2 ^ 200 = 2 ^ Zpos p * 2 ^ (Zneg p + 200)).
    { rewrite <- Z.pow_add_r by lia. f_equal. lia. }
    rewrite E, Z.div_mul_cancel_r by lia. reflexivity.
Qed.

Lemma step_of_clamp (k : Z) : step_of k = clamp 1 64 k.
Proof.
  unfold step_of, clamp. cbv zeta.
  destruct (Z.ltb_spec k 1).
  - change (1 >? 64) with false. cbv iota. lia.
  - destruct (Z.gtb_spec k 64); lia.
Qed.

Lemma round_half_up_scaled (m : positive) (e : Z) :
  -199 <= e < 0 ->
  round_half_up (F32.to_Q (S754_finite false m e)) =
    (Zpos m * 2 ^ (e + 200) + 2 ^ 199) / 2 ^ 200.
Proof.
  intros He. destruct e as [|p|p]; try lia.
  unfold round_half_up, F32.to_Q, Qfloor, Qplus. cbn [Qnum Qden].
  rewrite Pos2Z.inj_mul, Pos2Z.inj_pow.
  assert (Hp : 0 < 2 ^ Zpos p) by (apply pow2_pos; lia).
  assert (Hk : 0 < 2 ^ (Zneg p + 199)) by (apply pow2_pos; lia).
  assert (E1 : 2 ^ 200 = 2 ^ Zpos p * 2 * 2 ^ (Zneg p + 199)).
  { rewrite <- Z.mul_assoc, <- (Z.pow_succ_r 2 (Zneg p + 199)) by lia.
    rewrite <- Z.pow_add_r by lia. f_equal. lia. }
  assert (E2 : 2 ^ 199 = 2 ^ Zpos p * 2 ^ (Zneg p + 199)).
  { rewrite <- Z.pow_add_r by lia. f_equal. lia. }
  assert (E3 : 2 ^ (Zneg p + 200) = 2 * 2 ^ (Zneg p + 199)).
  { rewrite <- Z.pow_succ_r by lia. f_equal. lia. }
  rewrite E1, E2, E3.
  replace (Zpos m * (2 * 2 ^ (Zneg p + 199)) + 2 ^ Zpos p * 2 ^ (Zneg p + 199))
    with ((Zpos m * 2 + 1 * 2 ^ Zpos p) * 2 ^ (Zneg p + 199)) by ring.
  rewrite Z.div_mul_cancel_r by lia. reflexivity.
Qed.

Lemma div_between (a n c : Z) :
  0 < c -> n * c <= a < (n + 1) * c -> a / c = n.
Proof.
  intros Hc H. symmetry. apply (Z.div_unique a c n (a - n * c)); lia.
Qed.

Lemma round_exact_scaled (m : positive) (e : Z) :
  -199 <= e < 0 ->
  round_half_up
    (F32.to_Q (S754_finite false m e) * inject_Z WaveGen.LUT_N / F32.to_Q fs50) =
    (2 * (Zpos m * 2 ^ (e + 208)) + 20000 * 2 ^ 200) / (40000 * 2 ^ 200).
Proof.
  intros He. destruct e as [|p|p]; try lia.
  change (F32.to_Q fs50) with (10240000 # 512)%Q.
  change (inject_Z WaveGen.LUT_N) with (256 # 1)%Q.
  unfold round_half_up, F32.to_Q, Qfloor, Qplus, Qdiv, Qmult, Qinv.
  cbn [Qnum Qden].
  rewrite !Pos2Z.inj_mul, Pos2Z.inj_pow.
  assert (Hp : 0 < 2 ^ Zpos p) by (apply pow2_pos; lia).
  assert (Hk : 0 < 2 ^ (Zneg p + 200)) by (apply pow2_pos; lia).
  assert (E1 : 2 ^ 200 = 2 ^ Zpos p * 2 ^ (Zneg p + 200)).
  { rewrite <- Z.pow_add_r by lia. f_equal. lia. }
  assert (E2 : 2 ^ (Zneg p + 208) = 256 * 2 ^ (Zneg p + 200)).
  { rewrite (pow2_split (Zneg p + 208) (Zneg p + 200)) by lia.
    replace (Zneg p + 208 - (Zneg p + 200)) with 8 by lia. reflexivity. }
  rewrite E1, E2.
  set (P := 2 ^ Zpos p) in *. set (k := 2 ^ (Zneg p + 200)) in *.
  replace (Zpos m * 256 * 512 * 2 + 1 * (P * 1 * 10240000))
    with ((512 * Zpos m + 20000 * P) * 512) by ring.
  replace (P * 1 * 10240000 * 2) with (40000 * P * 512) by ring.
  replace (2 * (Zpos m * (256 * k)) + 20000 * (P * k))
    with ((512 * Zpos m + 20000 * P) * k) by ring.
  replace (40000 * (P * k)) with (40000 * P * k) by ring.
  rewrite !Z.div_mul_cancel_r by lia. reflexivity.
Qed.

Lemma round_bounds (a c : Z) :
  0 < c ->
  (2 * ((2 * a + c) / (2 * c)) - 1) * c <= 2 * a
    < (2 * ((2 * a + c) / (2 * c)) + 1) * c.
Proof.
  intros Hc.
  pose proof (Z.div_mod (2 * a + c) (2 * c) ltac:(lia)) as E.
  pose proof (Z.mod_pos_bound (2 * a + c) (2 * c) ltac:(lia)) as B.
  set (n := (2 * a + c) / (2 * c)) in *. lia.
Qed.

Lemma to_unsigned_16 (x : F32.float) (k : Z) :
  F32.trunc x = Some k -> 0 <= k < 65536 -> F32.to_unsigned 16 x = Some k.
Proof.
  intros E H. unfold F32.to_unsigned. rewrite E.
  destruct (Z.leb_spec 0 k); [|lia].
  change (2 ^ 16) with 65536. destruct (Z.ltb_spec k 65536); [reflexivity|lia].
Qed.

Lemma add_half_trunc (mi : positive) (ei : Z) :
  Zpos (digits2_pos mi) = 24 -> -149 <= ei <= 104 ->
  2 ^ 193 <= Zpos mi * 2 ^ (ei + 200) <= 2 ^ 208 ->
  exists k,
    F32.to_unsigned 16 (F32.add (S754_finite false mi ei) F32.half) = Some k
    /\ step_of k = clamp 1 64 ((Zpos mi * 2 ^ (ei + 200) + 2 ^ 199) / 2 ^ 200).
Proof.
  intros Hd He HY.
  pose proof (proj1 (digits_24 mi) Hd) as Hm.
  assert (He1 : -30 <= ei) by (apply (exp_lower (Zpos mi) ei 193); lia).
  assert (He2 : ei < -14) by (apply (exp_upper (Zpos mi) ei 209); lia).
  destruct (add_half_is_round mi ei) as (Mp & Hadd & HMp & HdM); try lia.
  set (ez := Z.min ei (-24)) in *.
  set (Y := Zpos mi * 2 ^ (ei + 200)) in *.
  assert (HV : Zpos Mp * 2 ^ (ez + 200) = Y + 2 ^ 199).
  { rewrite HMp, Z.mul_add_distr_r, <- !Z.mul_assoc, <- !Z.pow_add_r by lia.
    replace (ei - ez + (ez + 200)) with (ei + 200) by lia.
    replace (-24 - ez + (ez + 200)) with 176 by lia. reflexivity. }
  assert (HdM2 : Zpos (digits2_pos Mp) + ez < 10).
  { pose proof (digits_bounds Mp) as [HM1 _].
    assert (Hp : 0 < 2 ^ (ez + 200)) by (apply pow2_pos; lia).
    assert (2 ^ (Zpos (digits2_pos Mp) - 1 + (ez + 200)) < 2 ^ 209).
    { rewrite Z.pow_add_r by lia.
      apply Z.le_lt_trans with (Zpos Mp * 2 ^ (ez + 200)); [nia|].
      rewrite HV. pow_const. lia. }
    assert (Zpos (digits2_pos Mp) - 1 + (ez + 200) < 209)
      by (apply (Z.pow_lt_mono_r_iff 2); lia).
    lia. }
  destruct (round_aux_bounds Mp ez loc_Exact)
    as (ms & es & Hr & Hds & Hes & Hup & Hdn); try lia.
  rewrite Hadd, Hr.
  rewrite HV in Hup, Hdn.
  assert (Hup' : forall b eb, 0 < b <= 16777216 -> -200 <= eb ->
            Y + 2 ^ 199 <= b * 2 ^ (eb + 200) ->
            Zpos ms * 2 ^ (es + 200) <= b * 2 ^ (eb + 200)).
  { intros b eb Hb Heb HB. apply Hup; try assumption. congruence. }
  clear Hup.
  assert (HS0 : 0 < Zpos ms * 2 ^ (es + 200)).
  { assert (0 < 2 ^ (es + 200)) by (apply pow2_pos; lia). nia. }
  set (S := Zpos ms * 2 ^ (es + 200)) in *.
  pose proof (trunc_scaled ms es ltac:(lia)) as Ht. fold S in Ht.
  assert (H257 : S <= 257 * 2 ^ 200).
  { apply (Hup' 257 0); lia. }
  assert (HT : 0 < 2 ^ 200) by now vm_compute.
  assert (Hk : 0 <= S / 2 ^ 200 < 65536).
  { split; [apply Z.div_pos; lia|]. apply Z.div_lt_upper_bound; lia. }
  exists (S / 2 ^ 200). split; [now apply to_unsigned_16|].
  rewrite step_of_clamp.
  destruct (Z.lt_ge_cases Y (2 ^ 200)) as [Hlt|Hge].
  - (* below 1: both sides clamp to 1 *)
    assert (HS : S <= 3 * 2 ^ 199).
    { apply (Hup' 3 (-1)); lia. }
    assert (S / 2 ^ 200 <= 1).
    { apply Z.lt_succ_r, Z.div_lt_upper_bound; [lia|]. pow_const. lia. }
    assert ((Y + 2 ^ 199) / 2 ^ 200 <= 1).
    { apply Z.lt_succ_r, Z.div_lt_upper_bound; [lia|]. pow_const. lia. }
    unfold clamp. lia.
  - f_equal.
    assert (He3 : -23 <= ei) by (apply (exp_lower (Zpos mi) ei 200); lia).
    set (n := (Y + 2 ^ 199) / 2 ^ 200).
    pose proof (Z.div_mod (Y + 2 ^ 199) (2 ^ 200) ltac:(lia)) as Hdm.
    pose proof (Z.mod_pos_bound (Y + 2 ^ 199) (2 ^ 200) HT) as Hmod.
    fold n in Hdm.
    assert (Hn : 1 <= n <= 256).
    { split.
      - apply Z.div_le_lower_bound; [lia|]. pow_const. lia.
      - apply Z.lt_succ_r, Z.div_lt_upper_bound; [lia|]. pow_const. lia. }
    apply div_between; [exact HT|]. split.
    + specialize (Hdn n 0 ltac:(lia) ltac:(lia)).
      change (2 ^ (0 + 200)) with (2 ^ 200) in Hdn. apply Hdn. lia.
    + assert (ei = -23 \/ ei = -22 \/ ei = -21 \/ ei = -20 \/ ei = -19
              \/ ei = -18 \/ ei = -17 \/ ei = -16 \/ ei = -15) as Hcases by lia.
      assert (Hgen : forall A C : Z,
                 2 <= A <= 512 -> 0 < C -> 2 ^ (ei + 200) = A * 2 ^ 176 ->
                 2 ^ (ei + 200) * C = 2 ^ 199 ->
                 S < (n + 1) * 2 ^ 200).
      { intros A C HA HC EP EC.
        destruct (Z.le_gt_cases (Zpos mi + C) 16777216) as [Hc|Hc].
        - specialize (Hup' (Zpos mi + C) ei ltac:(lia) ltac:(lia)).
          assert (S <= (Zpos mi + C) * 2 ^ (ei + 200)).
          { apply Hup'. unfold Y. lia. }
          assert ((Zpos mi + C) * 2 ^ (ei + 200) = Y + 2 ^ 199).
          { unfold Y. lia. }
          lia.
        - specialize (Hup' (2 * A + 1) (-1) ltac:(lia) ltac:(lia)).
          change (2 ^ (-1 + 200)) with (2 ^ 199) in Hup'.
          assert (HYA : Y < 16777216 * (A * 2 ^ 176)).
          { unfold Y. rewrite EP.
            apply Z.mul_lt_mono_pos_r; [pow_const; lia | lia]. }
          assert (S <= (2 * A + 1) * 2 ^ 199).
          { apply Hup'. pow_const. lia. }
          assert (HnA : A <= n).
          { unfold n. apply Z.div_le_lower_bound; [lia|].
            assert (16777216 * (A * 2 ^ 176) < Y + 2 ^ 199).
            { rewrite <- EC. unfold Y. rewrite EP.
              rewrite (Z.mul_comm (A * 2 ^ 176) C), <- Z.mul_add_distr_r.
              apply Z.mul_lt_mono_pos_r; [pow_const; lia | lia]. }
            pow_const. lia. }
          pow_const. lia. }
      destruct Hcases as [->|[->|[->|[->|[->|[->|[->|[->| ->]]]]]]]].
      * apply (Hgen 2 4194304); [lia|lia|reflexivity|reflexivity].
      * apply (Hgen 4 2097152); [lia|lia|reflexivity|reflexivity].
      * apply (Hgen 8 1048576); [lia|lia|reflexivity|reflexivity].
      * apply (Hgen 16 524288); [lia|lia|reflexivity|reflexivity].
      * apply (Hgen 32 262144); [lia|lia|reflexivity|reflexivity].
      * apply (Hgen 64 131072); [lia|lia|reflexivity|reflexivity].
      * apply (Hgen 128 65536); [lia|lia|reflexivity|reflexivity].
      * apply (Hgen 256 32768); [lia|lia|reflexivity|reflexivity].
      * apply (Hgen 512 16384); [lia|lia|reflexivity|reflexivity].
Qed.

(** *** The frequency mapping *)

Lemma In_indices (n : nat) (i k : Z) :
  i <= k < i + Z.of_nat n -> In k (indices i n).
Proof.
  revert i. induction n as [|n IH]; intros i H; [lia|].
  cbn [indices]. destruct (Z.eq_dec i k) as [->|Hne]; [now left|right].
  apply IH. lia.
Qed.

Lemma fs50_value : (F32.to_Q fs50 == 1000000 / 50)%Q.
Proof. reflexivity. Qed.

Lemma actual_exact (k : Z) :
  1 <= k <= 64 ->
  (F32.to_Q (actual_of k) ==
   F32.to_Q fs50 * inject_Z k / inject_Z WaveGen.LUT_N)%Q.
Proof.
  intros Hk.
  assert (Hall : forallb
            (fun k => Qeq_bool (F32.to_Q (actual_of k))
                        (F32.to_Q fs50 * inject_Z k / inject_Z WaveGen.LUT_N))
            (indices 1 64) = true) by (vm_compute; reflexivity).
  rewrite forallb_forall in Hall.
  apply Qeq_bool_iff, Hall, In_indices. lia.
Qed.

Lemma clamp_range (k : Z) : 1 <= clamp 1 64 k <= 64.
Proof. unfold clamp. lia. Qed.

(** The binary32 ideal step rounds to the same integer as the exact one. *)
Lemma ideal_step_rounds_exactly (x : F32.float) :
  pos_normal x (2 ^ 200) (20000 * 2 ^ 200) ->
  exists mi ei,
    F32.div (F32.mul x (F32.of_Z WaveGen.LUT_N)) fs50 = S754_finite false mi ei
    /\ (Zpos mi * 2 ^ (ei + 200) + 2 ^ 199) / 2 ^ 200 =
       round_half_up (F32.to_Q x * inject_Z WaveGen.LUT_N / F32.to_Q fs50).
Proof.
  intros (m & e & -> & Hd & He & Hlo & Hhi).
  pose proof (proj1 (digits_24 m) Hd) as Hm.
  assert (He1 : -23 <= e) by (apply (exp_lower (Zpos m) e 200); lia).
  assert (He2 : e < -8) by (apply (exp_upper (Zpos m) e 215); lia).
  rewrite mul_256_exact, round_exact_scaled by lia.
  replace (e + 208) with (e + 8 + 200) by lia.
  assert (HT : 0 < 2 ^ 200) by (apply pow2_pos; lia).
  assert (E8 : Zpos m * 2 ^ (e + 8 + 200) = 256 * (Zpos m * 2 ^ (e + 200))).
  { rewrite (pow2_split (e + 8 + 200) (e + 200)) by lia.
    replace (e + 8 + 200 - (e + 200)) with 8 by lia.
    change (2 ^ 8) with 256. ring. }
  set (A := Zpos m * 2 ^ (e + 8 + 200)) in *.
  pose proof (round_bounds A (20000 * 2 ^ 200) ltac:(lia)) as Hn.
  replace (2 * (20000 * 2 ^ 200)) with (40000 * 2 ^ 200) in Hn by ring.
  assert (Hn0 : 0 <= (2 * A + 20000 * 2 ^ 200) / (40000 * 2 ^ 200) <= 1000).
  { split.
    - apply Z.div_pos; lia.
    - apply Z.div_le_upper_bound; lia. }
  set (n := (2 * A + 20000 * 2 ^ 200) / (40000 * 2 ^ 200)) in *.
  destruct (div_fs_half m (e + 8) n Hd ltac:(lia) Hn0) as (mi & ei & Ei & Hb).
  { fold A. lia. }
  exists mi, ei. split; [exact Ei|].
  apply div_between; [exact HT|].
  assert (EH : 2 ^ 200 = 2 * 2 ^ 199) by reflexivity.
  rewrite EH. lia.
Qed.

(** C4: for every binary32 target frequency (any valid float but NaN, so in
    particular every one in the analog range, which the clamp leaves as it
    is), [configure_dac_wave] returns; the target is clamped into
    [[1, DAC_MAX_HZ]]; with [fs = 1e6 / 50 = 20000] the phase step written is
    the ideal step [target * N / fs] rounded to the nearest integer (halves
    upward) and clamped to [[1, 64]], both for the exact quotient and for the
    one the code computes in binary32; and the value returned is exactly
    [fs * phaseStep / N]. *)
Theorem C4_frequency_mapping (t : F32.float) (s : WaveGen.state) :
  F32.valid t = true -> t <> S754_nan ->
  exists actual s',
    WaveGen.configure_dac_wave t s = Some (actual, s')
    /\ F32.leb F32.one (dac_target t) = true
    /\ F32.leb (dac_target t) WaveGen.DAC_MAX_HZ = true
    /\ (F32.leb F32.one t = true -> F32.leb t WaveGen.DAC_MAX_HZ = true ->
        dac_target t = t)
    /\ (F32.to_Q fs50 == 1000000 / 50)%Q
    /\ WaveGen.phaseStep s' = clamp 1 64 (round_half_up (exact_step t))
    /\ WaveGen.phaseStep s' =
         clamp 1 64 (round_half_up (F32.to_Q (ideal_step t)))
    /\ 1 <= WaveGen.phaseStep s' <= 64
    /\ (F32.to_Q actual ==
        F32.to_Q fs50 * inject_Z (WaveGen.phaseStep s')
        / inject_Z WaveGen.LUT_N)%Q.
Proof.
  intros Hv Hn.
  pose proof (dac_target_normal t Hv Hn) as H0.
  pose proof (div_fs_normal _ (mul_256_normal _ H0)) as H2.
  destruct (ideal_step_rounds_exactly _ H0) as (mi' & ei' & Ei' & Hex).
  fold (ideal_step t) in H2, Ei'. fold (exact_step t) in Hex.
  destruct H2 as (mi & ei & Ei & Hd & He & HY).
  rewrite Ei in Ei'. injection Ei' as <- <-.
  destruct (add_half_trunc mi ei Hd He HY) as (k & Hk & Hstep).
  pose proof (proj1 (digits_24 mi) Hd) as Hm.
  assert (He1 : -30 <= ei) by (apply (exp_lower (Zpos mi) ei 193); lia).
  assert (He2 : ei < -14) by (apply (exp_upper (Zpos mi) ei 209); lia).
  rewrite configure_dac_wave_eq, Ei, Hk. unfold bind.
  rewrite timer_start_frame.
  eexists. eexists. split; [reflexivity|].
  cbn [WaveGen.phaseStep WaveGen.set_tmr WaveGen.dac_output_enable
       WaveGen.set_dac_enabled WaveGen.set_phaseStep].
  destruct H0 as (m & e & Et & Hdt & Het & Hlo & Hhi).
  pose proof (proj1 (digits_24 m) Hdt) as Hmt.
  assert (Het1 : -23 <= e) by (apply (exp_lower (Zpos m) e 200); lia).
  assert (Het2 : e < -8) by (apply (exp_upper (Zpos m) e 215); lia).
  split; [|split; [|split; [exact (dac_target_in_range t)|
    split; [exact fs50_value|split; [|split; [|split]]]]]].
  - rewrite Et. change F32.one with (S754_finite false 8388608 (-23)).
    apply leb_finite. lia.
  - rewrite Et.
    change WaveGen.DAC_MAX_HZ with (S754_finite false 10240000 (-9)).
    apply leb_finite.
    destruct (Z.eq_dec e (-9)) as [->|]; [right|left; lia].
    split; [reflexivity|].
    change (2 ^ (-9 + 200)) with (2 ^ 191) in Hhi. pow_const. lia.
  - rewrite Hstep, Hex. reflexivity.
  - rewrite Hstep, round_half_up_scaled by lia. reflexivity.
  - rewrite Hstep. apply clamp_range.
  - apply actual_exact. rewrite Hstep. apply clamp_range.
Qed.

Lemma C4_frequency_mapping_witness :
  exists actual s',
    WaveGen.configure_dac_wave (F32.of_Z 1000) (WaveGen.boot sine_1k)
      = Some (actual, s')
    /\ F32.leb F32.one (dac_target (F32.of_Z 1000)) = true
    /\ F32.leb (dac_target (F32.of_Z 1000)) WaveGen.DAC_MAX_HZ = true
    /\ (F32.leb F32.one (F32.of_Z 1000) = true ->
        F32.leb (F32.of_Z 1000) WaveGen.DAC_MAX_HZ = true ->
        dac_target (F32.of_Z 1000) = F32.of_Z 1000)
    /\ (F32.to_Q fs50 == 1000000 / 50)%Q
    /\ WaveGen.phaseStep s' =
         clamp 1 64 (round_half_up (exact_step (F32.of_Z 1000)))
    /\ WaveGen.phaseStep s' =
         clamp 1 64 (round_half_up (F32.to_Q (ideal_step (F32.of_Z 1000))))
    /\ 1 <= WaveGen.phaseStep s' <= 64
    /\ (F32.to_Q actual ==
        F32.to_Q fs50 * inject_Z (WaveGen.phaseStep s')
        / inject_Z WaveGen.LUT_N)%Q.
Proof.
  apply C4_frequency_mapping; [reflexivity | discriminate].
Defined.

(** * Further properties of the code *)

(** *** The accumulator over many ticks *)

Lemma on_timer_frame (s : WaveGen.state) :
  WaveGen.wf (WaveGen.on_timer s) = WaveGen.wf s
  /\ WaveGen.phaseStep (WaveGen.on_timer s) = WaveGen.phaseStep s
  /\ WaveGen.ampScale (WaveGen.on_timer s) = WaveGen.ampScale s
  /\ WaveGen.lut_sin (WaveGen.on_timer s) = WaveGen.lut_sin s
  /\ WaveGen.lut_tri (WaveGen.on_timer s) = WaveGen.lut_tri s
  /\ WaveGen.lut_saw (WaveGen.on_timer s) = WaveGen.lut_saw s
  /\ WaveGen.tmr (WaveGen.on_timer s) = WaveGen.tmr s
  /\ WaveGen.periodUs (WaveGen.on_timer s) = WaveGen.periodUs s.
Proof.
  unfold WaveGen.on_timer.
  destruct (Waveform_eqb (WaveGen.wf s) Square); repeat split.
Qed.

Lemma ticks_S (n : nat) (s : WaveGen.state) :
  ticks (S n) s = WaveGen.on_timer (ticks n s).
Proof. reflexivity. Qed.

Lemma ticks_frame (n : nat) (s : WaveGen.state) :
  WaveGen.wf (ticks n s) = WaveGen.wf s
  /\ WaveGen.phaseStep (ticks n s) = WaveGen.phaseStep s
  /\ WaveGen.ampScale (ticks n s) = WaveGen.ampScale s
  /\ WaveGen.lut_sin (ticks n s) = WaveGen.lut_sin s
  /\ WaveGen.lut_tri (ticks n s) = WaveGen.lut_tri s
  /\ WaveGen.lut_saw (ticks n s) = WaveGen.lut_saw s.
Proof.
  induction n as [|n IH]; [repeat split|].
  rewrite ticks_S.
  destruct (on_timer_frame (ticks n s)) as (H1 & H2 & H3 & H4 & H5 & H6 & _).
  destruct IH as (I1 & I2 & I3 & I4 & I5 & I6).
  repeat split; congruence.
Qed.

Lemma ticks_phase (n : nat) (s : WaveGen.state) :
  WaveGen.wf s <> Square -> 0 <= WaveGen.phase s < WaveGen.LUT_N ->
  WaveGen.phase (ticks n s) = phase_after s (Z.of_nat n).
Proof.
  intros Hw Hp. unfold phase_after. induction n as [|n IH].
  - cbn [ticks Nat.iter]. change (Z.of_nat 0) with 0.
    rewrite Z.mul_0_l, Z.add_0_r. symmetry. now apply Z.mod_small.
  - rewrite ticks_S, on_timer_phase.
    + destruct (ticks_frame n s) as (_ & -> & _). rewrite IH.
      unfold WaveGen.LUT_N. rewrite Zplus_mod_idemp_l. f_equal. lia.
    + destruct (ticks_frame n s) as (-> & _). exact Hw.
Qed.

(** X1: outside square mode the accumulator after [n] ticks is
    [(phase + n * phaseStep) mod 256]: ticks add up, whatever the step, and
    the accumulator is back where it started after every 256 of them. The
    waveform, the step and the amplitude scale are not touched by a tick. *)
Theorem X1_ticks_accumulate (s : WaveGen.state) (n : nat) :
  WaveGen.wf s <> Square -> 0 <= WaveGen.phase s < WaveGen.LUT_N ->
  WaveGen.phase (ticks n s) =
    (WaveGen.phase s + Z.of_nat n * WaveGen.phaseStep s) mod WaveGen.LUT_N
  /\ WaveGen.phase (ticks (n + 256) s) = WaveGen.phase (ticks n s)
  /\ WaveGen.wf (ticks n s) = WaveGen.wf s
  /\ WaveGen.phaseStep (ticks n s) = WaveGen.phaseStep s
  /\ WaveGen.ampScale (ticks n s) = WaveGen.ampScale s.
Proof.
  intros Hw Hp.
  destruct (ticks_frame n s) as (H1 & H2 & H3 & _).
  split; [now apply ticks_phase|]. split; [|auto].
  rewrite !ticks_phase by assumption. unfold phase_after, WaveGen.LUT_N.
  rewrite Nat2Z.inj_add. change (Z.of_nat 256) with 256.
  replace (WaveGen.phase s + (Z.of_nat n + 256) * WaveGen.phaseStep s)
    with (WaveGen.phase s + Z.of_nat n * WaveGen.phaseStep s
          + WaveGen.phaseStep s * 256) by ring.
  apply Z.mod_add. lia.
Qed.

Lemma X1_ticks_accumulate_witness :
  let s := WaveGen.set_phaseStep 13 (WaveGen.boot sine_1k) in
  WaveGen.phase (ticks 100 s) = 20
  /\ WaveGen.phase (ticks (100 + 256) s) = WaveGen.phase (ticks 100 s).
Proof.
  intros s.
  destruct (X1_ticks_accumulate s 100) as (H1 & H2 & _).
  - vm_compute. discriminate.
  - vm_compute. split; [discriminate|reflexivity].
  - split; [rewrite H1; reflexivity | exact H2].
Defined.

Lemma indices_snoc (n : nat) (i : Z) :
  indices i (S n) = indices i n ++ [i + Z.of_nat n].
Proof.
  revert i. induction n as [|n IH]; intros i.
  - cbn. now rewrite Z.add_0_r.
  - change (indices i (S (S n))) with (i :: indices (i + 1) (S n)).
    rewrite IH. cbn [indices app]. do 2 f_equal. f_equal. lia.
Qed.




(** *** What every reachable state satisfies *)

Lemma wavegen_init_inv sinf (s s' : WaveGen.state) :
  WaveGen.wavegen_init sinf s = Some s' ->
  exists sn tr sw,
    WaveGen.build_from sinf 256 0 = Some (sn, tr, sw)
    /\ WaveGen.wavegen_apply (WaveGen.g s)
         (WaveGen.dac_output_enable
            (WaveGen.pinMode_output (WaveGen.set_luts sn tr sw s))) = Some s'.
Proof.
  unfold WaveGen.wavegen_init, WaveGen.build_luts_once, bind.
  change (Z.to_nat WaveGen.LUT_N) with 256%nat.
  destruct (WaveGen.build_from sinf 256 0) as [[[sn tr] sw]|]; [|discriminate].
  intros H. exists sn, tr, sw. split; [reflexivity | exact H].
Qed.

Lemma step_of_range (k : Z) : 1 <= step_of k <= 64.
Proof. rewrite step_of_clamp. apply clamp_range. Qed.

(** The fields [wavegen_apply] leaves alone, and the ones it sets. *)
Lemma wavegen_apply_fields (x : Settings) (s s' : WaveGen.state) :
  WaveGen.wavegen_apply x s = Some s' ->
  WaveGen.lut_sin s' = WaveGen.lut_sin s
  /\ WaveGen.lut_tri s' = WaveGen.lut_tri s
  /\ WaveGen.lut_saw s' = WaveGen.lut_saw s
  /\ WaveGen.dac_out s' = WaveGen.dac_out s
  /\ WaveGen.pin_output s' = WaveGen.pin_output s
  /\ WaveGen.ampScale s' = amp (applied_amp x) mod 256
  /\ WaveGen.wf s' = wave x
  /\ (wave x = Square ->
      WaveGen.tmr s' = None /\ WaveGen.dac_enabled s' = false
      /\ WaveGen.pwm_attached s' = true /\ WaveGen.pwm_duty s' = 128
      /\ WaveGen.pwm_bits s' = WaveGen.PWM_RES_BITS
      /\ WaveGen.periodUs s' = WaveGen.periodUs s
      /\ WaveGen.phaseStep s' = WaveGen.phaseStep s)
  /\ (wave x <> Square ->
      WaveGen.tmr s' = Some 50 /\ WaveGen.dac_enabled s' = true
      /\ WaveGen.pwm_attached s' = WaveGen.pwm_attached s
      /\ WaveGen.pwm_duty s' = WaveGen.pwm_duty s
      /\ WaveGen.pwm_bits s' = WaveGen.pwm_bits s
      /\ WaveGen.pwm_hz s' = WaveGen.pwm_hz s
      /\ WaveGen.periodUs s' = 50
      /\ 1 <= WaveGen.phaseStep s' <= 64).
Proof.
  intros H. destruct (wavegen_apply_cases _ _ _ H) as [Hw|Hw].
  - destruct (wavegen_apply_square _ _ _ Hw H) as (hz & _ & ->).
    repeat split; try reflexivity; try (symmetry; exact Hw); contradiction.
  - destruct (wavegen_apply_dac _ _ _ Hw H) as (st & _ & ->).
    repeat split; try reflexivity; try contradiction;
      cbn [WaveGen.phaseStep WaveGen.set_g WaveGen.set_tmr
           WaveGen.dac_output_enable WaveGen.set_dac_enabled
           WaveGen.set_phaseStep]; apply step_of_range.
Qed.

Lemma engine_inv_apply (x : Settings) (s s' : WaveGen.state) :
  engine_inv s -> WaveGen.wavegen_apply x s = Some s' -> engine_inv s'.
Proof.
  intros (I1 & I2 & I3 & I4 & I5 & I6 & I7) H.
  destruct (wavegen_apply_fields _ _ _ H)
    as (_ & _ & _ & _ & _ & Ha & Hwf & Hsq & Hdac).
  assert (Hamp : 0 <= WaveGen.ampScale s' <= 255).
  { rewrite Ha. pose proof (Z.mod_pos_bound (amp (applied_amp x)) 256 eq_refl).
    lia. }
  destruct (wavegen_apply_cases _ _ _ H) as [Hw|Hw].
  - destruct (Hsq Hw) as (T & D & A & Du & B & P & St).
    unfold engine_inv. rewrite T, D, A, Du, B, P, St.
    repeat split; auto; try lia; try congruence.
  - destruct (Hdac Hw) as (T & D & A & Du & B & _ & P & St).
    unfold engine_inv. rewrite T, D, A, Du, B, P.
    repeat split; auto; try lia; try congruence; now apply I7.
Qed.

Lemma reachable_engine_inv sinf (g0 : Settings) (s : WaveGen.state) :
  reachable sinf g0 s -> engine_inv s.
Proof.
  induction 1 as [|s s' _ IH Hi|s x s' _ IH Ha|s _ IH].
  - unfold engine_inv. cbn. repeat split; auto; try lia; discriminate.
  - destruct (wavegen_init_inv _ _ _ Hi) as (sn & tr & sw & _ & Ha).
    refine (engine_inv_apply _ _ _ _ Ha).
    destruct IH as (I1 & I2 & I3 & I4 & I5 & I6 & I7).
    unfold engine_inv. cbn. repeat split; auto; try lia; now apply I7.
  - exact (engine_inv_apply _ _ _ IH Ha).
  - destruct IH as (I1 & I2 & I3 & I4 & I5 & I6 & I7).
    destruct (on_timer_frame s) as (F1 & F2 & F3 & _ & _ & _ & F7 & F8).
    assert (F9 : WaveGen.dac_enabled (WaveGen.on_timer s) = WaveGen.dac_enabled s
                 /\ WaveGen.pwm_attached (WaveGen.on_timer s) = WaveGen.pwm_attached s
                 /\ WaveGen.pwm_duty (WaveGen.on_timer s) = WaveGen.pwm_duty s
                 /\ WaveGen.pwm_bits (WaveGen.on_timer s) = WaveGen.pwm_bits s).
    { unfold WaveGen.on_timer.
      destruct (Waveform_eqb (WaveGen.wf s) Square); repeat split. }
    destruct F9 as (F9 & F10 & F11 & F12).
    unfold engine_inv. rewrite F1, F2, F3, F7, F8, F9, F10, F11, F12.
    repeat split; auto; try lia; now apply I7.
Qed.

(** X3: in every state the module can reach the sample clock is either
    stopped or running at the fixed 50 us period; the phase step is in
    [[1, 64]] and the amplitude scale a byte; in square mode the clock is
    stopped, and whenever it runs the DAC output is enabled. *)
Theorem X3_sample_clock_invariant sinf (g0 : Settings) (s : WaveGen.state) :
  reachable sinf g0 s ->
  WaveGen.periodUs s = 50
  /\ (WaveGen.tmr s = None \/ WaveGen.tmr s = Some 50)
  /\ 1 <= WaveGen.phaseStep s <= 64
  /\ 0 <= WaveGen.ampScale s <= 255
  /\ (WaveGen.wf s = Square -> WaveGen.tmr s = None)
  /\ (WaveGen.tmr s <> None -> WaveGen.dac_enabled s = true).
Proof.
  intros H. destruct (reachable_engine_inv _ _ _ H)
    as (I1 & I2 & I3 & I4 & I5 & I6 & _).
  repeat split; auto; lia.
Qed.

Lemma X3_sample_clock_invariant_witness :
  exists s,
    WaveGen.wavegen_apply square_2k (WaveGen.on_timer (WaveGen.boot sine_1k))
      = Some s
    /\ WaveGen.periodUs s = 50
    /\ 1 <= WaveGen.phaseStep s <= 64
    /\ WaveGen.tmr s = None.
Proof.
  destruct (WaveGen.wavegen_apply square_2k
              (WaveGen.on_timer (WaveGen.boot sine_1k))) as [s|] eqn:E.
  - exists s. split; [reflexivity|].
    destruct (X3_sample_clock_invariant (fun x => x) sine_1k s)
      as (H1 & _ & H3 & _ & H5 & _).
    + eapply reach_apply; [|exact E]. apply reach_tick, reach_boot.
    + split; [exact H1|]. split; [exact H3|]. apply H5.
      exact (wavegen_apply_wf _ _ _ E).
  - vm_compute in E. discriminate.
Defined.

(** X4: whenever the PWM channel is attached to the square pin it runs at
    8 bits with the duty 128, that is at 50 %, in every reachable state. *)
Theorem X4_pwm_half_duty sinf (g0 : Settings) (s : WaveGen.state) :
  reachable sinf g0 s ->
  WaveGen.pwm_attached s = true ->
  WaveGen.pwm_bits s = WaveGen.PWM_RES_BITS
  /\ 2 * WaveGen.pwm_duty s = 2 ^ WaveGen.pwm_bits s.
Proof.
  intros H Ha. destruct (reachable_engine_inv _ _ _ H)
    as (_ & _ & _ & _ & _ & _ & I7).
  destruct (I7 Ha) as [-> ->]. split; reflexivity.
Qed.

Lemma X4_pwm_half_duty_witness :
  exists s,
    WaveGen.wavegen_apply square_2k (WaveGen.boot sine_1k) = Some s
    /\ WaveGen.pwm_attached s = true
    /\ WaveGen.pwm_bits s = WaveGen.PWM_RES_BITS
    /\ 2 * WaveGen.pwm_duty s = 2 ^ WaveGen.pwm_bits s.
Proof.
  destruct (WaveGen.wavegen_apply square_2k (WaveGen.boot sine_1k))
    as [s|] eqn:E.
  - exists s. split; [reflexivity|].
    assert (Ha : WaveGen.pwm_attached s = true).
    { destruct (wavegen_apply_fields _ _ _ E)
        as (_ & _ & _ & _ & _ & _ & _ & Hsq & _).
      now destruct (Hsq eq_refl) as (_ & _ & A & _). }
    split; [exact Ha|].
    apply (X4_pwm_half_duty (fun x => x) sine_1k s); [|exact Ha].
    eapply reach_apply; [apply reach_boot | exact E].
  - vm_compute in E. discriminate.
Defined.

(** *** The tables as arrays of bytes *)

Lemma build_from_bytes sinf (n : nat) :
  forall i sn tr sw,
    WaveGen.build_from sinf n i = Some (sn, tr, sw) ->
    List.length sn = n /\ Forall (fun v => 0 <= v <= 255) sn.
Proof.
  induction n as [|n IH]; intros i sn tr sw H; cbn in H.
  - injection H as <- <- <-. split; [reflexivity | constructor].
  - unfold bind in H.
    destruct (WaveGen.sin_entry sinf i) as [a|] eqn:Ea; [|discriminate].
    destruct (WaveGen.build_from sinf n (i + 1)) as [[[sn' tr'] sw']|] eqn:Eb;
      [|discriminate].
    injection H as <- <- <-.
    destruct (IH _ _ _ _ Eb) as (Hl & Hf).
    split; [cbn; now rewrite Hl|]. constructor; [|exact Hf].
    unfold WaveGen.sin_entry, WaveGen.sine_code in Ea.
    apply to_unsigned_range in Ea. change (2 ^ 8) with 256 in Ea. lia.
Qed.

Lemma map_bytes (f : Z -> Z) (l : list Z) :
  (forall i, 0 <= f i <= 255) -> Forall (fun v => 0 <= v <= 255) (map f l).
Proof. intros H. apply Forall_forall. intros v Hv. apply in_map_iff in Hv as (i & <- & _). apply H. Qed.

Lemma tri_entry_byte (i : Z) : 0 <= WaveGen.tri_entry i <= 255.
Proof.
  unfold WaveGen.tri_entry. destruct (i <? 128).
  - pose proof (Z.mod_pos_bound (i * 2) 256 eq_refl). lia.
  - pose proof (Z.mod_pos_bound ((255 - i) * 2) 256 eq_refl). lia.
Qed.

Lemma saw_entry_byte (i : Z) : 0 <= WaveGen.saw_entry i <= 255.
Proof.
  unfold WaveGen.saw_entry. pose proof (Z.mod_pos_bound i 256 eq_refl). lia.
Qed.

Lemma build_from_byte_tables sinf sn tr sw :
  WaveGen.build_from sinf 256 0 = Some (sn, tr, sw) ->
  byte_table sn /\ byte_table tr /\ byte_table sw.
Proof.
  intros H. destruct (build_from_bytes _ _ _ _ _ _ H) as (Hl & Hf).
  destruct (build_from_tables _ _ _ _ _ _ H) as (-> & -> & _).
  unfold byte_table. rewrite Hl, !length_map, indices_len.
  repeat split; auto using map_bytes, tri_entry_byte, saw_entry_byte.
Qed.

Lemma reachable_byte_tables sinf (g0 : Settings) (s : WaveGen.state) :
  reachable sinf g0 s ->
  byte_table (WaveGen.lut_sin s) /\ byte_table (WaveGen.lut_tri s)
  /\ byte_table (WaveGen.lut_saw s).
Proof.
  induction 1 as [|s s' _ IH Hi|s x s' _ IH Ha|s _ IH].
  - assert (byte_table (repeat 0 256)).
    { split; [reflexivity|]. apply Forall_forall. intros v Hv.
      apply repeat_spec in Hv. lia. }
    cbn. auto.
  - destruct (wavegen_init_inv _ _ _ Hi) as (sn & tr & sw & Hb & Ha).
    destruct (wavegen_apply_fields _ _ _ Ha) as (-> & -> & -> & _).
    cbn. now apply (build_from_byte_tables sinf).
  - destruct (wavegen_apply_fields _ _ _ Ha) as (-> & -> & -> & _). exact IH.
  - destruct (on_timer_frame s) as (_ & _ & _ & -> & -> & -> & _). exact IH.
Qed.

Lemma byte_table_nth (l : list Z) (i : Z) :
  byte_table l -> 0 <= i < 256 ->
  (Z.to_nat i < List.length l)%nat /\ 0 <= nth (Z.to_nat i) l 0 <= 255.
Proof.
  intros [Hl Hf] Hi. unfold WaveGen.LUT_N in Hl.
  assert (Hn : (Z.to_nat i < List.length l)%nat) by lia.
  split; [exact Hn|].
  rewrite Forall_forall in Hf. apply Hf. now apply nth_In.
Qed.

(** X5: in every reachable state each of the three tables holds exactly
    256 bytes, so the index [phase & 255] that [on_timer] computes is inside
    the table whatever the accumulator holds, and the sample it reads is in
    [[0, 255]] for every waveform. *)
Theorem X5_table_reads_in_bounds sinf (g0 : Settings) (s : WaveGen.state)
    (p : Z) (w : Waveform) :
  reachable sinf g0 s ->
  Z.of_nat (List.length (WaveGen.lut_sin s)) = 256
  /\ Z.of_nat (List.length (WaveGen.lut_tri s)) = 256
  /\ Z.of_nat (List.length (WaveGen.lut_saw s)) = 256
  /\ 0 <= Z.land p (WaveGen.LUT_N - 1) < 256
  /\ 0 <= WaveGen.lut_get_sample s w (Z.land p (WaveGen.LUT_N - 1)) <= 255.
Proof.
  intros H. destruct (reachable_byte_tables _ _ _ H) as (Hs & Ht & Hw).
  assert (Hi : 0 <= Z.land p (WaveGen.LUT_N - 1) < 256).
  { change (WaveGen.LUT_N - 1) with 255. rewrite land_255.
    apply Z.mod_pos_bound. reflexivity. }
  split; [apply Hs|]. split; [apply Ht|]. split; [apply Hw|].
  split; [exact Hi|].
  destruct w; cbn [WaveGen.lut_get_sample]; try lia;
    now apply byte_table_nth.
Qed.

Lemma X5_table_reads_in_bounds_witness :
  exists s,
    WaveGen.wavegen_init (fun _ => F32.one) (WaveGen.boot sine_1k) = Some s
    /\ Z.of_nat (List.length (WaveGen.lut_sin s)) = 256
    /\ 0 <= WaveGen.lut_get_sample s Sine (Z.land 1000 (WaveGen.LUT_N - 1)) <= 255.
Proof.
  destruct (WaveGen.wavegen_init (fun _ => F32.one) (WaveGen.boot sine_1k))
    as [s|] eqn:E.
  - exists s. split; [reflexivity|].
    destruct (X5_table_reads_in_bounds (fun _ => F32.one) sine_1k s 1000 Sine)
      as (H1 & _ & _ & _ & H5).
    + eapply reach_init; [apply reach_boot | exact E].
    + exact (conj H1 H5).
  - vm_compute in E. discriminate.
Defined.

(** X6: [wavegen_init] leaves the sawtooth table as the ramp 0, 1, ...,
    255 (entry [i] is [i]), whatever [sinf] computes, as long as the sine
    entries convert at all. *)
Theorem X6_saw_table_is_ramp sinf (s s' : WaveGen.state) (i : Z) :
  WaveGen.wavegen_init sinf s = Some s' -> 0 <= i < 256 ->
  Z.of_nat (List.length (WaveGen.lut_saw s')) = 256
  /\ nth (Z.to_nat i) (WaveGen.lut_saw s') 0 = i
  /\ WaveGen.lut_get_sample s' Saw i = i.
Proof.
  intros H Hi. destruct (wavegen_init_inv _ _ _ H) as (sn & tr & sw & Hb & Ha).
  destruct (wavegen_apply_fields _ _ _ Ha) as (_ & _ & Hsaw & _).
  cbn in Hsaw.
  destruct (build_from_tables _ _ _ _ _ _ Hb) as (_ & -> & _).
  assert (E : nth (Z.to_nat i) (WaveGen.lut_saw s') 0 = i).
  { rewrite Hsaw.
    rewrite (nth_indep _ 0 (WaveGen.saw_entry 0))
      by (rewrite length_map, indices_len; lia).
    rewrite map_nth, indices_at by lia.
    unfold WaveGen.saw_entry. rewrite Z.mod_small; lia. }
  split; [|split; [exact E | exact E]].
  rewrite Hsaw, length_map, indices_len. reflexivity.
Qed.

Lemma X6_saw_table_is_ramp_witness :
  exists s,
    WaveGen.wavegen_init (fun _ => F32.one) (WaveGen.boot sine_1k) = Some s
    /\ nth 200 (WaveGen.lut_saw s) 0 = 200.
Proof.
  destruct (WaveGen.wavegen_init (fun _ => F32.one) (WaveGen.boot sine_1k))
    as [s|] eqn:E.
  - exists s. split; [reflexivity|].
    destruct (X6_saw_table_is_ramp _ _ _ 200 E) as (_ & H & _); [lia|].
    exact H.
  - vm_compute in E. discriminate.
Defined.

(** *** The square path *)

Lemma pwm_max_normal :
  pos_normal (F32.of_Z WaveGen.PWM_MAX_HZ) (2 ^ 200) (10000000 * 2 ^ 200).
Proof.
  exists 10000000%positive, 0. repeat split; try reflexivity; lia.
Qed.

Lemma one_normal_pwm : pos_normal F32.one (2 ^ 200) (10000000 * 2 ^ 200).
Proof.
  exists 8388608%positive, (-23). repeat split; try reflexivity; lia.
Qed.

Lemma pwm_target_normal (t : F32.float) :
  F32.valid t = true -> t <> S754_nan ->
  pos_normal (pwm_target t) (2 ^ 200) (10000000 * 2 ^ 200).
Proof.
  intros Hv Hn. destruct t as [s|s| |s m e].
  - destruct s; exact one_normal_pwm.
  - destruct s; [exact one_normal_pwm | exact pwm_max_normal].
  - contradiction.
  - destruct s; [exact one_normal_pwm|].
    unfold pwm_target. cbv zeta.
    change F32.one with (S754_finite false 8388608 (-23)).
    destruct (F32.ltb (S754_finite false m e) _) eqn:E1; [exact one_normal_pwm|].
    change (F32.of_Z WaveGen.PWM_MAX_HZ) with (S754_finite false 10000000 0).
    destruct (F32.gtb (S754_finite false m e) _) eqn:E2; [exact pwm_max_normal|].
    change (F32.ltb (S754_finite false 10000000 0) (S754_finite false m e)
            = false) in E2.
    assert (H1 : ~ (e < -23 \/ (e = -23 /\ Zpos m < 8388608))).
    { intros H. apply ltb_finite in H. congruence. }
    assert (H2 : ~ (0 < e \/ (0 = e /\ 10000000 < Zpos m))).
    { intros H. apply ltb_finite in H. congruence. }
    destruct (valid_normal _ _ Hv ltac:(lia)) as [Hd He'].
    pose proof (proj1 (digits_24 m) Hd) as Hm'.
    exists m, e. split; [reflexivity|]. split; [exact Hd|]. split; [lia|].
    assert (e = -23 \/ e = 0 \/ -22 <= e <= -1) as [->|[->|He]] by lia.
    + change (2 ^ (-23 + 200)) with (2 ^ 177). pow_const. lia.
    + change (2 ^ (0 + 200)) with (2 ^ 200). pow_const. lia.
    + assert (2 ^ 178 <= 2 ^ (e + 200)) by (apply Z.pow_le_mono_r; lia).
      assert (2 ^ (e + 200) <= 2 ^ 199) by (apply Z.pow_le_mono_r; lia).
      pow_const. nia.
Qed.

Lemma pwm_target_in_range (t : F32.float) :
  F32.leb F32.one t = true -> F32.leb t (F32.of_Z WaveGen.PWM_MAX_HZ) = true ->
  pwm_target t = t.
Proof.
  change F32.one with (S754_finite false 8388608 (-23)).
  change (F32.of_Z WaveGen.PWM_MAX_HZ) with (S754_finite false 10000000 0).
  intros H1 H2. destruct t as [s|s| |s m e].
  - exfalso. revert H1. unfold F32.leb, SFleb. cbn [SFcompare]. discriminate.
  - exfalso. destruct s.
    + revert H1. unfold F32.leb, SFleb. cbn [SFcompare]. discriminate.
    + revert H2. unfold F32.leb, SFleb. cbn [SFcompare]. discriminate.
  - exfalso. revert H1. unfold F32.leb, SFleb. cbn [SFcompare]. discriminate.
  - destruct s.
    { exfalso. revert H1. unfold F32.leb, SFleb. cbn [SFcompare]. discriminate. }
    apply leb_finite in H1, H2.
    unfold pwm_target. cbv zeta.
    change F32.one with (S754_finite false 8388608 (-23)).
    change (F32.of_Z WaveGen.PWM_MAX_HZ) with (S754_finite false 10000000 0).
    destruct (F32.ltb (S754_finite false m e) _) eqn:E1.
    { apply ltb_finite in E1. lia. }
    destruct (F32.gtb (S754_finite false m e) _) eqn:E2; [|reflexivity].
    change (F32.ltb (S754_finite false 10000000 0) (S754_finite false m e)
            = true) in E2.
    apply ltb_finite in E2. lia.
Qed.

(** The integral part of a positive float is its floor. *)
Lemma trunc_floor (m : positive) (e : Z) :
  F32.trunc (S754_finite false m e) =
    Some (Qfloor (F32.to_Q (S754_finite false m e))).
Proof.
  unfold F32.trunc, F32.to_Q. destruct e as [|p|p]; cbn [Qfloor inject_Z].
  - now rewrite Z.div_1_r.
  - now rewrite Z.div_1_r.
  - now rewrite Pos2Z.inj_pow.
Qed.

Lemma pwm_hz_defined (t : F32.float) :
  F32.valid t = true -> t <> S754_nan ->
  exists hz,
    F32.to_unsigned 32 (pwm_target t) = Some hz
    /\ hz = Qfloor (F32.to_Q (pwm_target t))
    /\ 1 <= hz <= WaveGen.PWM_MAX_HZ.
Proof.
  intros Hv Hn.
  destruct (pwm_target_normal t Hv Hn) as (m & e & -> & Hd & He & Hlo & Hhi).
  pose proof (proj1 (digits_24 m) Hd) as Hm.
  assert (He1 : -23 <= e) by (apply (exp_lower (Zpos m) e 200); lia).
  assert (HT : 0 < 2 ^ 200) by (apply pow2_pos; lia).
  assert (Hz : 1 <= Zpos m * 2 ^ (e + 200) / 2 ^ 200 <= 10000000).
  { split.
    - apply Z.div_le_lower_bound; lia.
    - apply Z.div_le_upper_bound; lia. }
  exists (Zpos m * 2 ^ (e + 200) / 2 ^ 200).
  assert (Ht : F32.trunc (S754_finite false m e)
               = Some (Zpos m * 2 ^ (e + 200) / 2 ^ 200))
    by (apply trunc_scaled; lia).
  split; [|split; [|exact Hz]].
  - unfold F32.to_unsigned. rewrite Ht.
    destruct (Z.leb_spec 0 (Zpos m * 2 ^ (e + 200) / 2 ^ 200)); [|lia].
    destruct (Z.ltb_spec (Zpos m * 2 ^ (e + 200) / 2 ^ 200) (2 ^ 32));
      [reflexivity|].
    change (2 ^ 32) with 4294967296 in *. lia.
  - rewrite trunc_floor in Ht. congruence.
Qed.

(** X7: for every binary32 target but NaN [configure_square] returns:
    the PWM channel is set up at the integral part of the target clamped
    into [[1, PWM_MAX_HZ]] (the target itself when it is in that range), at 8
    bits with the duty 128, and attached; the sample timer is deleted and the
    DAC output disabled. *)
Theorem X7_square_pwm_frequency (t : F32.float) (s : WaveGen.state) :
  F32.valid t = true -> t <> S754_nan ->
  exists s',
    WaveGen.configure_square t s = Some s'
    /\ WaveGen.pwm_hz s' = Qfloor (F32.to_Q (pwm_target t))
    /\ 1 <= WaveGen.pwm_hz s' <= WaveGen.PWM_MAX_HZ
    /\ (F32.leb F32.one t = true ->
        F32.leb t (F32.of_Z WaveGen.PWM_MAX_HZ) = true -> pwm_target t = t)
    /\ WaveGen.pwm_bits s' = 8 /\ WaveGen.pwm_duty s' = 128
    /\ WaveGen.pwm_attached s' = true
    /\ WaveGen.tmr s' = None /\ WaveGen.dac_enabled s' = false.
Proof.
  intros Hv Hn. destruct (pwm_hz_defined t Hv Hn) as (hz & Hz & Hf & Hr).
  rewrite configure_square_eq, Hz, timer_stop_frame. unfold bind.
  eexists. split; [reflexivity|].
  cbn. rewrite <- Hf. repeat split; try lia. apply pwm_target_in_range.
Qed.

Lemma X7_square_pwm_frequency_witness :
  exists s',
    WaveGen.configure_square (F32.lit 5 (-1)) (WaveGen.boot square_2k) = Some s'
    /\ WaveGen.pwm_hz s' = 2
    /\ WaveGen.pwm_duty s' = 128
    /\ WaveGen.tmr s' = None.
Proof.
  destruct (X7_square_pwm_frequency (F32.lit 5 (-1)) (WaveGen.boot square_2k))
    as (s' & E & H1 & _ & _ & _ & H2 & _ & H3 & _);
    [reflexivity | discriminate |].
  exists s'. split; [exact E|]. split; [rewrite H1; reflexivity|].
  split; [exact H2 | exact H3].
Defined.

(** *** [wavegen_apply] as a whole *)

Lemma dac_step_defined (t : F32.float) :
  F32.valid t = true -> t <> S754_nan ->
  exists st, F32.to_unsigned 16 (F32.add (ideal_step t) F32.half) = Some st.
Proof.
  intros Hv Hn.
  pose proof (div_fs_normal _ (mul_256_normal _ (dac_target_normal t Hv Hn)))
    as H2.
  fold (ideal_step t) in H2.
  destruct H2 as (mi & ei & -> & Hd & He & HY).
  destruct (add_half_trunc mi ei Hd He HY) as (k & Hk & _).
  now exists k.
Qed.

(** X8: [wavegen_apply] has a defined result for every waveform, amplitude
    and binary32 target frequency, except a NaN target: then the conversion
    of the frequency to an integer has none, on either path. *)
Theorem X8_apply_defined_unless_nan (x : Settings) (s : WaveGen.state) :
  F32.valid (targetHz x) = true ->
  (exists s', WaveGen.wavegen_apply x s = Some s') <-> targetHz x <> S754_nan.
Proof.
  intros Hv. rewrite wavegen_apply_eq. split.
  - intros (s' & H) Hn. rewrite Hn in H.
    destruct (Waveform_eqb (wave x) Square); discriminate H.
  - intros Hn. destruct (Waveform_eqb (wave x) Square).
    + destruct (pwm_hz_defined _ Hv Hn) as (hz & Hz & _).
      rewrite configure_square_eq, Hz. unfold bind. eexists. reflexivity.
    + destruct (dac_step_defined _ Hv Hn) as (st & Hst).
      rewrite configure_dac_wave_eq, Hst. unfold bind. eexists. reflexivity.
Qed.

Lemma X8_apply_defined_unless_nan_witness :
  (exists s', WaveGen.wavegen_apply sine_1k (WaveGen.boot sine_1k) = Some s')
  <-> targetHz sine_1k <> S754_nan.
Proof. apply X8_apply_defined_unless_nan. reflexivity. Defined.

(** X9: what [wavegen_get] returns after [wavegen_apply x]: the waveform
    and the target of [x], the amplitude of [x] limited to 255, which is also
    the scale the timer callback uses, and, outside square mode, as achieved
    frequency the value [fs * phaseStep / N] for the step just written. *)
Theorem X9_get_after_apply (x : Settings) (s s' : WaveGen.state) :
  WaveGen.wavegen_apply x s = Some s' ->
  wave (WaveGen.wavegen_get s') = wave x
  /\ targetHz (WaveGen.wavegen_get s') = targetHz x
  /\ amp (WaveGen.wavegen_get s') = Z.min (amp x) 255
  /\ WaveGen.ampScale s' = amp (WaveGen.wavegen_get s') mod 256
  /\ (0 <= amp x -> WaveGen.ampScale s' = amp (WaveGen.wavegen_get s'))
  /\ (wave x <> Square ->
      actualHz (WaveGen.wavegen_get s') = actual_of (WaveGen.phaseStep s')).
Proof.
  intros H.
  assert (Ea : amp (applied_amp x) = Z.min (amp x) 255).
  { unfold applied_amp. destruct (Z.gtb_spec (amp x) 255); cbn; lia. }
  assert (Ew : wave (applied_amp x) = wave x
               /\ targetHz (applied_amp x) = targetHz x).
  { unfold applied_amp. destruct (amp x >? 255); split; reflexivity. }
  destruct Ew as [Ew Et].
  destruct (wavegen_apply_cases _ _ _ H) as [Hw|Hw].
  - destruct (wavegen_apply_square _ _ _ Hw H) as (hz & _ & ->).
    cbn. rewrite Ew, Et, Ea. repeat split; try contradiction.
    intros Ha. apply Z.mod_small. lia.
  - destruct (wavegen_apply_dac _ _ _ Hw H) as (st & _ & ->).
    cbn. rewrite Ew, Et, Ea. repeat split.
    intros Ha. apply Z.mod_small. lia.
Qed.

Lemma X9_get_after_apply_witness :
  exists s',
    WaveGen.wavegen_apply (mkSettings Tri (F32.of_Z 440) F32.zero 300)
      (WaveGen.boot sine_1k) = Some s'
    /\ wave (WaveGen.wavegen_get s') = Tri
    /\ amp (WaveGen.wavegen_get s') = 255
    /\ WaveGen.ampScale s' = 255.
Proof.
  destruct (WaveGen.wavegen_apply (mkSettings Tri (F32.of_Z 440) F32.zero 300)
              (WaveGen.boot sine_1k)) as [s'|] eqn:E.
  - exists s'. split; [reflexivity|].
    destruct (X9_get_after_apply _ _ _ E) as (H1 & _ & H3 & _ & H5 & _).
    split; [exact H1|]. split; [exact H3|].
    rewrite H5, H3; [reflexivity | cbn; lia].
  - vm_compute in E. discriminate.
Defined.

Ltac wg_fields :=
  cbv beta iota delta [WaveGen.g WaveGen.lut_sin WaveGen.lut_tri WaveGen.lut_saw WaveGen.phase
       WaveGen.phaseStep WaveGen.ampScale WaveGen.wf WaveGen.tmr
       WaveGen.periodUs WaveGen.dac_enabled WaveGen.dac_out
       WaveGen.pwm_attached WaveGen.pwm_hz WaveGen.pwm_bits WaveGen.pwm_duty
       WaveGen.pin_output
       WaveGen.set_g WaveGen.set_luts WaveGen.set_phase WaveGen.set_phaseStep
       WaveGen.set_ampScale WaveGen.set_wf WaveGen.set_tmr
       WaveGen.set_periodUs WaveGen.set_dac_enabled WaveGen.set_dac_out
       WaveGen.set_pwm_attached WaveGen.set_pwm_cfg WaveGen.set_pwm_duty
       WaveGen.set_pin_output
       WaveGen.dac_output_enable WaveGen.dac_output_disable
       WaveGen.ledcDetachPin WaveGen.ledcAttachPin WaveGen.ledcSetup
       WaveGen.ledcWrite WaveGen.pinMode_output
       WaveGen.with_amp WaveGen.with_actualHz wave targetHz actualHz amp].

(** X10: applying the same settings again changes nothing: the state
    after [wavegen_apply x] is a fixed point of [wavegen_apply x]. *)
Theorem X10_apply_idempotent (x : Settings) (s s' : WaveGen.state) :
  WaveGen.wavegen_apply x s = Some s' ->
  WaveGen.wavegen_apply x s' = Some s'.
Proof.
  intros H. destruct (wavegen_apply_cases _ _ _ H) as [Hw|Hw].
  - destruct (wavegen_apply_square _ _ _ Hw H) as (hz & Hz & ->).
    rewrite wavegen_apply_eq, Hw. cbn [Waveform_eqb].
    rewrite configure_square_eq, Hz, timer_stop_frame. unfold bind.
    unfold pre_apply, applied_amp.
    destruct s as [g0 l1 l2 l3 ph ps am w t pu de dout pa phz pb pd po].
    destruct x as [xw xt xa xm].
    destruct (_ >? 255); wg_fields; reflexivity.
  - destruct (wavegen_apply_dac _ _ _ Hw H) as (st & Hst & ->).
    rewrite wavegen_apply_eq.
    destruct (Waveform_eqb (wave x) Square) eqn:E.
    { apply Waveform_eqb_eq in E. contradiction. }
    rewrite configure_dac_wave_eq, Hst. unfold bind. rewrite timer_start_frame.
    cbv beta iota delta [fst snd].
    unfold pre_apply, applied_amp.
    destruct s as [g0 l1 l2 l3 ph ps am w t pu de dout pa phz pb pd po].
    destruct x as [xw xt xa xm].
    destruct (_ >? 255); wg_fields; reflexivity.
Qed.

Lemma X10_apply_idempotent_witness :
  exists s',
    WaveGen.wavegen_apply square_2k (WaveGen.boot sine_1k) = Some s'
    /\ WaveGen.wavegen_apply square_2k s' = Some s'.
Proof.
  destruct (WaveGen.wavegen_apply square_2k (WaveGen.boot sine_1k))
    as [s'|] eqn:E.
  - exists s'. split; [reflexivity|]. exact (X10_apply_idempotent _ _ _ E).
  - vm_compute in E. discriminate.
Defined.

(** *** The sketch: amplitude scaling around mid-scale *)

Lemma clampi_id (x lo hi : Z) : lo <= x <= hi -> MainV1.clampi x lo hi = x.
Proof.
  intros H. unfold MainV1.clampi.
  destruct (Z.ltb_spec x lo); [lia|]. destruct (Z.gtb_spec x hi); lia.
Qed.

Lemma clampi_range (x lo hi : Z) :
  lo <= hi -> lo <= MainV1.clampi x lo hi <= hi.
Proof.
  intros H. unfold MainV1.clampi.
  destruct (Z.ltb_spec x lo); [lia|]. destruct (Z.gtb_spec x hi); lia.
Qed.

Lemma quot_scaled_bounds (c a : Z) :
  -128 <= c <= 127 -> 0 <= a <= 255 -> -128 <= Z.quot (c * a) 255 <= 127.
Proof.
  intros Hc Ha. destruct (Z.le_gt_cases 0 c) as [H|H].
  - rewrite Z.quot_div_nonneg by nia. split.
    + assert (0 <= c * a / 255) by (apply Z.div_pos; nia). lia.
    + apply Z.div_le_upper_bound; nia.
  - replace (c * a) with (- ((- c) * a)) by ring.
    rewrite Z.quot_opp_l by lia. rewrite Z.quot_div_nonneg by nia.
    assert (0 <= - c * a / 255) by (apply Z.div_pos; nia).
    assert (- c * a / 255 <= 128) by (apply Z.div_le_upper_bound; nia).
    lia.
Qed.

(** X11: for a table byte and an amplitude in [[0, 255]] the sketch's
    [applyAmplitude] never needs its clamp: the code is
    [128 + (base - 128) * amplitude / 255] with the quotient truncated toward
    zero, it lies in [[0, 255]], it is [base] itself at amplitude 255 (nothing
    is lost at full scale) and 128 at amplitude 0, and it mirrors around 128:
    the codes for [128 + d] and [128 - d] are equally far from 128. *)
Theorem X11_applyAmplitude_centred (s : MainV1.state) (base : Z) :
  0 <= base <= 255 -> 0 <= MainV1.amplitude s <= 255 ->
  MainV1.applyAmplitude s base =
    128 + Z.quot ((base - 128) * MainV1.amplitude s) 255
  /\ 0 <= MainV1.applyAmplitude s base <= 255
  /\ (MainV1.amplitude s = 255 -> MainV1.applyAmplitude s base = base)
  /\ (MainV1.amplitude s = 0 -> MainV1.applyAmplitude s base = 128)
  /\ (1 <= base ->
      MainV1.applyAmplitude s (256 - base) - 128 =
        128 - MainV1.applyAmplitude s base).
Proof.
  intros Hb Ha.
  assert (E : forall b, 0 <= b <= 255 ->
            MainV1.applyAmplitude s b =
              128 + Z.quot ((b - 128) * MainV1.amplitude s) 255).
  { intros b Hb'. unfold MainV1.applyAmplitude. cbv zeta.
    pose proof (quot_scaled_bounds (b - 128) (MainV1.amplitude s)
                  ltac:(lia) Ha).
    rewrite clampi_id by lia. apply Z.mod_small. lia. }
  pose proof (quot_scaled_bounds (base - 128) (MainV1.amplitude s)
                ltac:(lia) Ha) as Hq.
  split; [now apply E|]. split; [rewrite E by lia; lia|].
  split; [|split].
  - intros Hf. rewrite E, Hf by lia. rewrite Z.quot_mul by lia. lia.
  - intros Hz. rewrite E, Hz by lia. rewrite Z.mul_0_r. reflexivity.
  - intros H1. rewrite !E by lia.
    replace ((256 - base - 128) * MainV1.amplitude s)
      with (- ((base - 128) * MainV1.amplitude s)) by ring.
    rewrite Z.quot_opp_l by lia. lia.
Qed.

Lemma X11_applyAmplitude_centred_witness :
  MainV1.applyAmplitude v1_square_7 200 = 173
  /\ MainV1.applyAmplitude v1_square_7 (256 - 200) - 128 =
       128 - MainV1.applyAmplitude v1_square_7 200.
Proof.
  destruct (X11_applyAmplitude_centred v1_square_7 200) as (H1 & _ & _ & _ & H5).
  - lia.
  - cbn. lia.
  - split; [rewrite H1; reflexivity | apply H5; lia].
Defined.

(** *** The sketch: the sample callback over many ticks *)

Lemma waveTimerCb_step (s : MainV1.state) :
  MainV1.phaseIdx (MainV1.waveTimerCb s) = (MainV1.phaseIdx s + 1) mod 256
  /\ MainV1.dac_out (MainV1.waveTimerCb s) =
       MainV1.applyAmplitude s (v1_base s (MainV1.phaseIdx s mod 256))
       :: MainV1.dac_out s
  /\ MainV1.mode (MainV1.waveTimerCb s) = MainV1.mode s
  /\ MainV1.amplitude (MainV1.waveTimerCb s) = MainV1.amplitude s
  /\ MainV1.lutSine (MainV1.waveTimerCb s) = MainV1.lutSine s
  /\ MainV1.lutTri (MainV1.waveTimerCb s) = MainV1.lutTri s
  /\ MainV1.lutSaw (MainV1.waveTimerCb s) = MainV1.lutSaw s.
Proof.
  unfold MainV1.waveTimerCb, v1_base. cbv zeta.
  cbn [MainV1.phaseIdx MainV1.dac_out MainV1.mode MainV1.amplitude
       MainV1.lutSine MainV1.lutTri MainV1.lutSaw
       MainV1.set_phaseIdx MainV1.set_dac_out].
  rewrite !land_255. repeat split.
Qed.

Lemma v1_ticks_S (n : nat) (s : MainV1.state) :
  v1_ticks (S n) s = MainV1.waveTimerCb (v1_ticks n s).
Proof. reflexivity. Qed.

Lemma v1_ticks_frame (n : nat) (s : MainV1.state) :
  MainV1.mode (v1_ticks n s) = MainV1.mode s
  /\ MainV1.amplitude (v1_ticks n s) = MainV1.amplitude s
  /\ MainV1.lutSine (v1_ticks n s) = MainV1.lutSine s
  /\ MainV1.lutTri (v1_ticks n s) = MainV1.lutTri s
  /\ MainV1.lutSaw (v1_ticks n s) = MainV1.lutSaw s.
Proof.
  induction n as [|n IH]; [repeat split|].
  rewrite v1_ticks_S.
  destruct (waveTimerCb_step (v1_ticks n s)) as (_ & _ & H1 & H2 & H3 & H4 & H5).
  destruct IH as (I1 & I2 & I3 & I4 & I5).
  repeat split; congruence.
Qed.

Lemma applyAmplitude_frame (s s' : MainV1.state) (b : Z) :
  MainV1.amplitude s' = MainV1.amplitude s ->
  MainV1.applyAmplitude s' b = MainV1.applyAmplitude s b.
Proof. intros H. unfold MainV1.applyAmplitude. now rewrite H. Qed.

Lemma v1_base_frame (n : nat) (s : MainV1.state) (i : Z) :
  v1_base (v1_ticks n s) i = v1_base s i.
Proof.
  destruct (v1_ticks_frame n s) as (H1 & _ & H3 & H4 & H5).
  unfold v1_base. now rewrite H1, H3, H4, H5.
Qed.

Lemma v1_ticks_phase (n : nat) (s : MainV1.state) :
  0 <= MainV1.phaseIdx s < 256 ->
  MainV1.phaseIdx (v1_ticks n s) = (MainV1.phaseIdx s + Z.of_nat n) mod 256.
Proof.
  intros Hp. induction n as [|n IH].
  - cbn [v1_ticks Nat.iter]. change (Z.of_nat 0) with 0.
    rewrite Z.add_0_r. symmetry. now apply Z.mod_small.
  - rewrite v1_ticks_S. rewrite (proj1 (waveTimerCb_step _)), IH.
    rewrite Zplus_mod_idemp_l. f_equal. lia.
Qed.

(** X12: [n] ticks of the sketch's callback advance the phase index by
    [n] modulo 256 and write [n] codes to the DAC: in order, the table of the
    current mode read at [phaseIdx, phaseIdx + 1, ...] (mod 256) and scaled
    by [applyAmplitude], so 256 ticks play the table exactly once; in square
    mode, where there is no table, every code is the scaled mid-scale 128. *)
Theorem X12_sketch_ticks (s : MainV1.state) (n : nat) :
  0 <= MainV1.phaseIdx s < 256 ->
  MainV1.phaseIdx (v1_ticks n s) = (MainV1.phaseIdx s + Z.of_nat n) mod 256
  /\ MainV1.dac_out (v1_ticks n s) =
       rev (map (fun k => MainV1.applyAmplitude s
                            (v1_base s ((MainV1.phaseIdx s + k) mod 256)))
              (indices 0 n))
       ++ MainV1.dac_out s
  /\ MainV1.phaseIdx (v1_ticks 256 s) = MainV1.phaseIdx s
  /\ (MainV1.mode s = MainV1.MODE_SQUARE ->
      forall i, v1_base s i = 128).
Proof.
  intros Hp. split; [now apply v1_ticks_phase|]. split; [|split].
  - induction n as [|n IH]; [reflexivity|].
    rewrite v1_ticks_S, (proj1 (proj2 (waveTimerCb_step _))), IH.
    rewrite indices_snoc, map_app, rev_app_distr. cbn [map rev app].
    f_equal. rewrite v1_base_frame, v1_ticks_phase by assumption.
    rewrite Z.add_0_l, Z.mod_mod by lia.
    apply applyAmplitude_frame. apply v1_ticks_frame.
  - rewrite v1_ticks_phase by assumption. change (Z.of_nat 256) with 256.
    rewrite <- (Z.mul_1_l 256) at 1. rewrite Z.mod_add by lia.
    now apply Z.mod_small.
  - intros Hm i. unfold v1_base. now rewrite Hm.
Qed.

Lemma X12_sketch_ticks_witness :
  MainV1.phaseIdx (v1_ticks 300 v1_square_7) = 51
  /\ MainV1.dac_out (v1_ticks 3 v1_square_7) = [128; 128; 128].
Proof.
  destruct (X12_sketch_ticks v1_square_7 300) as (H1 & _); [cbn; lia|].
  destruct (X12_sketch_ticks v1_square_7 3) as (_ & H2 & _); [cbn; lia|].
  split; [rewrite H1; reflexivity | rewrite H2; reflexivity].
Defined.

(** *** The sketch: the timer period for a frequency *)

Lemma float_eqb_eq (a b : F32.float) : float_eqb a b = true -> a = b.
Proof.
  destruct a as [| | |s m e], b as [| | |s' m' e']; try discriminate.
  cbn. intros H. apply andb_true_iff in H as [H He].
  apply andb_true_iff in H as [Hs Hm].
  apply Bool.eqb_prop in Hs. apply Pos.eqb_eq in Hm. apply Z.eqb_eq in He.
  now subst.
Qed.

Lemma whole_hertz (P : Z -> bool) :
  forallb P (indices 1 5000) = true ->
  forall n, 1 <= n <= 5000 -> P n = true.
Proof.
  intros H n Hn. rewrite forallb_forall in H. apply H.
  apply In_indices. lia.
Qed.

Lemma period_table :
  forallb (fun n =>
             match MainV1.calcTimerPeriodUs (F32.of_Z n) with
             | Some p => (p =? exact_period n) && (20 <=? p) && (p <=? 3906)
                         && ((n <? 191) || (p =? 20))
             | None => false
             end) (indices 1 5000) = true.
Proof. vm_compute. reflexivity. Qed.

Lemma period_whole (n : Z) :
  1 <= n <= 5000 ->
  MainV1.calcTimerPeriodUs (F32.of_Z n) = Some (exact_period n)
  /\ 20 <= exact_period n <= 3906
  /\ (191 <= n -> exact_period n = 20).
Proof.
  intros Hn. pose proof (whole_hertz _ period_table n Hn) as H.
  cbv beta in H.
  destruct (MainV1.calcTimerPeriodUs (F32.of_Z n)) as [p|]; [|discriminate].
  apply andb_true_iff in H as [H H4]. apply andb_true_iff in H as [H H3].
  apply andb_true_iff in H as [H1 H2].
  apply Z.eqb_eq in H1. apply Z.leb_le in H2, H3. subst p.
  split; [reflexivity|]. split; [lia|].
  intros Hf. apply orb_true_iff in H4 as [H4|H4].
  - apply Z.ltb_lt in H4. lia.
  - now apply Z.eqb_eq in H4.
Qed.

(** X13: for every whole frequency [n] in [[1, 5000]] Hz, the range the
    sketch keeps its frequency in, [calcTimerPeriodUs] returns the exact
    period [1e6 / (256 n)] microseconds rounded to the nearest integer and
    limited to [[20, 50000]]; the result is between 20 and 3906, and from
    191 Hz on it is the floor of 20 us, so the sample rate no longer follows
    the frequency. *)
Theorem X13_timer_period (n : Z) :
  1 <= n <= 5000 ->
  exists p,
    MainV1.calcTimerPeriodUs (F32.of_Z n) = Some p
    /\ p = clamp 20 50000 (round_half_up (1000000 / (256 * inject_Z n))%Q)
    /\ 20 <= p <= 3906
    /\ (191 <= n -> p = 20).
Proof.
  intros Hn. destruct (period_whole n Hn) as (H1 & H2 & H3).
  exists (exact_period n). repeat split; auto; lia.
Qed.

Lemma X13_timer_period_witness :
  exists p,
    MainV1.calcTimerPeriodUs (F32.of_Z 100) = Some p /\ p = 39 /\ 20 <= p <= 3906.
Proof.
  destruct (X13_timer_period 100) as (p & E & H1 & H2 & _); [lia|].
  exists p. split; [exact E|]. split; [rewrite H1; reflexivity | exact H2].
Defined.

(** *** The sketch: what the buttons do *)

Lemma step_table :
  forallb (fun n =>
             float_eqb
               (MainV1.clampf (F32.add (F32.of_Z n) MainV1Loop.FREQ_STEP)
                  MainV1Loop.FREQ_MIN MainV1Loop.FREQ_MAX)
               (F32.of_Z (Z.min (n + 25) 5000))
             && float_eqb
                  (MainV1.clampf (F32.sub (F32.of_Z n) MainV1Loop.FREQ_STEP)
                     MainV1Loop.FREQ_MIN MainV1Loop.FREQ_MAX)
                  (F32.of_Z (Z.max (n - 25) 1))
             && match F32.lround (F32.of_Z n) with
                | Some v => v =? n
                | None => false
                end) (indices 1 5000) = true.
Proof. vm_compute. reflexivity. Qed.

Lemma whole_hertz_steps (n : Z) :
  1 <= n <= 5000 ->
  MainV1.clampf (F32.add (F32.of_Z n) MainV1Loop.FREQ_STEP)
    MainV1Loop.FREQ_MIN MainV1Loop.FREQ_MAX = F32.of_Z (Z.min (n + 25) 5000)
  /\ MainV1.clampf (F32.sub (F32.of_Z n) MainV1Loop.FREQ_STEP)
       MainV1Loop.FREQ_MIN MainV1Loop.FREQ_MAX = F32.of_Z (Z.max (n - 25) 1)
  /\ F32.lround (F32.of_Z n) = Some n.
Proof.
  intros Hn. pose proof (whole_hertz _ step_table n Hn) as H. cbv beta in H.
  apply andb_true_iff in H as [H H3]. apply andb_true_iff in H as [H1 H2].
  apply float_eqb_eq in H1, H2.
  destruct (F32.lround (F32.of_Z n)) as [v|]; [|discriminate].
  apply Z.eqb_eq in H3. subst v. auto.
Qed.

(** The state after [applyMode], for a whole frequency. *)
Lemma applyMode_whole (s : MainV1.state) (n : Z) :
  1 <= n <= 5000 -> MainV1.frequencyHz s = F32.of_Z n ->
  let s0 := MainV1.set_dac_enabled false
              (MainV1.stopSquareWave (MainV1.stopTimerWave s)) in
  MainV1.applyMode s =
    Some (match MainV1.mode s with
          | MainV1.MODE_SQUARE =>
              MainV1.set_pwm_duty MainV1.LEDC_DUTY_50
                (MainV1.set_pwm_attached true
                   (MainV1.set_pwm_cfg n MainV1.LEDC_RES_BITS s0))
          | _ =>
              MainV1.startTimerWave
                (MainV1.set_timerPeriodUs (exact_period n)
                   (MainV1.set_dac_enabled true s0))
          end).
Proof.
  intros Hn Hf s0. unfold MainV1.applyMode. cbv zeta. fold s0.
  assert (Hm : MainV1.mode s0 = MainV1.mode s).
  { unfold s0. v1_fields. apply stopTimerWave_fields. }
  assert (Hf0 : MainV1.frequencyHz s0 = F32.of_Z n).
  { unfold s0. v1_fields. rewrite <- Hf. apply stopTimerWave_fields. }
  assert (Hf1 : MainV1.frequencyHz (MainV1.set_dac_enabled true s0) = F32.of_Z n).
  { exact Hf0. }
  rewrite Hm, Hf0, Hf1.
  destruct (period_whole n Hn) as (Hp & _).
  destruct (whole_hertz_steps n Hn) as (_ & _ & Hl).
  unfold MainV1.setSquareWave. rewrite Hl, Hp. unfold bind. cbv zeta.
  rewrite Z.mod_small by (change (2 ^ 32) with 4294967296; lia).
  destruct (MainV1.mode s); reflexivity.
Qed.

Lemma stopTimerWave_frame (s : MainV1.state) :
  MainV1.mode (MainV1.stopTimerWave s) = MainV1.mode s
  /\ MainV1.frequencyHz (MainV1.stopTimerWave s) = MainV1.frequencyHz s
  /\ MainV1.amplitude (MainV1.stopTimerWave s) = MainV1.amplitude s
  /\ MainV1.waveTimer (MainV1.stopTimerWave s) = MainV1.waveTimer s
  /\ MainV1.phaseIdx (MainV1.stopTimerWave s) = MainV1.phaseIdx s
  /\ (MainV1.timerActive (MainV1.stopTimerWave s) = true ->
      MainV1.timerActive s = true).
Proof.
  unfold MainV1.stopTimerWave.
  destruct (MainV1.waveTimer s && MainV1.timerActive s); repeat split; auto.
  discriminate.
Qed.

Lemma stopTimerWave_stops (s : MainV1.state) :
  (MainV1.timer_running s <> None ->
   MainV1.waveTimer s = true /\ MainV1.timerActive s = true) ->
  MainV1.timer_running (MainV1.stopTimerWave s) = None.
Proof.
  intros Ht. unfold MainV1.stopTimerWave.
  destruct (MainV1.waveTimer s && MainV1.timerActive s) eqn:E; [reflexivity|].
  destruct (MainV1.timer_running s) as [q|] eqn:Er; [|reflexivity].
  destruct (Ht ltac:(discriminate)) as [H1 H2]. rewrite H1, H2 in E.
  discriminate E.
Qed.

(** What [applyMode] leaves behind, for a whole frequency. *)
Lemma applyMode_outcome (s : MainV1.state) (n : Z) :
  v1_inv s -> 1 <= n <= 5000 -> MainV1.frequencyHz s = F32.of_Z n ->
  exists s',
    MainV1.applyMode s = Some s'
    /\ v1_inv s'
    /\ MainV1.mode s' = MainV1.mode s
    /\ MainV1.frequencyHz s' = MainV1.frequencyHz s
    /\ MainV1.amplitude s' = MainV1.amplitude s
    /\ MainV1.waveTimer s' = MainV1.waveTimer s
    /\ (MainV1.mode s = MainV1.MODE_SQUARE ->
        MainV1.pwm_attached s' = true /\ MainV1.pwm_hz s' = n
        /\ MainV1.pwm_bits s' = 10 /\ MainV1.pwm_duty s' = 512
        /\ MainV1.dac_enabled s' = false /\ MainV1.timer_running s' = None)
    /\ (MainV1.mode s <> MainV1.MODE_SQUARE ->
        MainV1.pwm_attached s' = false
        /\ MainV1.pin_output s' = true /\ MainV1.pin_high s' = false
        /\ MainV1.dac_enabled s' = true
        /\ MainV1.timerPeriodUs s' = exact_period n
        /\ (MainV1.waveTimer s = true ->
            MainV1.timer_running s' = Some (exact_period n)
            /\ MainV1.timerActive s' = true /\ MainV1.phaseIdx s' = 0)).
Proof.
  intros (_ & Ha & Ht) Hn Hf.
  pose proof (applyMode_whole s n Hn Hf) as H. cbv zeta in H.
  eexists. split; [exact H|]. clear H.
  destruct (stopTimerWave_frame s) as (F1 & F2 & F3 & F4 & F5 & F6).
  pose proof (stopTimerWave_stops s Ht) as F7.
  set (s1 := MainV1.stopTimerWave s) in *.
  assert (Hsq : MainV1.mode s = MainV1.MODE_SQUARE \/
                MainV1.mode s <> MainV1.MODE_SQUARE).
  { destruct (MainV1.mode s); auto; right; discriminate. }
  destruct Hsq as [Hm|Hm].
  - rewrite Hm. unfold v1_inv.
    cbn [MainV1.mode MainV1.frequencyHz MainV1.amplitude MainV1.waveTimer
         MainV1.timerActive MainV1.timer_running MainV1.dac_enabled
         MainV1.pwm_attached MainV1.pwm_hz MainV1.pwm_bits MainV1.pwm_duty
         MainV1.pin_output MainV1.pin_high MainV1.timerPeriodUs MainV1.phaseIdx
         MainV1.set_pwm_duty MainV1.set_pwm_attached MainV1.set_pwm_cfg
         MainV1.set_dac_enabled MainV1.stopSquareWave MainV1.set_pin].
    rewrite F1, F2, F3, F4, F7, Hf, Hm.
    repeat split; auto; try lia; try contradiction.
    exists n. split; [lia | reflexivity].
  - assert (E : forall x y : MainV1.state,
              match MainV1.mode s with
              | MainV1.MODE_SQUARE => x
              | _ => y
              end = y).
    { intros x y. destruct (MainV1.mode s); try reflexivity. contradiction. }
    rewrite E. clear E. unfold v1_inv, MainV1.startTimerWave.
    cbn [MainV1.waveTimer MainV1.set_timerPeriodUs MainV1.set_dac_enabled
         MainV1.stopSquareWave MainV1.set_pin MainV1.set_pwm_attached].
    rewrite F4. destruct (MainV1.waveTimer s) eqn:Ew; cbn [negb];
    cbv zeta;
    cbn [MainV1.mode MainV1.frequencyHz MainV1.amplitude MainV1.waveTimer
         MainV1.timerActive MainV1.timer_running MainV1.dac_enabled
         MainV1.pwm_attached MainV1.pwm_hz MainV1.pwm_bits MainV1.pwm_duty
         MainV1.pin_output MainV1.pin_high MainV1.timerPeriodUs MainV1.phaseIdx
         MainV1.set_pwm_duty MainV1.set_pwm_attached MainV1.set_pwm_cfg
         MainV1.set_dac_enabled MainV1.stopSquareWave MainV1.set_pin
         MainV1.set_timerPeriodUs MainV1.set_phaseIdx MainV1.set_timer_running
         MainV1.set_timerActive];
    rewrite ?F1, ?F2, ?F3, ?F4, ?F7, ?Hf;
    repeat split; auto; try lia; try contradiction; try discriminate;
    try (exists n; split; [lia | reflexivity]).
Qed.

(** X14: [applyMode], for a whole frequency [n] in [[1, 5000]], always
    returns and leaves exactly one path running. In square mode the LEDC
    channel is attached at [n] Hz, 10 bits and duty 512 (50 %), the DAC
    output is disabled and the sample timer stopped. In the other modes the
    channel is detached and the square pin driven low, the DAC output is
    enabled, and the timer, when its handle exists, runs at the period
    [exact_period n] with the phase index back at 0. *)
Theorem X14_applyMode_outcome (s : MainV1.state) (n : Z) :
  v1_inv s -> 1 <= n <= 5000 -> MainV1.frequencyHz s = F32.of_Z n ->
  exists s',
    MainV1.applyMode s = Some s'
    /\ (MainV1.mode s = MainV1.MODE_SQUARE ->
        MainV1.pwm_attached s' = true /\ MainV1.pwm_hz s' = n
        /\ MainV1.pwm_bits s' = 10 /\ 2 * MainV1.pwm_duty s' = 2 ^ 10
        /\ MainV1.dac_enabled s' = false /\ MainV1.timer_running s' = None)
    /\ (MainV1.mode s <> MainV1.MODE_SQUARE ->
        MainV1.pwm_attached s' = false
        /\ MainV1.pin_output s' = true /\ MainV1.pin_high s' = false
        /\ MainV1.dac_enabled s' = true
        /\ 20 <= MainV1.timerPeriodUs s' <= 3906
        /\ (MainV1.waveTimer s = true ->
            MainV1.timer_running s' = Some (exact_period n)
            /\ MainV1.timerActive s' = true /\ MainV1.phaseIdx s' = 0)).
Proof.
  intros Hi Hn Hf.
  destruct (applyMode_outcome s n Hi Hn Hf)
    as (s' & E & _ & _ & _ & _ & _ & Hs & Ha).
  exists s'. split; [exact E|]. split.
  - intros Hm. destruct (Hs Hm) as (H1 & H2 & H3 & H4 & H5 & H6).
    rewrite H4. repeat split; assumption.
  - intros Hm. destruct (Ha Hm) as (H1 & H2 & H3 & H4 & H5 & H6).
    rewrite H5. destruct (period_whole n Hn) as (_ & Hr & _).
    repeat split; try assumption; try lia; now apply H6.
Qed.

Lemma v1_initial_inv (t : bool) : v1_inv (v1_initial t).
Proof.
  unfold v1_inv, v1_initial. cbn. split; [|split; [lia|]].
  - exists 500. split; [lia | reflexivity].
  - intros H. now contradiction H.
Qed.

Lemma X14_applyMode_outcome_witness :
  exists s',
    MainV1.applyMode (v1_initial true) = Some s'
    /\ MainV1.dac_enabled s' = true
    /\ MainV1.timer_running s' = Some 20
    /\ MainV1.pwm_attached s' = false.
Proof.
  destruct (X14_applyMode_outcome (v1_initial true) 500)
    as (s' & E & _ & Ha);
    [apply v1_initial_inv | lia | reflexivity |].
  destruct (Ha ltac:(discriminate)) as (H1 & _ & _ & H4 & _ & H6).
  destruct (H6 eq_refl) as (H7 & _).
  exists s'. split; [exact E|]. split; [exact H4|]. split; [|exact H1].
  rewrite H7. reflexivity.
Defined.

Lemma v1_inv_set_mode (s : MainV1.state) (m : MainV1.WaveMode) :
  v1_inv s -> v1_inv (MainV1Loop.set_mode m s).
Proof. intros H. exact H. Qed.

Lemma v1_inv_set_frequencyHz (s : MainV1.state) (k : Z) :
  v1_inv s -> 1 <= k <= 5000 ->
  v1_inv (MainV1Loop.set_frequencyHz (F32.of_Z k) s).
Proof.
  intros (_ & H2 & H3) Hk. split; [|split; [exact H2 | exact H3]].
  exists k. split; [exact Hk | reflexivity].
Qed.

Lemma v1_inv_set_amplitude (s : MainV1.state) (a : Z) :
  v1_inv s -> 0 <= a <= 255 -> v1_inv (MainV1Loop.set_amplitude a s).
Proof.
  intros (H1 & _ & H3) Ha. split; [exact H1|]. split; [exact Ha | exact H3].
Qed.

(** What a button does, field by field. *)
Lemma on_press_spec (s : MainV1.state) (b : MainV1Loop.Button) (n : Z) :
  v1_inv s -> 1 <= n <= 5000 -> MainV1.frequencyHz s = F32.of_Z n ->
  exists s',
    MainV1Loop.on_press b s = Some s'
    /\ v1_inv s'
    /\ MainV1.mode s' =
         match b with
         | MainV1Loop.BTN_MODE => MainV1Loop.next_mode (MainV1.mode s)
         | _ => MainV1.mode s
         end
    /\ MainV1.frequencyHz s' =
         F32.of_Z match b with
                  | MainV1Loop.BTN_FUP => Z.min (n + 25) 5000
                  | MainV1Loop.BTN_FDN => Z.max (n - 25) 1
                  | _ => n
                  end
    /\ MainV1.amplitude s' =
         match b with
         | MainV1Loop.BTN_AUP => Z.min (MainV1.amplitude s + 16) 255
         | MainV1Loop.BTN_ADN => Z.max (MainV1.amplitude s - 16) 0
         | _ => MainV1.amplitude s
         end.
Proof.
  intros Hi Hn Hf. destruct (whole_hertz_steps n Hn) as (Hup & Hdn & _).
  pose proof Hi as (_ & Ha & Ht).
  assert (Eup : MainV1.clampi (MainV1.amplitude s + MainV1Loop.AMP_STEP)
                  MainV1Loop.AMP_MIN MainV1Loop.AMP_MAX
                = Z.min (MainV1.amplitude s + 16) 255).
  { unfold MainV1.clampi, MainV1Loop.AMP_STEP, MainV1Loop.AMP_MIN,
      MainV1Loop.AMP_MAX.
    destruct (Z.ltb_spec (MainV1.amplitude s + 16) 0); [lia|].
    destruct (Z.gtb_spec (MainV1.amplitude s + 16) 255); lia. }
  assert (Edn : MainV1.clampi (MainV1.amplitude s - MainV1Loop.AMP_STEP)
                  MainV1Loop.AMP_MIN MainV1Loop.AMP_MAX
                = Z.max (MainV1.amplitude s - 16) 0).
  { unfold MainV1.clampi, MainV1Loop.AMP_STEP, MainV1Loop.AMP_MIN,
      MainV1Loop.AMP_MAX.
    destruct (Z.ltb_spec (MainV1.amplitude s - 16) 0); [lia|].
    destruct (Z.gtb_spec (MainV1.amplitude s - 16) 255); lia. }
  destruct b; unfold MainV1Loop.on_press; rewrite ?Hf, ?Hup, ?Hdn, ?Eup, ?Edn.
  - destruct (applyMode_outcome
                (MainV1Loop.set_mode (MainV1Loop.next_mode (MainV1.mode s)) s) n)
      as (s' & E & I & M & F & A & _); [|exact Hn|exact Hf|].
    { now apply v1_inv_set_mode. }
    exists s'. split; [exact E|]. split; [exact I|].
    rewrite M, F, A. repeat split. exact Hf.
  - destruct (applyMode_outcome
                (MainV1Loop.set_frequencyHz (F32.of_Z (Z.min (n + 25) 5000)) s)
                (Z.min (n + 25) 5000))
      as (s' & E & I & M & F & A & _); [|lia|reflexivity|].
    { apply v1_inv_set_frequencyHz; [exact Hi | lia]. }
    exists s'. split; [exact E|]. split; [exact I|].
    rewrite M, F, A. repeat split.
  - destruct (applyMode_outcome
                (MainV1Loop.set_frequencyHz (F32.of_Z (Z.max (n - 25) 1)) s)
                (Z.max (n - 25) 1))
      as (s' & E & I & M & F & A & _); [|lia|reflexivity|].
    { apply v1_inv_set_frequencyHz; [exact Hi | lia]. }
    exists s'. split; [exact E|]. split; [exact I|].
    rewrite M, F, A. repeat split.
  - destruct (applyMode_outcome
                (MainV1Loop.set_amplitude (Z.min (MainV1.amplitude s + 16) 255) s) n)
      as (s' & E & I & M & F & A & _); [|exact Hn|exact Hf|].
    { apply v1_inv_set_amplitude; [exact Hi | lia]. }
    exists s'. split; [exact E|]. split; [exact I|].
    rewrite M, F, A. repeat split. exact Hf.
  - destruct (applyMode_outcome
                (MainV1Loop.set_amplitude (Z.max (MainV1.amplitude s - 16) 0) s) n)
      as (s' & E & I & M & F & A & _); [|exact Hn|exact Hf|].
    { apply v1_inv_set_amplitude; [exact Hi | lia]. }
    exists s'. split; [exact E|]. split; [exact I|].
    rewrite M, F, A. repeat split. exact Hf.
Qed.



Lemma v1_inv_whole (s : MainV1.state) :
  v1_inv s -> exists n, 1 <= n <= 5000 /\ MainV1.frequencyHz s = F32.of_Z n.
Proof. intros (H & _). exact H. Qed.





Lemma presses_app (l l' : list MainV1Loop.Button) (s : MainV1.state) :
  MainV1Loop.presses (l ++ l') s =
    (s1 <- MainV1Loop.presses l s ;; MainV1Loop.presses l' s1).
Proof.
  unfold MainV1Loop.presses. rewrite fold_left_app.
  generalize (fold_left
                (fun o b => s0 <- o ;; MainV1Loop.on_press b s0) l (Some s)).
  intros o. destruct o as [s1|]; [reflexivity|].
  cbn [bind]. induction l' as [|b l' IH]; [reflexivity | exact IH].
Qed.

Lemma presses_mode (k : nat) (s : MainV1.state) :
  v1_inv s ->
  exists s',
    MainV1Loop.presses (repeat MainV1Loop.BTN_MODE k) s = Some s'
    /\ v1_inv s'
    /\ MainV1.mode s' = Nat.iter k MainV1Loop.next_mode (MainV1.mode s)
    /\ MainV1.frequencyHz s' = MainV1.frequencyHz s
    /\ MainV1.amplitude s' = MainV1.amplitude s.
Proof.
  intros Hi. induction k as [|k IH].
  - exists s. split; [reflexivity|]. split; [exact Hi|]. repeat split.
  - destruct IH as (s1 & E1 & I1 & M1 & F1 & A1).
    destruct (v1_inv_whole s1 I1) as (n & Hn & Hf).
    destruct (on_press_spec s1 MainV1Loop.BTN_MODE n I1 Hn Hf)
      as (s' & E & I & M & F & A).
    exists s'. replace (S k) with (k + 1)%nat by lia.
    rewrite repeat_app, presses_app, E1. cbn [bind repeat].
    split; [exact E|]. split; [exact I|].
    rewrite M, F, A, M1, A1, <- Hf, F1.
    replace (k + 1)%nat with (S k) by lia. repeat split.
Qed.

(** X17: the MODE button steps through sine, triangle, sawtooth and
    square in this order and four presses bring the mode back; the presses
    leave frequency and amplitude alone. *)
Theorem X17_mode_cycle (s : MainV1.state) :
  v1_inv s ->
  (exists s4,
     MainV1Loop.presses (repeat MainV1Loop.BTN_MODE 4) s = Some s4
     /\ MainV1.mode s4 = MainV1.mode s
     /\ MainV1.frequencyHz s4 = MainV1.frequencyHz s
     /\ MainV1.amplitude s4 = MainV1.amplitude s)
  /\ (exists s1,
        MainV1Loop.presses [MainV1Loop.BTN_MODE] s = Some s1
        /\ MainV1.mode s1 <> MainV1.mode s
        /\ MainV1.mode s1 =
             match MainV1.mode s with
             | MainV1.MODE_SINE => MainV1.MODE_TRI
             | MainV1.MODE_TRI => MainV1.MODE_SAW
             | MainV1.MODE_SAW => MainV1.MODE_SQUARE
             | MainV1.MODE_SQUARE => MainV1.MODE_SINE
             end).
Proof.
  intros Hi. split.
  - destruct (presses_mode 4 s Hi) as (s4 & E & _ & M & F & A).
    exists s4. split; [exact E|]. split; [|auto].
    rewrite M. destruct (MainV1.mode s); reflexivity.
  - destruct (presses_mode 1 s Hi) as (s1 & E & _ & M & _).
    exists s1. split; [exact E|]. rewrite M.
    destruct (MainV1.mode s); split; try reflexivity; discriminate.
Qed.

Lemma X17_mode_cycle_witness :
  exists s4,
    MainV1Loop.presses (repeat MainV1Loop.BTN_MODE 4) (v1_initial true)
      = Some s4
    /\ MainV1.mode s4 = MainV1.MODE_SINE.
Proof.
  destruct (X17_mode_cycle (v1_initial true)) as ((s4 & E & M & _) & _);
    [apply v1_initial_inv|].
  exists s4. split; [exact E | exact M].
Defined.

(** *** The sketch: its tables *)

Lemma v1_tri_table_values :
  forallb (fun i =>
             match MainV1.tri_entry i with
             | Some v => v =? (if i <? 128 then 2 * i else 2 * (255 - i))
             | None => false
             end) (indices 0 256) = true.
Proof. vm_compute. reflexivity. Qed.

(** X18: the triangle and sawtooth loops of the sketch's [buildLUTs] fill
    the same tables as the engine's [build_luts_once], although the sketch
    computes the triangle in binary32 and rounds: entry [i] of the triangle
    is [2 i] below 128 and [2 (255 - i)] from 128 on, so its peak is 254, and
    entry [i] of the sawtooth is [i]. *)
Theorem X18_sketch_tables (i : Z) :
  0 <= i < 256 ->
  MainV1.tri_entry i = Some (if i <? 128 then 2 * i else 2 * (255 - i))
  /\ MainV1.tri_entry i = Some (WaveGen.tri_entry i)
  /\ MainV1.saw_entry i = i
  /\ MainV1.saw_entry i = WaveGen.saw_entry i.
Proof.
  intros Hi.
  assert (Ht : MainV1.tri_entry i =
               Some (if i <? 128 then 2 * i else 2 * (255 - i))).
  { pose proof v1_tri_table_values as H. rewrite forallb_forall in H.
    specialize (H i (In_indices 256 0 i ltac:(lia))). cbv beta in H.
    destruct (MainV1.tri_entry i) as [v|]; [|discriminate].
    apply Z.eqb_eq in H. now subst. }
  assert (Hs : MainV1.saw_entry i = i).
  { unfold MainV1.saw_entry, MainV1.LUT_SIZE. change (256 - 1) with 255.
    rewrite Z.div_mul by lia. apply Z.mod_small. lia. }
  split; [exact Ht|]. split; [now rewrite Ht, tri_entry_ramp|].
  split; [exact Hs|]. rewrite Hs. unfold WaveGen.saw_entry.
  symmetry. apply Z.mod_small. lia.
Qed.

Lemma X18_sketch_tables_witness :
  MainV1.tri_entry 200 = Some 110 /\ MainV1.saw_entry 200 = 200.
Proof.
  destruct (X18_sketch_tables 200) as (H1 & _ & H3 & _); [lia|].
  split; [rewrite H1; reflexivity | exact H3].
Defined.

(** *** The sketch: the debounced buttons *)

(** X19: [readPressed] reports a press only for a low level that has not
    changed for at least 35 ms; a level that differs from the last one read is
    recorded with the time and never reported; the elapsed time is right
    across the wrap of the 32-bit millisecond counter; and while the level
    stays low a press is reported at each call (nothing latches), which is
    why [loop] waits for the release. *)
Theorem X19_readPressed (b : MainV1Loop.Btn) (now : bool) (t d : Z) :
  0 <= MainV1Loop.lastChangeMs b < 2 ^ 32 -> 0 <= d < 2 ^ 32 ->
  t = (MainV1Loop.lastChangeMs b + d) mod 2 ^ 32 ->
  (fst (MainV1Loop.readPressed b now t) = true <->
   now = false /\ MainV1Loop.last b = false /\ 35 <= d)
  /\ (now <> MainV1Loop.last b ->
      snd (MainV1Loop.readPressed b now t) =
        MainV1Loop.mkBtn (MainV1Loop.pin b) now t)
  /\ (now = MainV1Loop.last b -> snd (MainV1Loop.readPressed b now t) = b).
Proof.
  intros Hl Hd Ht.
  assert (Hel : (t - MainV1Loop.lastChangeMs b) mod 2 ^ 32 = d).
  { rewrite Ht, Zminus_mod_idemp_l.
    replace (MainV1Loop.lastChangeMs b + d - MainV1Loop.lastChangeMs b)
      with d by ring.
    now apply Z.mod_small. }
  unfold MainV1Loop.readPressed, MainV1Loop.DEBOUNCE_MS. cbv zeta.
  destruct (Bool.eqb now (MainV1Loop.last b)) eqn:E; cbn [negb].
  - apply Bool.eqb_prop in E. rewrite Hel.
    destruct (Z.geb_spec d 35) as [H|H]; destruct now; cbn [andb Bool.eqb];
      cbn [fst snd]; repeat split; intros; try congruence; try lia;
      try tauto; try (destruct H0; congruence); try (destruct H0 as (_ & _ & ?); lia).
  - apply Bool.eqb_false_iff in E. cbn [MainV1Loop.lastChangeMs].
    rewrite Z.sub_diag. change (0 mod 2 ^ 32 >=? 35) with false.
    cbn [andb fst snd]. repeat split; intros; try congruence; try discriminate.
    destruct H as (H1 & H2 & _). congruence.
Qed.

Lemma X19_readPressed_witness :
  fst (MainV1Loop.readPressed (MainV1Loop.mkBtn 32 false 4294967290) false 30)
    = true.
Proof.
  destruct (X19_readPressed (MainV1Loop.mkBtn 32 false 4294967290) false 30 36)
    as ((_ & H) & _).
  - cbn. lia.
  - lia.
  - reflexivity.
  - apply H. repeat split. lia.
Defined.

(** *** Comparisons of binary32 numbers and the clamp *)

Lemma SFcompare_antisym (x y : spec_float) (c : comparison) :
  SFcompare x y = Some c -> SFcompare y x = Some (CompOpp c).
Proof.
  destruct x as [s|s| |s m e], y as [s'|s'| |s' m' e']; cbn [SFcompare];
    try discriminate; intros [= <-];
    try (destruct s; reflexivity); try (destruct s'; reflexivity);
    try (destruct s, s'; reflexivity).
  change (Pos.compare_cont Eq m m') with (Pos.compare m m').
  change (Pos.compare_cont Eq m' m) with (Pos.compare m' m).
  rewrite (Z.compare_antisym e e'), (Pos.compare_antisym m m').
  destruct s, s'; try reflexivity;
    destruct (e ?= e'); cbn [CompOpp]; try reflexivity;
    now rewrite CompOpp_involutive.
Qed.

Lemma SFcompare_refl (x : spec_float) :
  x <> S754_nan -> SFcompare x x = Some Eq.
Proof.
  destruct x as [s|s| |s m e]; cbn [SFcompare]; try reflexivity.
  - destruct s; reflexivity.
  - intros H. now contradiction H.
  - intros _. rewrite Z.compare_refl.
    change (Pos.compare_cont Eq m m) with (Pos.compare m m).
    rewrite Pos.compare_refl. destruct s; reflexivity.
Qed.

Lemma SFcompare_defined (x y : spec_float) :
  x <> S754_nan -> y <> S754_nan -> exists c, SFcompare x y = Some c.
Proof.
  destruct x, y; cbn [SFcompare]; intros Hx Hy; try contradiction;
    eexists; reflexivity.
Qed.

Lemma ltb_false_leb (x y : F32.float) :
  x <> S754_nan -> y <> S754_nan ->
  F32.ltb x y = false -> F32.leb y x = true.
Proof.
  intros Hx Hy. unfold F32.ltb, F32.leb, SFltb, SFleb.
  destruct (SFcompare_defined x y Hx Hy) as (c & E).
  rewrite E, (SFcompare_antisym _ _ _ E).
  destruct c; cbn; congruence.
Qed.

Lemma leb_ltb_false (x y : F32.float) :
  F32.leb x y = true -> F32.ltb y x = false.
Proof.
  unfold F32.ltb, F32.leb, SFltb, SFleb.
  destruct (SFcompare x y) as [c|] eqn:E; [|discriminate].
  rewrite (SFcompare_antisym _ _ _ E). destruct c; cbn; congruence.
Qed.

Lemma leb_refl (x : F32.float) : x <> S754_nan -> F32.leb x x = true.
Proof.
  intros H. unfold F32.leb, SFleb. now rewrite SFcompare_refl.
Qed.

Lemma leb_not_nan (x y : F32.float) :
  F32.leb x y = true -> x <> S754_nan /\ y <> S754_nan.
Proof.
  unfold F32.leb, SFleb. destruct x, y; cbn [SFcompare]; try discriminate;
    intros _; split; discriminate.
Qed.

(** X20: the sketch's [clampf], for bounds [lo <= hi]: every argument
    that is not a NaN is brought into [[lo, hi]], an argument already inside
    is returned as it is, and a NaN goes through unchanged, since both
    comparisons are false for it. *)
Theorem X20_clampf (x lo hi : F32.float) :
  F32.leb lo hi = true ->
  (x <> S754_nan ->
   F32.leb lo (MainV1.clampf x lo hi) = true
   /\ F32.leb (MainV1.clampf x lo hi) hi = true)
  /\ (F32.leb lo x = true -> F32.leb x hi = true -> MainV1.clampf x lo hi = x)
  /\ MainV1.clampf S754_nan lo hi = S754_nan.
Proof.
  intros Hlh. destruct (leb_not_nan _ _ Hlh) as [Hlo Hhi].
  split; [|split].
  - intros Hx. unfold MainV1.clampf.
    destruct (F32.ltb x lo) eqn:E1.
    { split; [now apply leb_refl | exact Hlh]. }
    destruct (F32.gtb x hi) eqn:E2.
    { split; [exact Hlh | now apply leb_refl]. }
    split; now apply ltb_false_leb.
  - intros H1 H2. unfold MainV1.clampf.
    change (F32.gtb x hi) with (F32.ltb hi x).
    now rewrite (leb_ltb_false _ _ H1), (leb_ltb_false _ _ H2).
  - unfold MainV1.clampf, F32.ltb, F32.gtb, SFltb. cbn [SFcompare].
    destruct hi; reflexivity.
Qed.

Lemma X20_clampf_witness :
  F32.leb (F32.of_Z 1)
    (MainV1.clampf (F32.of_Z 7000) (F32.of_Z 1) (F32.of_Z 5000)) = true
  /\ F32.leb (MainV1.clampf (F32.of_Z 7000) (F32.of_Z 1) (F32.of_Z 5000))
       (F32.of_Z 5000) = true.
Proof.
  apply (X20_clampf (F32.of_Z 7000) (F32.of_Z 1) (F32.of_Z 5000));
    [reflexivity | discriminate].
Defined.

(** *** The front end: edges of the debounced buttons *)

Lemma deb_edge_cases (b : UI.DebBtn) (r now : Z) :
  (r <> UI.lastRead b ->
   UI.deb_pressed_edge b r now =
     (false, UI.mkDebBtn (UI.pin b) (UI.stable b) r now))
  /\ (r = UI.lastRead b ->
      UI.deb_pressed_edge b r now =
        if ((now - UI.lastChangeMs b) mod 2 ^ 32 >=? 25)
           && negb (UI.stable b =? r)
        then ((UI.stable b =? 1) && (r =? 0),
              UI.mkDebBtn (UI.pin b) r r (UI.lastChangeMs b))
        else (false, b)).
Proof.
  unfold UI.deb_pressed_edge, UI.DEBOUNCE_MS, UI.HIGH, UI.LOW. cbv zeta. split.
  - intros H. apply Z.eqb_neq in H. rewrite H. cbn [negb UI.lastChangeMs].
    rewrite Z.sub_diag. reflexivity.
  - intros ->. rewrite Z.eqb_refl. cbn [negb]. reflexivity.
Qed.

(** X21: [deb_pressed_edge] reports the falling edge of the debounced
    level and nothing else: it returns true exactly when the level read is
    LOW, is the level read last, has been so for at least 25 ms (right across
    the wrap of the millisecond counter), and the debounced level was HIGH;
    the debounced level is then LOW, so the next calls return false for as
    long as the button is held: one report per press. A level that differs
    from the last one read only restarts the 25 ms. *)
Theorem X21_pressed_edge (b : UI.DebBtn) (r now d : Z) :
  0 <= UI.lastChangeMs b < 2 ^ 32 -> 0 <= d < 2 ^ 32 ->
  now = (UI.lastChangeMs b + d) mod 2 ^ 32 ->
  (fst (UI.deb_pressed_edge b r now) = true <->
   r = UI.LOW /\ UI.lastRead b = UI.LOW /\ UI.stable b = UI.HIGH /\ 25 <= d)
  /\ (fst (UI.deb_pressed_edge b r now) = true ->
      UI.stable (snd (UI.deb_pressed_edge b r now)) = UI.LOW
      /\ forall now',
           fst (UI.deb_pressed_edge (snd (UI.deb_pressed_edge b r now))
                  UI.LOW now') = false)
  /\ (r <> UI.lastRead b ->
      UI.deb_pressed_edge b r now =
        (false, UI.mkDebBtn (UI.pin b) (UI.stable b) r now)).
Proof.
  intros Hl Hd Hn.
  assert (Hel : (now - UI.lastChangeMs b) mod 2 ^ 32 = d).
  { rewrite Hn, Zminus_mod_idemp_l.
    replace (UI.lastChangeMs b + d - UI.lastChangeMs b) with d by ring.
    now apply Z.mod_small. }
  destruct (deb_edge_cases b r now) as [Hne Heq].
  assert (Hiff : fst (UI.deb_pressed_edge b r now) = true <->
                 r = UI.LOW /\ UI.lastRead b = UI.LOW
                 /\ UI.stable b = UI.HIGH /\ 25 <= d).
  { unfold UI.LOW, UI.HIGH.
    destruct (Z.eq_dec r (UI.lastRead b)) as [E|E].
    - rewrite (Heq E), Hel. rewrite <- E.
      destruct (Z.geb_spec d 25) as [H|H]; cbn [andb].
      + destruct (Z.eqb_spec (UI.stable b) r) as [Hs|Hs]; cbn [negb fst].
        * split; [discriminate|]. intros (H1 & _ & H3 & _). lia.
        * destruct (Z.eqb_spec (UI.stable b) 1), (Z.eqb_spec r 0);
            cbn [andb]; split; try discriminate; try tauto; try lia.
      + cbn [fst]. split; [discriminate|]. lia.
    - rewrite (Hne E). cbn [fst]. split; [discriminate|].
      intros (H1 & H2 & _). congruence. }
  split; [exact Hiff|]. split; [|exact Hne].
  intros Ht. apply Hiff in Ht. destruct Ht as (Hr & Hlr & Hs & Hd25).
  unfold UI.LOW, UI.HIGH in *.
  assert (E : r = UI.lastRead b) by congruence.
  rewrite (Heq E), Hel.
  destruct (Z.geb_spec d 25) as [_|]; [|lia].
  destruct (Z.eqb_spec (UI.stable b) r) as [|_]; [lia|].
  cbn [andb negb snd UI.stable]. split; [exact Hr|].
  intros now'. subst r.
  set (b' := UI.mkDebBtn (UI.pin b) 0 0 (UI.lastChangeMs b)).
  destruct (deb_edge_cases b' 0 now') as [_ Heq'].
  rewrite (Heq' eq_refl). cbn [UI.stable b']. rewrite Z.eqb_refl.
  cbn [negb]. rewrite andb_false_r. reflexivity.
Qed.

Lemma X21_pressed_edge_witness :
  fst (UI.deb_pressed_edge (UI.mkDebBtn 4 1 0 4294967290) 0 30) = true.
Proof.
  destruct (X21_pressed_edge (UI.mkDebBtn 4 1 0 4294967290) 0 30 36)
    as ((_ & H) & _).
  - cbn. lia.
  - lia.
  - reflexivity.
  - apply H. repeat split. lia.
Defined.

(** *** Rounding never makes a NaN *)

Lemma shr_nonneg (mrs : shr_record) (e n : Z) :
  0 <= shr_m mrs -> 0 <= shr_m (fst (shr mrs e n)).
Proof.
  intros H. unfold shr. destruct n as [|p|p]; cbn [fst]; try exact H.
  rewrite iter_pos_nat.
  rewrite (proj1 (shr_iter_spec (Pos.to_nat p) mrs H)).
  apply Z.div_pos; [exact H|]. apply pow2_pos. lia.
Qed.

Lemma shr_fexp_nonneg (m e : Z) (l : location) :
  0 <= m -> 0 <= shr_m (fst (shr_fexp 24 128 m e l)).
Proof.
  intros H. unfold shr_fexp. apply shr_nonneg.
  now rewrite shr_record_of_loc_m.
Qed.

Lemma round_aux_not_nan (s : bool) (m e : Z) (l : location) :
  0 <= m -> binary_round_aux 24 128 s m e l <> S754_nan.
Proof.
  intros H. unfold binary_round_aux.
  pose proof (shr_fexp_nonneg m e l H) as H1.
  destruct (shr_fexp 24 128 m e l) as [mrs' e']. cbn [fst] in H1.
  pose proof (round_nearest_even_bounds (shr_m mrs') (loc_of_shr_record mrs'))
    as [[H2 _] _].
  pose proof (shr_fexp_nonneg
                (round_nearest_even (shr_m mrs') (loc_of_shr_record mrs'))
                e' loc_Exact ltac:(lia)) as H3.
  destruct (shr_fexp 24 128 _ e' loc_Exact) as [mrs'' e'']. cbn [fst] in H3.
  destruct (shr_m mrs'') as [|p|p]; [discriminate| |lia].
  destruct (e'' <=? 128 - 24); discriminate.
Qed.

Lemma mul_not_nan (x : F32.float) (s : bool) (m : positive) (e : Z) :
  x <> S754_nan -> F32.mul x (S754_finite s m e) <> S754_nan.
Proof.
  intros Hx. destruct x as [sx|sx| |sx mx ex]; try discriminate;
    [contradiction|].
  unfold F32.mul, SFmul. apply round_aux_not_nan. lia.
Qed.

(** *** The front end: what a poll does to the settings *)

Ltac ui_fields :=
  cbn [amp targetHz wave actualHz UI.with_targetHz UI.with_wave
       WaveGen.with_amp fst snd orb].

Lemma ui_update_fields wave_code wave_of_code (edge : UI.Key -> bool)
    (s : Settings) :
  let t1 := if edge UI.FREQ_UP then F32.mul (targetHz s) UI.f1_10
            else targetHz s in
  let t2 := if edge UI.FREQ_DOWN then F32.mul t1 UI.f0_90 else t1 in
  let a1 := if edge UI.AMP_UP
            then (if amp s <=? 223 then amp s + 32 else 255) else amp s in
  let a2 := if edge UI.AMP_DOWN
            then (if a1 >=? 32 then a1 - 32 else 0) else a1 in
  let s' := snd (UI.ui_update wave_code wave_of_code edge s) in
  fst (UI.ui_update wave_code wave_of_code edge s) =
    edge UI.FREQ_UP || edge UI.FREQ_DOWN || edge UI.AMP_UP
    || edge UI.AMP_DOWN || edge UI.WAVE_NEXT
  /\ targetHz s' = pwm_target t2
  /\ amp s' = a2
  /\ wave s' =
       (if edge UI.WAVE_NEXT
        then wave_of_code (Z.land (wave_code (wave s) mod 256 + 1) 3 mod 256)
        else wave s)
  /\ actualHz s' = actualHz s.
Proof.
  unfold UI.ui_update, pwm_target. cbv zeta.
  change (F32.of_Z WaveGen.PWM_MAX_HZ) with (F32.of_Z 10000000).
  change F32.one with (F32.of_Z 1).
  destruct (edge UI.FREQ_UP), (edge UI.FREQ_DOWN), (edge UI.AMP_UP),
    (edge UI.AMP_DOWN), (edge UI.WAVE_NEXT);
    ui_fields; try destruct (amp s <=? 223); ui_fields;
    repeat match goal with
      | |- context [?a >=? 32] => destruct (a >=? 32)
      end;
    ui_fields;
    repeat match goal with
      | |- context [F32.ltb ?a ?b] => destruct (F32.ltb a b); ui_fields
      end;
    repeat match goal with
      | |- context [F32.gtb ?a ?b] => destruct (F32.gtb a b); ui_fields
      end;
    repeat split.
Qed.

(** X22: a poll keeps the amplitude a byte: from an amplitude in
    [[0, 255]], the AMP_UP edge adds 32 and stops at 255, the AMP_DOWN edge
    then takes 32 off and stops at 0, nothing else touches it, and the
    result is in [[0, 255]] again, so no arithmetic on it wraps. *)
Theorem X22_ui_amplitude wave_code wave_of_code (edge : UI.Key -> bool)
    (s : Settings) :
  0 <= amp s <= 255 ->
  let s' := snd (UI.ui_update wave_code wave_of_code edge s) in
  let a1 := if edge UI.AMP_UP then Z.min (amp s + 32) 255 else amp s in
  amp s' = (if edge UI.AMP_DOWN then Z.max (a1 - 32) 0 else a1)
  /\ 0 <= amp s' <= 255
  /\ (edge UI.AMP_UP = false -> edge UI.AMP_DOWN = false -> amp s' = amp s).
Proof.
  intros Ha. cbv zeta.
  destruct (ui_update_fields wave_code wave_of_code edge s)
    as (_ & _ & E & _). cbv zeta in E. rewrite E.
  destruct (edge UI.AMP_UP), (edge UI.AMP_DOWN);
    repeat match goal with
      | |- context [?a <=? ?b] => destruct (Z.leb_spec a b)
      | |- context [?a >=? ?b] => destruct (Z.geb_spec a b)
      end;
    repeat split; intros; try lia; try discriminate.
Qed.

Lemma X22_ui_amplitude_witness :
  amp (snd (UI.ui_update UI.code_in_order UI.of_code_in_order
              (UI.only UI.AMP_UP) sine_1k)) = 255.
Proof.
  destruct (X22_ui_amplitude UI.code_in_order UI.of_code_in_order
              (UI.only UI.AMP_UP) sine_1k) as (H & _).
  - cbn. lia.
  - rewrite H. reflexivity.
Defined.

Lemma pwm_target_bounds (t : F32.float) :
  t <> S754_nan ->
  F32.leb (F32.of_Z 1) (pwm_target t) = true
  /\ F32.leb (pwm_target t) (F32.of_Z 10000000) = true.
Proof.
  intros Ht. unfold pwm_target. cbv zeta.
  change (F32.of_Z WaveGen.PWM_MAX_HZ) with (F32.of_Z 10000000).
  change F32.one with (F32.of_Z 1).
  destruct (F32.ltb t (F32.of_Z 1)) eqn:E1.
  - change (F32.gtb (F32.of_Z 1) (F32.of_Z 10000000)) with false.
    split; reflexivity.
  - destruct (F32.gtb t (F32.of_Z 10000000)) eqn:E2.
    + split; reflexivity.
    + split; apply ltb_false_leb; try assumption; discriminate.
Qed.

Lemma ui_poll_eq wave_code wave_of_code (btn : UI.Key -> UI.DebBtn)
    (level time : UI.Key -> Z) (s : Settings) :
  let edge k := fst (UI.deb_pressed_edge (btn k) (level k) (time k)) in
  UI.ui_poll wave_code wave_of_code btn level time s =
    (fst (UI.ui_update wave_code wave_of_code edge s),
     fun k => snd (UI.deb_pressed_edge (btn k) (level k) (time k)),
     snd (UI.ui_update wave_code wave_of_code edge s)).
Proof.
  cbv zeta. unfold UI.ui_poll.
  now destruct (UI.ui_update wave_code wave_of_code _ s).
Qed.

(** X23: whatever the buttons do, [ui_poll] hands on a target frequency
    in [[1, 1e7]] Hz as soon as the one it was given is not a NaN (the
    factors 1.10 and 0.90 cannot make one), so the clamp of
    [configure_square] finds nothing to do and in square mode the frequency
    reported is the one the PWM channel is set up from; a target already in
    range is left alone when neither frequency button has an edge; and the
    result says "changed" exactly when some button has an edge. *)
Theorem X23_ui_target_range wave_code wave_of_code (btn : UI.Key -> UI.DebBtn)
    (level time : UI.Key -> Z) (s : Settings) :
  targetHz s <> S754_nan ->
  let edge k := fst (UI.deb_pressed_edge (btn k) (level k) (time k)) in
  let s' := snd (UI.ui_poll wave_code wave_of_code btn level time s) in
  F32.leb (F32.of_Z 1) (targetHz s') = true
  /\ F32.leb (targetHz s') (F32.of_Z 10000000) = true
  /\ pwm_target (targetHz s') = targetHz s'
  /\ (edge UI.FREQ_UP = false -> edge UI.FREQ_DOWN = false ->
      F32.leb (F32.of_Z 1) (targetHz s) = true ->
      F32.leb (targetHz s) (F32.of_Z 10000000) = true ->
      targetHz s' = targetHz s)
  /\ fst (fst (UI.ui_poll wave_code wave_of_code btn level time s)) =
       edge UI.FREQ_UP || edge UI.FREQ_DOWN || edge UI.AMP_UP
       || edge UI.AMP_DOWN || edge UI.WAVE_NEXT.
Proof.
  intros Ht. cbv zeta. rewrite ui_poll_eq. cbv zeta. cbn [fst snd].
  set (edge := fun k => fst (UI.deb_pressed_edge (btn k) (level k) (time k))).
  destruct (ui_update_fields wave_code wave_of_code edge s)
    as (Hc & E & _). cbv zeta in E. rewrite E.
  set (t1 := if edge UI.FREQ_UP then F32.mul (targetHz s) UI.f1_10
             else targetHz s) in *.
  set (t2 := if edge UI.FREQ_DOWN then F32.mul t1 UI.f0_90 else t1) in *.
  assert (H1 : t1 <> S754_nan).
  { unfold t1. destruct (edge UI.FREQ_UP); [|exact Ht].
    now apply mul_not_nan. }
  assert (H2 : t2 <> S754_nan).
  { unfold t2. destruct (edge UI.FREQ_DOWN); [|exact H1].
    now apply mul_not_nan. }
  destruct (pwm_target_bounds t2 H2) as [B1 B2].
  split; [exact B1|]. split; [exact B2|].
  split; [now apply pwm_target_in_range|]. split; [|exact Hc].
  intros E1 E2 L1 L2. change (edge UI.FREQ_UP = false) in E1.
  change (edge UI.FREQ_DOWN = false) in E2. unfold t2, t1. rewrite E1, E2.
  now apply pwm_target_in_range.
Qed.

(** All five buttons idle: high, read high last, unchanged since time 0. *)
Lemma X23_ui_target_range_witness :
  let idle (_ : UI.Key) := UI.mkDebBtn 0 1 1 0 in
  let s' := snd (UI.ui_poll UI.code_in_order UI.of_code_in_order
                   idle (fun _ => 1) (fun _ => 100) square_20M) in
  F32.leb (F32.of_Z 1) (targetHz s') = true
  /\ F32.leb (targetHz s') (F32.of_Z 10000000) = true
  /\ pwm_target (targetHz s') = targetHz s'.
Proof.
  intros idle s'.
  destruct (X23_ui_target_range UI.code_in_order UI.of_code_in_order
              idle (fun _ => 1) (fun _ => 100) square_20M)
    as (H1 & H2 & H3 & _).
  - discriminate.
  - exact (conj H1 (conj H2 H3)).
Defined.

(** X24: the WAVE_NEXT edge steps the waveform to the one numbered
    [(w + 1) & 3]: whatever numbering of the four enumerators [Types.h]
    chooses within 0..3, one press changes the waveform and four presses
    bring it back. *)
Theorem X24_ui_wave_cycle wave_code wave_of_code (s : Settings) :
  (forall w, 0 <= wave_code w < 4) ->
  (forall w, wave_of_code (wave_code w) = w) ->
  (forall c, 0 <= c < 4 -> wave_code (wave_of_code c) = c) ->
  let next x :=
    snd (UI.ui_update wave_code wave_of_code (UI.only UI.WAVE_NEXT) x) in
  wave_code (wave (next s)) = (wave_code (wave s) + 1) mod 4
  /\ wave (next s) <> wave s
  /\ wave (next (next (next (next s)))) = wave s
  /\ amp (next s) = amp s.
Proof.
  intros Hr Hl Hc next.
  assert (Hn : forall x,
            wave_code (wave (next x)) = (wave_code (wave x) + 1) mod 4).
  { intros x. unfold next.
    destruct (ui_update_fields wave_code wave_of_code
                (UI.only UI.WAVE_NEXT) x) as (_ & _ & _ & E & _).
    cbv zeta in E. rewrite E. cbn [UI.only].
    specialize (Hr (wave x)).
    rewrite (Z.mod_small (wave_code (wave x)) 256) by lia.
    change 3 with (Z.ones 2). rewrite Z.land_ones by lia.
    change (2 ^ 2) with 4.
    pose proof (Z.mod_pos_bound (wave_code (wave x) + 1) 4 ltac:(lia)).
    rewrite (Z.mod_small _ 256) by lia. apply Hc. lia. }
  split; [apply Hn|]. split; [|split].
  - intros E. pose proof (Hn s) as H. rewrite E in H.
    specialize (Hr (wave s)).
    assert (wave_code (wave s) = 3 \/ wave_code (wave s) < 3) as [H3|H3] by lia.
    + rewrite H3 in H. cbn in H. lia.
    + rewrite Z.mod_small in H by lia. lia.
  - rewrite <- (Hl (wave (next (next (next (next s)))))), <- (Hl (wave s)).
    f_equal. rewrite !Hn. specialize (Hr (wave s)).
    assert (wave_code (wave s) = 0 \/ wave_code (wave s) = 1
            \/ wave_code (wave s) = 2 \/ wave_code (wave s) = 3)
      as [E|[E|[E|E]]] by lia; rewrite E; reflexivity.
  - unfold next.
    destruct (ui_update_fields wave_code wave_of_code
                (UI.only UI.WAVE_NEXT) s) as (_ & _ & E & _).
    cbv zeta in E. rewrite E. reflexivity.
Qed.

Lemma X24_ui_wave_cycle_witness :
  let next x :=
    snd (UI.ui_update UI.code_in_order UI.of_code_in_order
           (UI.only UI.WAVE_NEXT) x) in
  wave (next sine_1k) <> wave sine_1k
  /\ wave (next (next (next (next sine_1k)))) = wave sine_1k.
Proof.
  intros next.
  destruct (X24_ui_wave_cycle UI.code_in_order UI.of_code_in_order sine_1k)
    as (_ & H2 & H3 & _).
  - intros w. destruct w; cbn; lia.
  - intros w. now destruct w.
  - intros c Hc.
    assert (c = 0 \/ c = 1 \/ c = 2 \/ c = 3) as [->|[->|[->| ->]]] by lia;
      reflexivity.
  - exact (conj H2 H3).
Defined.
